(** * XmlTree: a shallow embedding of [xml_tree.hpp]

    The development follows the header file top-down: the C library
    routines it calls, the value model ([Tree_Val_t]), the item tree
    ([Tree_Item_t], [Tree_Member_t]), the packed identifier codec, schema
    construction ([_make_itemTree]), batch ingestion
    ([_push_memberVector], [add_batch_fromXmlFile]), look-up and
    deletion.  Theorems come after the definitions.

    Conventions.
    - [uint32_t] and [int] are [Z] with the wrap-around written out.
    - [std::set<uint32_t>] is [gset Z]; [std::list] and [std::vector] are
      [list].
    - A [Tree_Item_t*] handed around by the code is the path (child
      positions from the root) of the item it points to.
    - Behaviour that C++ leaves undefined (a null pointer dereference,
      control reaching the end of a value-returning function, reading a
      buffer past its end) is the outcome [Undefined].
    - The two [while] loops over the nibbles of an id take fuel; running out
      of it is the outcome [OutOfFuel], which the theorems rule out. *)

From Stdlib Require Import ZArith Lia Ascii String.
From Stdlib Require Import Floats.SpecFloat.
From stdpp Require Import base option list gmap strings sorting.

Local Open Scope Z_scope.

(** ** Outcomes *)

Inductive outcome (A : Type) : Type :=
| Returns (a : A)
| Undefined
| OutOfFuel.
Arguments Returns {A} a.
Arguments Undefined {A}.
Arguments OutOfFuel {A}.

#[global] Instance outcome_ret : MRet outcome := fun _ a => Returns a.
#[global] Instance outcome_bind : MBind outcome := fun _ _ f m =>
  match m with
  | Returns a => f a
  | Undefined => Undefined
  | OutOfFuel => OutOfFuel
  end.

(** ** Machine integers *)

Definition UINT32_MOD : Z := 2 ^ 32.
Definition to_uint32 (z : Z) : Z := z mod UINT32_MOD.
Definition to_int32 (z : Z) : Z := (z + 2 ^ 31) mod UINT32_MOD - 2 ^ 31.

(** [long] is 64 bits wide (LP64). *)
Definition LONG_MAX : Z := 2 ^ 63 - 1.
Definition LONG_MIN : Z := - 2 ^ 63.

(** ** C library routines used by the header *)

Definition NUL : ascii := Ascii.zero.

Definition char_code (c : ascii) : Z := Z.of_N (N_of_ascii c).

Definition isspace (c : ascii) : bool :=
  (char_code c =? 32) || ((9 <=? char_code c) && (char_code c <=? 13)).

Definition isdigit (c : ascii) : bool :=
  (48 <=? char_code c) && (char_code c <=? 57).

Fixpoint skip_space (s : string) : string :=
  match s with
  | String c r => if isspace c then skip_space r else s
  | EmptyString => s
  end.

Fixpoint strtol_digits (s : string) (acc : Z) : Z :=
  match s with
  | String c r =>
      if isdigit c then strtol_digits r (10 * acc + (char_code c - 48)) else acc
  | EmptyString => acc
  end.

(** An optional sign at the head of [s]: whether it is a minus, and the
    rest. *)
Definition split_sign (s : string) : bool * string :=
  match s with
  | String c r =>
      if Ascii.eqb c "-" then (true, r)
      else if Ascii.eqb c "+" then (false, r)
      else (false, s)
  | EmptyString => (false, s)
  end.

(** [strtol(s, &p, 10)]: leading white space, an optional sign, decimal
    digits; 0 when there is no digit; saturating at the range of [long]. *)
Definition strtol (s : string) : Z :=
  let '(neg, s2) := split_sign (skip_space s) in
  let v := strtol_digits s2 0 in
  let v := if neg then - v else v in
  Z.max LONG_MIN (Z.min LONG_MAX v).

(** [strcmp]: the sign of the first difference; both arguments end at their
    first NUL (the end of a Rocq string stands for the terminator). *)
Fixpoint strcmp (a b : string) : Z :=
  match a, b with
  | EmptyString, EmptyString => 0
  | EmptyString, String y _ => if Ascii.eqb y NUL then 0 else -1
  | String x _, EmptyString => if Ascii.eqb x NUL then 0 else 1
  | String x a', String y b' =>
      if Ascii.eqb x y then (if Ascii.eqb x NUL then 0 else strcmp a' b')
      else if char_code x <? char_code y then -1 else 1
  end.

(** The conversion of a C string to [std::string]: the characters before
    the first NUL. *)
Fixpoint std_string (p : string) : string :=
  match p with
  | EmptyString => EmptyString
  | String c r => if Ascii.eqb c NUL then EmptyString else String c (std_string r)
  end.

(** The byte loop of [memcmp] over [n] bytes that both buffers hold: it
    stops at the first difference. *)
Fixpoint memcmp_bytes (a b : list ascii) (n : nat) : Z :=
  match n, a, b with
  | S n', x :: a', y :: b' =>
      if Ascii.eqb x y then memcmp_bytes a' b' n'
      else if char_code x <? char_code y then -1 else 1
  | _, _, _ => 0
  end.

(** [memcmp(a, b, n)]: both objects must hold [n] bytes.  When either is
    shorter the behaviour is undefined, also when an earlier byte differs. *)
Definition memcmp (a b : list ascii) (n : nat) : outcome Z :=
  if (n <=? length a)%nat && (n <=? length b)%nat
  then Returns (memcmp_bytes a b n) else Undefined.

(** ** Error codes and value tags (the enumerators as [int]) *)

Definition ERR_None : Z := 0.
Definition ERR_OverLayer : Z := 1.
Definition ERR_NullPointer : Z := 2.
Definition ERR_OverItem : Z := 3.
Definition ERR_NoXmlNode : Z := 4.
Definition ERR_NoXmlAttr : Z := 5.
Definition ERR_IllegalIndex : Z := 6.
Definition ERR_IllegalId : Z := 7.
Definition ERR_UsedIndex : Z := 8.
Definition ERR_UnregisteredIndex : Z := 9.
Definition ERR_UnregisteredItem : Z := 10.

Inductive Tree_Val_e : Type :=
| VAL_None | VAL_Int | VAL_String | VAL_Double | VAL_NUM.

#[global] Instance Tree_Val_e_eq_dec : EqDecision Tree_Val_e.
Proof. solve_decision. Defined.

(** ** Class constants *)

Definition C_nMaxLayer : Z := 4 * 2.
Definition C_nMaxItem : Z := 16 - 1.
Definition C_nCrorNum : Z := 4.
Definition C_strItemTag : string := "Content".
Definition C_strBatchTag : string := "Batch".
Definition C_strMemberTag : string := "Member".
Definition C_strIndexTag : string := "index".
Definition C_strNameTag : string := "name".
Definition C_strTypeTag : string := "type".
Definition C_arrValTypeStr : list string := [ EmptyString; "int"; "string"; "double" ]%string.

(** ** Identifier codec *)

(** The id assignment of [_make_itemTree]:
    [(item_index << C_nCrorNum * n_layer) | item_parent->n_id]. *)
Definition child_id (item_index n_layer parent_id : Z) : Z :=
  Z.lor (to_uint32 (Z.shiftl item_index (C_nCrorNum * n_layer))) parent_id.

(** The [while (id_child)] loop of [_get_parentId]: the final [id_child]
    and [cror]. *)
Fixpoint _get_parentId_loop (fuel : nat) (id_child cror : Z) : outcome (Z * Z) :=
  if id_child =? 0 then Returns (id_child, cror)
  else match fuel with
       | O => OutOfFuel
       | S fuel' =>
           _get_parentId_loop fuel' (Z.shiftr id_child C_nCrorNum) (cror + 1)
       end.

(** A 32-bit word is zero after eight shifts by four. *)
Definition NIBBLES : nat := 8.

Definition _get_parentId (id_child : Z) : outcome Z :=
  if negb (id_child =? 0) then
    '(id_child', cror) ← _get_parentId_loop NIBBLES id_child 0;
    Returns (Z.land id_child'
               (to_uint32 (Z.shiftl 1 (C_nCrorNum * (cror - 1)) - 1)))
  else Returns 0.

(** ** [strtod] in the C locale, correctly rounded to binary64 *)

Definition DBL_PREC : Z := 53.
Definition DBL_EMAX : Z := 1024.

(** The binary64 nearest to [n / d * 2 ^ e2] (ties to even): the quotient is
    taken with at least 64 significant bits and rounded once, with the
    position of the remainder. *)
Definition round_ratio (neg : bool) (n d : Z) (e2 : Z) : spec_float :=
  if n =? 0 then S754_zero neg
  else
    let s := Z.max 0 (64 + Z.log2 d - Z.log2 n) in
    let q := (n * 2 ^ s) / d in
    let r := (n * 2 ^ s) mod d in
    let loc := if r =? 0 then loc_Exact else loc_Inexact (Z.compare (2 * r) d) in
    binary_round_aux DBL_PREC DBL_EMAX neg q (e2 - s) loc.

Definition tolower (c : ascii) : ascii :=
  if (65 <=? char_code c) && (char_code c <=? 90)
  then ascii_of_N (Z.to_N (char_code c + 32)) else c.

Definition digit_of (base : Z) (c : ascii) : option Z :=
  let k := char_code (tolower c) in
  if isdigit c then Some (char_code c - 48)
  else if (base =? 16) && (97 <=? k) && (k <=? 102) then Some (k - 87)
  else None.

(** Digits in [base] at the head of [s]: the accumulated value, how many
    digits were read, and the rest. *)
Fixpoint scan_digits (base : Z) (s : string) (acc cnt : Z) : Z * Z * string :=
  match s with
  | String c r =>
      match digit_of base c with
      | Some v => scan_digits base r (base * acc + v) (cnt + 1)
      | None => (acc, cnt, s)
      end
  | EmptyString => (acc, cnt, s)
  end.

(** [starts_with p s]: [s] begins with [p], letters compared without case. *)
Fixpoint starts_with (p s : string) : bool :=
  match p, s with
  | EmptyString, _ => true
  | String a p', String b s' => Ascii.eqb a (tolower b) && starts_with p' s'
  | String _ _, EmptyString => false
  end.

(** An exponent part [x[+-]ddd] after the mantissa, where [x] is the marker
    (e or p); absent or without digits it counts as 0. *)
Definition scan_exponent (marker : ascii) (s : string) : Z :=
  match s with
  | String c r =>
      if Ascii.eqb (tolower c) marker then
        let '(neg, r') := split_sign r in
        let '(v, cnt, _) := scan_digits 10 r' 0 0 in
        if cnt =? 0 then 0 else if neg then - v else v
      else 0
  | EmptyString => 0
  end.

(** Mantissa [ddd[.ddd]] in [base]: value of all digits read, number of
    digits, number of digits after the point, and the rest. *)
Definition scan_mantissa (base : Z) (s : string) : Z * Z * Z * string :=
  let '(ip, n1, r1) := scan_digits base s 0 0 in
  match r1 with
  | String "." t =>
      let '(m, n2, r2) := scan_digits base t ip 0 in
      if n1 + n2 =? 0 then (0, 0, 0, s) else (m, n1 + n2, n2, r2)
  | _ => (ip, n1, 0, r1)
  end.

Definition strtod (s : string) : spec_float :=
  let '(neg, s2) := split_sign (skip_space s) in
  if starts_with "inf" s2 then S754_infinity neg
  else if starts_with "nan" s2 then S754_nan
  else
    let hex :=
      match s2 with
      | String "0" (String x r) =>
          if Ascii.eqb (tolower x) "x" then
            let '(m, n, nf, rest) := scan_mantissa 16 r in
            if n =? 0 then None else Some (m, nf, rest)
          else None
      | _ => None
      end in
    match hex with
    | Some (m, nf, rest) =>
        round_ratio neg m 1 (scan_exponent "p" rest - 4 * nf)
    | None =>
        let '(m, n, nf, rest) := scan_mantissa 10 s2 in
        if n =? 0 then S754_zero false
        else
          let e10 := scan_exponent "e" rest - nf in
          if 0 <=? e10 then round_ratio neg (m * 10 ^ e10) 1 0
          else round_ratio neg m (10 ^ (- e10)) 0
    end.

(** ** Values *)

(** [Tree_Val_u]: the member of the union that was written last, if any.
    A [char*] is the buffer it points to. *)
Inductive Tree_Val_u : Type :=
| u_indeterminate
| val_int (z : Z)
| val_double (d : spec_float)
| val_string (buf : list ascii).

(** [Tree_Val_t]; a field that was never written is [u_indeterminate],
    respectively [None]. *)
Record Tree_Val_t : Type := mk_Tree_Val_t {
  e_type : Tree_Val_e;
  u_val : Tree_Val_u;
  n_memLen : option Z
}.

(** [memcpy(new char[n], src, n)]: the first [n] bytes of [src]. *)
Definition memcpy (src : list ascii) (n : Z) : outcome (list ascii) :=
  if (0 <=? n) && (n <=? Z.of_nat (length src))
  then Returns (take (Z.to_nat n) src) else Undefined.

(** [Tree_Val_t::operator=]: [this] after the assignment. *)
Definition Tree_Val_assign (this val : Tree_Val_t) : outcome Tree_Val_t :=
  match e_type val with
  | VAL_String =>
      match n_memLen val, u_val val with
      | Some n, val_string src =>
          buf ← memcpy src n;
          Returns (mk_Tree_Val_t VAL_String (val_string buf) (Some n))
      | _, _ => Undefined
      end
  | VAL_Int =>
      match u_val val with
      | val_int z => Returns (mk_Tree_Val_t VAL_Int (val_int z) (n_memLen this))
      | _ => Undefined
      end
  | VAL_Double =>
      match u_val val with
      | val_double d => Returns (mk_Tree_Val_t VAL_Double (val_double d) (n_memLen this))
      | _ => Undefined
      end
  | t => Returns (mk_Tree_Val_t t (u_val this) (n_memLen this))
  end.

(** [Tree_Val_t::operator==].  When the tags agree and are none of
    [VAL_String], [VAL_Int], [VAL_Double], the switch falls to [default: break]
    and control leaves the function without a [return]. *)
Definition Tree_Val_eq (this val : Tree_Val_t) : outcome bool :=
  if decide (e_type this = e_type val) then
    match e_type this with
    | VAL_String =>
        match u_val this, u_val val, n_memLen val with
        | val_string a, val_string b, Some n =>
            if 0 <=? n then c ← memcmp a b (Z.to_nat n); Returns (c =? 0)
            else Undefined
        | _, _, _ => Undefined
        end
    | VAL_Int =>
        match u_val this, u_val val with
        | val_int a, val_int b => Returns (a =? b)
        | _, _ => Undefined
        end
    | VAL_Double =>
        match u_val this, u_val val with
        | val_double a, val_double b => Returns (SFeqb a b)
        | _, _ => Undefined
        end
    | _ => Undefined
    end
  else Returns false.

(** ** Members, items and the tree *)

Record Tree_Member_t : Type := mk_Tree_Member_t {
  s_val : Tree_Val_t;
  set_batchIndex : gset Z
}.

#[local] Unset Elimination Schemes.
Inductive Tree_Item_t : Type :=
  mk_Tree_Item_t (n_id : Z) (str_name : string)
                 (l_member : list Tree_Member_t)
                 (v_childItem : list Tree_Item_t).

Definition n_id (it : Tree_Item_t) : Z :=
  match it with mk_Tree_Item_t i _ _ _ => i end.
Definition str_name (it : Tree_Item_t) : string :=
  match it with mk_Tree_Item_t _ s _ _ => s end.
Definition l_member (it : Tree_Item_t) : list Tree_Member_t :=
  match it with mk_Tree_Item_t _ _ l _ => l end.
Definition v_childItem (it : Tree_Item_t) : list Tree_Item_t :=
  match it with mk_Tree_Item_t _ _ _ v => v end.

Record xmlTree : Type := mk_xmlTree {
  s_rootItem : Tree_Item_t;
  tree_batchIndex : gset Z
}.

(** The constructor [xmlTree()]. *)
Definition xmlTree_new : xmlTree := mk_xmlTree (mk_Tree_Item_t 0 EmptyString [] []) ∅.

(** An item pointer: the child positions leading to it from the root. *)
Definition item_ptr : Type := list nat.

Fixpoint item_at (it : Tree_Item_t) (p : item_ptr) {struct p} : option Tree_Item_t :=
  match p with
  | [] => Some it
  | k :: p' =>
      match v_childItem it !! k with
      | Some c => item_at c p'
      | None => None
      end
  end.

(** Writing the member list of the item a pointer designates. *)
Fixpoint set_members (it : Tree_Item_t) (p : item_ptr) (l : list Tree_Member_t)
  {struct p} : Tree_Item_t :=
  match p with
  | [] => mk_Tree_Item_t (n_id it) (str_name it) l (v_childItem it)
  | k :: p' =>
      mk_Tree_Item_t (n_id it) (str_name it) (l_member it)
        (alter (fun c => set_members c p' l) k (v_childItem it))
  end.

(** ** The attributed-node interface (rapidxml) *)

Inductive xml_node : Type :=
  XmlNode (name : string) (attributes : list (string * string))
          (value : string) (children : list xml_node).
#[local] Set Elimination Schemes.

Definition node_name (n : xml_node) : string :=
  match n with XmlNode s _ _ _ => s end.
Definition node_attributes (n : xml_node) : list (string * string) :=
  match n with XmlNode _ a _ _ => a end.
Definition node_value (n : xml_node) : string :=
  match n with XmlNode _ _ v _ => v end.
Definition node_children (n : xml_node) : list xml_node :=
  match n with XmlNode _ _ _ c => c end.

(** [first_attribute(name)]: the value of the first attribute of that name. *)
Fixpoint first_attribute (attrs : list (string * string)) (name : string)
  : option string :=
  match attrs with
  | [] => None
  | (k, v) :: r => if String.eqb k name then Some v else first_attribute r name
  end.

(** ** Schema construction *)

(** [v_childItem.push_back(child)] on an item. *)
Definition push_child (it child : Tree_Item_t) : Tree_Item_t :=
  mk_Tree_Item_t (n_id it) (str_name it) (l_member it) (v_childItem it ++ [child]).

(** The locals of [_make_itemTree] that live across its [for] loop. *)
Record make_state : Type := mk_make_state {
  mk_ret : Z;
  mk_last_err : Z;
  mk_cnt_item : Z;
  mk_cnt_legalItem : Z;
  mk_index_set : gset Z;
  mk_item_parent : Tree_Item_t
}.

Section make_loop.
(** The recursive call, and the layer of the enclosing call. *)
Variable rec : xml_node → Tree_Item_t → Z → outcome (Z * Tree_Item_t).
Variable n_layer : Z.

(** The [for] loop over the item-tagged children of the node, from the
    sibling list that starts at the current [child_node]. *)
Fixpoint _make_itemTree_loop (siblings : list xml_node) (st : make_state)
  : outcome make_state :=
  match siblings with
  | [] => Returns st
  | child_node :: rest =>
      if negb (String.eqb (node_name child_node) C_strItemTag)
      then _make_itemTree_loop rest st
      else if mk_cnt_item st >? C_nMaxItem
      then Returns (mk_make_state ERR_OverItem (mk_last_err st) (mk_cnt_item st)
                      (mk_cnt_legalItem st) (mk_index_set st) (mk_item_parent st))
      else
        match first_attribute (node_attributes child_node) C_strIndexTag with
        | None =>
            _make_itemTree_loop rest
              (mk_make_state ERR_NoXmlAttr (mk_last_err st) (mk_cnt_item st + 1)
                 (mk_cnt_legalItem st) (mk_index_set st) (mk_item_parent st))
        | Some v =>
            let item_index := to_uint32 (strtol v) in
            if negb (item_index =? 0) && (item_index <=? C_nMaxItem)
               && bool_decide (item_index ∉ mk_index_set st)
            then
              match first_attribute (node_attributes child_node) C_strNameTag with
              | None => Undefined
              | Some nm =>
                  let child_item :=
                    mk_Tree_Item_t
                      (child_id item_index n_layer (n_id (mk_item_parent st)))
                      (std_string nm) [] [] in
                  '(r, child_item') ← rec child_node child_item (n_layer + 1);
                  _make_itemTree_loop rest
                    (mk_make_state ERR_IllegalIndex (Z.lor (mk_last_err st) r)
                       (mk_cnt_item st + 1) (mk_cnt_legalItem st + 1)
                       ({[item_index]} ∪ mk_index_set st)
                       (push_child (mk_item_parent st) child_item'))
              end
            else
              _make_itemTree_loop rest
                (mk_make_state ERR_IllegalIndex (mk_last_err st) (mk_cnt_item st + 1)
                   (mk_cnt_legalItem st) (mk_index_set st) (mk_item_parent st))
        end
  end.
End make_loop.

(** [_make_itemTree] on a non-null node and item: the error code and the
    item as the call leaves it. *)
Fixpoint _make_itemTree_at (node_parent : xml_node) (item_parent : Tree_Item_t)
  (n_layer : Z) {struct node_parent} : outcome (Z * Tree_Item_t) :=
  match node_parent with
  | XmlNode _ _ _ children =>
      if n_layer <? C_nMaxLayer then
        if bool_decide (children = []) && (n_layer >? 0)
        then Returns (ERR_None, item_parent)
        else
          st ← _make_itemTree_loop _make_itemTree_at n_layer children
                 (mk_make_state ERR_NoXmlNode ERR_None 0 0 ∅ item_parent);
          if negb (mk_cnt_item st =? 0) && (mk_cnt_item st =? mk_cnt_legalItem st)
          then Returns (mk_last_err st, mk_item_parent st)
          else Returns (mk_ret st, mk_item_parent st)
      else Returns (ERR_OverLayer, item_parent)
  end.

(** [_make_itemTree]; the item pointer is never null at its call sites. *)
Definition _make_itemTree (node_parent : option xml_node)
  (item_parent : Tree_Item_t) (n_layer : Z) : outcome (Z * Tree_Item_t) :=
  match node_parent with
  | None => Returns (ERR_NullPointer, item_parent)
  | Some n => _make_itemTree_at n item_parent n_layer
  end.

(** [build_tree_fromXmlFile]; [root_node] is the first node of the parsed
    document, null for an empty document. *)
Definition build_tree_fromXmlFile (root_node : option xml_node) (t : xmlTree)
  : outcome (Z * xmlTree) :=
  '(ret, root) ← _make_itemTree root_node (s_rootItem t) 0;
  Returns (ret, mk_xmlTree root (tree_batchIndex t)).

(** ** Search *)

(** The [while] loop of [_search_item_byId], entered at item [temp_item]
    (which [ptr] points to) with [temp_id] left to decode. *)
Fixpoint _search_item_byId_loop (fuel : nat) (n_id0 : Z) (temp_item : Tree_Item_t)
  (ptr : item_ptr) (temp_id : Z) : outcome (option item_ptr) :=
  if temp_id =? 0 then Returns None
  else
    match fuel with
    | O => OutOfFuel
    | S fuel' =>
        let index := Z.land temp_id C_nMaxItem in
        if (index =? 0) || (index >? Z.of_nat (length (v_childItem temp_item)))
        then Returns None
        else
          match v_childItem temp_item !! Z.to_nat (index - 1) with
          | None => Undefined
          | Some child =>
              if n_id child =? n_id0 then Returns (Some (ptr ++ [Z.to_nat (index - 1)]))
              else
                _search_item_byId_loop fuel' n_id0 child
                  (ptr ++ [Z.to_nat (index - 1)]) (Z.shiftr temp_id C_nCrorNum)
          end
    end.

(** [_search_item_byId]: a pointer to the item found, or null. *)
Definition _search_item_byId (root : Tree_Item_t) (n_id0 : Z)
  : outcome (option item_ptr) :=
  if n_id0 =? 0 then Returns (Some [])
  else _search_item_byId_loop NIBBLES n_id0 root [] n_id0.

Section search_loop.
Variable rec : Tree_Item_t → string → option (item_ptr * Tree_Item_t).
Variable str_itemName : string.

(** The [for] loop of [_search_item_byName] from child position [k]. *)
Fixpoint _search_item_byName_loop (childs : list Tree_Item_t) (k : nat)
  : option (item_ptr * Tree_Item_t) :=
  match childs with
  | [] => None
  | child_item :: rest =>
      let ret_item :=
        match rec child_item str_itemName with
        | Some (p, it) => Some (k :: p, it)
        | None => None
        end in
      let ret_item :=
        if strcmp (str_name child_item) str_itemName =? 0
        then Some ([k], child_item) else ret_item in
      match ret_item with
      | Some r => Some r
      | None => _search_item_byName_loop rest (S k)
      end
  end.
End search_loop.

(** [_search_item_byName]: the pointer found together with its pointee, or
    null. *)
Fixpoint _search_item_byName (item_parent : Tree_Item_t) (str_itemName : string)
  {struct item_parent} : option (item_ptr * Tree_Item_t) :=
  match item_parent with
  | mk_Tree_Item_t _ _ _ childs =>
      _search_item_byName_loop _search_item_byName str_itemName childs 0%nat
  end.

(** ** Value parsing and look-up *)

Definition Tree_Val_e_of_int (m : Z) : Tree_Val_e :=
  if m =? 0 then VAL_None
  else if m =? 1 then VAL_Int
  else if m =? 2 then VAL_String
  else if m =? 3 then VAL_Double
  else VAL_NUM.

Fixpoint _parse_strToType_loop (arr : list string) (m : Z) (str_type : string) : Z :=
  match arr with
  | [] => m
  | s :: r =>
      if strcmp s str_type =? 0 then m else _parse_strToType_loop r (m + 1) str_type
  end.

Definition _parse_strToType (str_type : string) : Tree_Val_e :=
  Tree_Val_e_of_int (_parse_strToType_loop C_arrValTypeStr 0 str_type).

Definition string_bytes (s : string) : list ascii := list_ascii_of_string s.

(** [_set_memberVal]: [s_val] after the call. *)
Definition _set_memberVal (str_val : string) (s_val : Tree_Val_t) : Tree_Val_t :=
  match e_type s_val with
  | VAL_String =>
      let n := Z.of_nat (String.length str_val) + 1 in
      mk_Tree_Val_t VAL_String (val_string (string_bytes str_val ++ [NUL])) (Some n)
  | VAL_Int =>
      mk_Tree_Val_t VAL_Int (val_int (to_int32 (strtol str_val))) (n_memLen s_val)
  | VAL_Double =>
      mk_Tree_Val_t VAL_Double (val_double (strtod str_val)) (n_memLen s_val)
  | _ => s_val
  end.

(** A declared [Tree_Val_t] with only its tag written ([temp_val.e_type = ...]). *)
Definition Tree_Val_declared (t : Tree_Val_e) : Tree_Val_t :=
  mk_Tree_Val_t t u_indeterminate None.

(** A declared [Tree_Val_t] that is the target of an assignment; its tag is
    overwritten before it is read. *)
Definition Tree_Val_fresh : Tree_Val_t := Tree_Val_declared VAL_None.

(** The loop of [_get_memberVal]: the error code and the output parameter
    [s_val] (here [out_val]) after it. *)
Fixpoint _get_memberVal_loop (members : list Tree_Member_t) (n_batchIndex : Z)
  (out_val : Tree_Val_t) : outcome (Z * Tree_Val_t) :=
  match members with
  | [] => Returns (ERR_UnregisteredIndex, out_val)
  | member :: rest =>
      if bool_decide (n_batchIndex ∈ set_batchIndex member)
      then v ← Tree_Val_assign out_val (s_val member); Returns (ERR_None, v)
      else _get_memberVal_loop rest n_batchIndex out_val
  end.

(** [_get_memberVal] on a non-null item. *)
Definition _get_memberVal (item_member : Tree_Item_t) (n_batchIndex : Z)
  (out_val : Tree_Val_t) : outcome (Z * Tree_Val_t) :=
  _get_memberVal_loop (l_member item_member) n_batchIndex out_val.

(** [_get_batchIndex]. *)
Definition _get_batchIndex (node_batch : xml_node) : Z :=
  match first_attribute (node_attributes node_batch) C_strIndexTag with
  | Some v => to_uint32 (strtol v)
  | None => 0
  end.

(** ** Batch ingestion *)

(** [std::find_if] with the lambda [member->s_val == temp_val]: the position
    of the first member that compares equal. *)
Fixpoint find_if_member (members : list Tree_Member_t) (temp_val : Tree_Val_t)
  (k : nat) : outcome (option nat) :=
  match members with
  | [] => Returns None
  | member :: rest =>
      b ← Tree_Val_eq (s_val member) temp_val;
      if b : bool then Returns (Some k) else find_if_member rest temp_val (S k)
  end.

(** [member->set_batchIndex.insert(index_batch)]. *)
Definition member_insert (index_batch : Z) (member : Tree_Member_t) : Tree_Member_t :=
  mk_Tree_Member_t (s_val member) ({[index_batch]} ∪ set_batchIndex member).

(** [_push_memberVector] from the member node at the head of [nodes] (null
    when the list is empty): the error code and the root item afterwards. *)
Fixpoint _push_memberVector (nodes : list xml_node) (index_batch : Z)
  (root : Tree_Item_t) : outcome (Z * Tree_Item_t) :=
  match nodes with
  | [] => Returns (ERR_None, root)
  | node_member :: next_sibling =>
      if index_batch >? 0 then
        match first_attribute (node_attributes node_member) C_strNameTag with
        | None => Returns (ERR_NoXmlAttr, root)
        | Some nm =>
            match _search_item_byName root nm with
            | None => Returns (ERR_IllegalId, root)
            | Some (ptr, member_item) =>
                pid ← _get_parentId (n_id member_item);
                parent ← _search_item_byId root pid;
                match parent with
                | None => Returns (ERR_IllegalId, root)
                | Some _ =>
                    '(got, _) ← _get_memberVal member_item index_batch Tree_Val_fresh;
                    if got =? ERR_UnregisteredIndex then
                      match first_attribute (node_attributes node_member) C_strTypeTag with
                      | None => Returns (ERR_NoXmlAttr, root)
                      | Some ty =>
                          let temp_val :=
                            _set_memberVal (std_string (node_value node_member))
                              (Tree_Val_declared (_parse_strToType ty)) in
                          iter ← find_if_member (l_member member_item) temp_val 0%nat;
                          members ←
                            match iter with
                            | None =>
                                v ← Tree_Val_assign Tree_Val_fresh temp_val;
                                Returns (l_member member_item
                                           ++ [mk_Tree_Member_t v {[index_batch]}])
                            | Some k =>
                                Returns (alter (member_insert index_batch) k
                                           (l_member member_item))
                            end;
                          _push_memberVector next_sibling index_batch
                            (set_members root ptr members)
                      end
                    else Returns (ERR_UsedIndex, root)
                end
            end
        end
      else Returns (ERR_IllegalIndex, root)
  end.

(** The [for] loop of [add_batch_fromXmlFile] over the batch-tagged children
    of the root node. *)
Fixpoint add_batch_loop (siblings : list xml_node) (t : xmlTree)
  : outcome (Z * xmlTree) :=
  match siblings with
  | [] => Returns (ERR_None, t)
  | batch_node :: rest =>
      if negb (String.eqb (node_name batch_node) C_strBatchTag)
      then add_batch_loop rest t
      else
        let batch_index := _get_batchIndex batch_node in
        '(pushed, root) ← _push_memberVector (node_children batch_node) batch_index
                            (s_rootItem t);
        let ret := if negb (pushed =? ERR_None) then 1 else 0 in
        if negb (ret =? 0) then Returns (ret, mk_xmlTree root (tree_batchIndex t))
        else add_batch_loop rest
               (mk_xmlTree root ({[batch_index]} ∪ tree_batchIndex t))
  end.

(** [add_batch_fromXmlFile]; the root node is dereferenced unchecked. *)
Definition add_batch_fromXmlFile (root_node : option xml_node) (t : xmlTree)
  : outcome (Z * xmlTree) :=
  match root_node with
  | None => Undefined
  | Some r => add_batch_loop (node_children r) t
  end.

(** ** Deletion *)

(** The member loop of [_delete_membersOfBatch]; [is_delete] is declared
    before the loop and never cleared. *)
Fixpoint _delete_members_loop (members : list Tree_Member_t) (n_bathIndex : Z)
  (is_delete : bool) : list Tree_Member_t :=
  match members with
  | [] => []
  | member :: rest =>
      let '(member', is_delete') :=
        if bool_decide (n_bathIndex ∈ set_batchIndex member) then
          let s := set_batchIndex member ∖ {[n_bathIndex]} in
          (mk_Tree_Member_t (s_val member) s,
           if bool_decide (size s = 0%nat) then true else is_delete)
        else (member, is_delete) in
      if is_delete' then _delete_members_loop rest n_bathIndex is_delete'
      else member' :: _delete_members_loop rest n_bathIndex is_delete'
  end.

Fixpoint _delete_membersOfBatch (item_cur : Tree_Item_t) (n_bathIndex : Z)
  {struct item_cur} : Tree_Item_t :=
  match item_cur with
  | mk_Tree_Item_t id nm members childs =>
      mk_Tree_Item_t id nm (_delete_members_loop members n_bathIndex false)
        (map (fun child_item => _delete_membersOfBatch child_item n_bathIndex) childs)
  end.

(** [delete_oneBatch]. *)
Definition delete_oneBatch (n_batchIndex : Z) (t : xmlTree) : Z * xmlTree :=
  if bool_decide (n_batchIndex ∈ tree_batchIndex t)
  then (0, mk_xmlTree (_delete_membersOfBatch (s_rootItem t) n_batchIndex)
             (tree_batchIndex t ∖ {[n_batchIndex]}))
  else (ERR_UnregisteredIndex, t).

(** ** Queries *)

(** The batch indices of a [std::set] in iteration order (ascending). *)
Definition set_begin_to_end (s : gset Z) : list Z := merge_sort Z.le (elements s).

(** [std::map::insert]: an existing key keeps its value. *)
Definition map_insert {K : Type} `{Countable K} {V : Type} (k : K) (v : V)
  (m : gmap K V) : gmap K V :=
  match m !! k with
  | Some _ => m
  | None => <[k := v]> m
  end.

(** [get_itemName]: the name, or null. *)
Definition get_itemName (t : xmlTree) (n_itemId : Z) : outcome (option string) :=
  item ← _search_item_byId (s_rootItem t) n_itemId;
  match item with
  | Some p =>
      match item_at (s_rootItem t) p with
      | Some it =>
          match str_name it with
          | EmptyString => Returns None
          | s => Returns (Some s)
          end
      | None => Undefined
      end
  | None => Returns None
  end.

(** [get_batchSet]: the caller's set after the call. *)
Definition get_batchSet (t : xmlTree) (set_batch : gset Z) : gset Z :=
  foldl (fun acc x => {[x]} ∪ acc) ∅ (reverse (set_begin_to_end (tree_batchIndex t))).

(** The inner loop of [_get_membersOfItem] over the batch indices of one
    member. *)
Fixpoint _get_membersOfItem_set (item_cur : Tree_Item_t) (batches : list Z)
  (m_item : gmap Z Tree_Val_t) : outcome (gmap Z Tree_Val_t) :=
  match batches with
  | [] => Returns m_item
  | batch_index :: rest =>
      '(_, new_val) ← _get_memberVal item_cur batch_index (Tree_Val_declared VAL_None);
      _get_membersOfItem_set item_cur rest (map_insert batch_index new_val m_item)
  end.

(** The outer loop of [_get_membersOfItem] over the members. *)
Fixpoint _get_membersOfItem_loop (item_cur : Tree_Item_t) (members : list Tree_Member_t)
  (m_item : gmap Z Tree_Val_t) : outcome (gmap Z Tree_Val_t) :=
  match members with
  | [] => Returns m_item
  | member :: rest =>
      m ← _get_membersOfItem_set item_cur (set_begin_to_end (set_batchIndex member)) m_item;
      _get_membersOfItem_loop item_cur rest m
  end.

Definition _get_membersOfItem (item_cur : Tree_Item_t) (m_item : gmap Z Tree_Val_t)
  : outcome (gmap Z Tree_Val_t) :=
  _get_membersOfItem_loop item_cur (l_member item_cur) m_item.

(** [get_oneItemValue]: the error code and the caller's map afterwards. *)
Definition get_oneItemValue (t : xmlTree) (str_itemName : string)
  (m_item : gmap Z Tree_Val_t) : outcome (Z * gmap Z Tree_Val_t) :=
  match _search_item_byName (s_rootItem t) str_itemName with
  | Some (_, item) =>
      m ← _get_membersOfItem item m_item;
      Returns (ERR_None, m)
  | None => Returns (ERR_UnregisteredItem, m_item)
  end.

Section batch_loop.
Variable rec : Tree_Item_t → Z → gmap string Tree_Val_t → outcome (gmap string Tree_Val_t).
Variable n_batchIndex : Z.

(** The loop of [_get_membersOfBatch] over the children. *)
Fixpoint _get_membersOfBatch_loop (childs : list Tree_Item_t)
  (m_batch : gmap string Tree_Val_t) : outcome (gmap string Tree_Val_t) :=
  match childs with
  | [] => Returns m_batch
  | child_item :: rest =>
      m ← rec child_item n_batchIndex m_batch;
      _get_membersOfBatch_loop rest m
  end.
End batch_loop.

(** [_get_membersOfBatch] on a non-null item: the caller's map afterwards. *)
Fixpoint _get_membersOfBatch (item_cur : Tree_Item_t) (n_batchIndex : Z)
  (m_batch : gmap string Tree_Val_t) {struct item_cur}
  : outcome (gmap string Tree_Val_t) :=
  match item_cur with
  | mk_Tree_Item_t id nm members childs =>
      '(_, new_val) ← _get_memberVal_loop members n_batchIndex (Tree_Val_declared VAL_None);
      _get_membersOfBatch_loop _get_membersOfBatch n_batchIndex childs
        (map_insert nm new_val m_batch)
  end.

(** [get_oneBatchValue]. *)
Definition get_oneBatchValue (t : xmlTree) (n_batchIndex : Z)
  (m_batch : gmap string Tree_Val_t) : outcome (Z * gmap string Tree_Val_t) :=
  if bool_decide (n_batchIndex ∈ tree_batchIndex t)
  then m ← _get_membersOfBatch (s_rootItem t) n_batchIndex m_batch;
       Returns (ERR_None, m)
  else Returns (ERR_UnregisteredIndex, m_batch).

(** ** Documents used in the examples *)

Definition xml_root (children : list xml_node) : xml_node :=
  XmlNode "Root" [] EmptyString children.
Definition xml_item (index name : string) (children : list xml_node) : xml_node :=
  XmlNode C_strItemTag [("index", index); ("name", name)]%string EmptyString children.
Definition xml_batch (index : string) (members : list xml_node) : xml_node :=
  XmlNode C_strBatchTag [("index", index)]%string EmptyString members.
Definition xml_member (name type text : string) : xml_node :=
  XmlNode C_strMemberTag [("name", name); ("type", type)]%string text [].

(** One top-level item "student" (index 1) with two children, and a second
    top-level item. *)
Definition demo_schema : xml_node :=
  xml_root [ xml_item "1" "student" [ xml_item "1" "age" []; xml_item "2" "city" [] ];
             xml_item "2" "teacher" [] ].

(** The item "student" of the tree built from [demo_schema], holding the
    given members. *)
Definition demo_student (members : list Tree_Member_t) : Tree_Item_t :=
  mk_Tree_Item_t 1 "student" members
    [ mk_Tree_Item_t 17 "age" [] []; mk_Tree_Item_t 33 "city" [] [] ].

Definition demo_tree : Tree_Item_t :=
  mk_Tree_Item_t 0 EmptyString  [] [ demo_student []; mk_Tree_Item_t 2 "teacher" [] [] ].

(** Batch 2 sets student to "Bob", then batch 1 sets student to "Amy". *)
Definition demo_values : xml_node :=
  xml_root [ xml_batch "2" [ xml_member "student" "string" "Bob" ];
             xml_batch "1" [ xml_member "student" "string" "Amy" ] ].

Definition text_value (s : string) : Tree_Val_t :=
  mk_Tree_Val_t VAL_String (val_string (string_bytes s ++ [NUL]))
    (Some (Z.of_nat (String.length s) + 1)).

Definition member_bob : Tree_Member_t := mk_Tree_Member_t (text_value "Bob") {[2]}.
Definition member_amy : Tree_Member_t := mk_Tree_Member_t (text_value "Amy") {[1]}.

(** A legal schema whose two top-level items come in the order 2, 1. *)
Definition swapped_schema : xml_node :=
  xml_root [ xml_item "2" "a" []; xml_item "1" "b" [] ].

(** An item node that carries a legal index and no name. *)
Definition nameless_schema : xml_node :=
  xml_root [ XmlNode C_strItemTag [("index", "1")]%string EmptyString [] ].

(** The demo tree after [demo_values] is ingested. *)
Definition demo_loaded : xmlTree :=
  mk_xmlTree
    (mk_Tree_Item_t 0 EmptyString []
       [ demo_student [member_bob; member_amy]; mk_Tree_Item_t 2 "teacher" [] [] ])
    {[1; 2]}.

(** Batches 1 and 2 both set student to "Ann". *)
Definition same_values : xml_node :=
  xml_root [ xml_batch "1" [ xml_member "student" "string" "Ann" ];
             xml_batch "2" [ xml_member "student" "string" "Ann" ] ].





(** Seventeen item nodes under one root. *)
Definition crowded_schema : xml_node :=
  xml_root (map (fun _ : nat => xml_item "1" "x" []) (seq 0 17)).

(** ** Notions used in the statements *)

(** The value a member node of declared type [ty] and text [text] is
    ingested as. *)
Definition parse_value (ty text : string) : Tree_Val_t :=
  _set_memberVal (std_string text) (Tree_Val_declared (_parse_strToType ty)).

(** The text holds no number where [strtol] looks for one: after the white
    space and an optional sign comes no digit. *)
Definition no_number (s : string) : bool :=
  match snd (split_sign (skip_space s)) with
  | String c _ => negb (isdigit c)
  | EmptyString => true
  end.

(** The character of a decimal digit, the text of a list of digits, and the
    number that the digits spell. *)
Definition digit_char (d : Z) : ascii := ascii_of_N (Z.to_N (48 + d)).

Fixpoint digits_text (ds : list Z) : string :=
  match ds with
  | [] => EmptyString
  | d :: r => String (digit_char d) (digits_text r)
  end.

Definition digits_value (ds : list Z) : Z :=
  fold_left (fun acc d => 10 * acc + d) ds 0.

(** The id that the packing scheme gives to the item at the end of a path of
    child positions: position [k] is sibling index [k + 1], the first step in
    the lowest nibble. *)
Fixpoint id_of_path (p : item_ptr) : Z :=
  match p with
  | [] => 0
  | k :: q => (Z.of_nat k + 1) + 16 * id_of_path q
  end.

(** The index attribute of an item node parses to [j]. *)
Definition has_index (n : xml_node) (j : Z) : bool :=
  match first_attribute (node_attributes n) C_strIndexTag with
  | Some v => to_uint32 (strtol v) =? j
  | None => false
  end.

Definition is_item (n : xml_node) : bool := String.eqb (node_name n) C_strItemTag.

Section ordered_siblings.
Variable below : xml_node → bool.

(** The item nodes of a sibling list carry the indices [j], [j + 1], ... in
    document order, and [below] holds of each. *)
Fixpoint ordered_siblings (l : list xml_node) (j : Z) : bool :=
  match l with
  | [] => true
  | c :: r =>
      if is_item c
      then has_index c j && below c && ordered_siblings r (j + 1)
      else ordered_siblings r j
  end.
End ordered_siblings.

(** A schema in which, below every node, the item nodes carry the indices
    1, 2, 3, ... in document order. *)
Fixpoint ordered_schema (n : xml_node) : bool :=
  match n with
  | XmlNode _ _ _ children => ordered_siblings ordered_schema children 1
  end.

Definition ordered_from (l : list xml_node) (j : Z) : bool :=
  ordered_siblings ordered_schema l j.

(** The indices of the item nodes in a sibling list. *)
Fixpoint sibling_indices (l : list xml_node) : list (option Z) :=
  match l with
  | [] => []
  | c :: r =>
      if is_item c
      then (match first_attribute (node_attributes c) C_strIndexTag with
            | Some v => Some (to_uint32 (strtol v))
            | None => None
            end) :: sibling_indices r
      else sibling_indices r
  end.

Definition legal_index (o : option Z) : bool :=
  match o with
  | Some i => (1 <=? i) && (i <=? 15)
  | None => false
  end.

(** The schema is legal as far as the builder visits it: among the children
    of the node, every item node has an index in 1..15 that no sibling item
    node shares, has a name, and is legal in turn.  The children of a node
    with another tag are not looked at. *)
Fixpoint legal_schema (n : xml_node) : bool :=
  match n with
  | XmlNode _ _ _ children =>
      forallb legal_index (sibling_indices children)
      && bool_decide (NoDup (sibling_indices children))
      && forallb (fun c => negb (is_item c)
                           || (bool_decide (is_Some (first_attribute (node_attributes c)
                                                        C_strNameTag))
                               && legal_schema c)) children
  end.

(** What a call of [_make_itemTree] at layer [l] can turn an item into:
    children are appended, each with the id packed from a legal index and
    built in turn one layer down.  With [ord] set, the index of each
    appended child is its position plus one. *)
Inductive built (ord : bool) : Z → Tree_Item_t → Tree_Item_t → Prop :=
| built_same (l : Z) (it : Tree_Item_t) : built ord l it it
| built_push (l : Z) (it mid : Tree_Item_t) (idx : Z) (nm : string) (c : Tree_Item_t) :
    built ord l it mid →
    l < C_nMaxLayer →
    1 ≤ idx ≤ C_nMaxItem →
    (ord = true → idx = Z.of_nat (length (v_childItem mid)) + 1) →
    built ord (l + 1) (mk_Tree_Item_t (child_id idx l (n_id mid)) nm [] []) c →
    built ord l it (push_child mid c).

(** What construction below a node does, as proved by induction on the
    node. *)
Definition builds_below (node : xml_node) : Prop :=
  ∀ ord it l r it',
    (ord = true → ordered_schema node = true ∧ v_childItem it = []) →
    _make_itemTree_at node it l = Returns (r, it') →
    built ord l it it'.

(** The schema part of an item tree: ids, names and children, without the
    members. *)
Fixpoint shape (it : Tree_Item_t) : Tree_Item_t :=
  match it with
  | mk_Tree_Item_t id nm _ childs => mk_Tree_Item_t id nm [] (map shape childs)
  end.

(** No item of the tree holds a member. *)
Definition no_members (root : Tree_Item_t) : Prop :=
  ∀ p it, item_at root p = Some it → l_member it = [].

(** The members of one item hold pairwise disjoint batch-index sets. *)
Definition members_disjoint (l : list Tree_Member_t) : Prop :=
  ∀ i j mi mj, l !! i = Some mi → l !! j = Some mj → i ≠ j →
               set_batchIndex mi ## set_batchIndex mj.

Definition tree_disjoint (root : Tree_Item_t) : Prop :=
  ∀ p it, item_at root p = Some it → members_disjoint (l_member it).

(** Every id fits 32 bits and every stored value is one that ingestion
    parsed. *)
Definition tree_parsed (root : Tree_Item_t) : Prop :=
  ∀ p it, item_at root p = Some it →
          0 ≤ n_id it < 2 ^ 32
          ∧ ∀ m, m ∈ l_member it → ∃ ty text, s_val m = parse_value ty text.

(** The member list of the item a pointer designates. *)
Definition members_at (root : Tree_Item_t) (p : item_ptr) : list Tree_Member_t :=
  match item_at root p with
  | Some it => l_member it
  | None => []
  end.

(** Some member that compares equal to [v] belongs to batch [b]. *)
Definition holds_value (v : Tree_Val_t) (b : Z) (l : list Tree_Member_t) : Prop :=
  ∃ k m, l !! k = Some m ∧ Tree_Val_eq (s_val m) v = Returns true
         ∧ b ∈ set_batchIndex m.

(** At most one member compares equal to [v]. *)
Definition one_holder (v : Tree_Val_t) (l : list Tree_Member_t) : Prop :=
  ∀ k k' m m', l !! k = Some m → l !! k' = Some m' →
               Tree_Val_eq (s_val m) v = Returns true →
               Tree_Val_eq (s_val m') v = Returns true → k = k'.

(** For the item that the name [nm] resolves to: at most one member compares
    equal to [v]; respectively, some member that compares equal to [v] belongs
    to batch [b]. *)
Definition holder_inv (nm : string) (v : Tree_Val_t) (root : Tree_Item_t) : Prop :=
  ∀ ptr it, _search_item_byName root nm = Some (ptr, it) → one_holder v (l_member it).

Definition holder_post (nm : string) (v : Tree_Val_t) (b : Z) (root : Tree_Item_t)
  : Prop :=
  ∃ ptr it, _search_item_byName root nm = Some (ptr, it)
            ∧ holds_value v b (l_member it).

(** A value that [operator==] finds equal to itself: every int and every
    string, and every double but NaN. *)
Definition comparable (ty text : string) : Prop :=
  _parse_strToType ty = VAL_Int ∨ _parse_strToType ty = VAL_String
  ∨ (_parse_strToType ty = VAL_Double ∧ strtod (std_string text) ≠ S754_nan).

(** A member node with the given name, declared type and text. *)
Definition member_node (n : xml_node) (nm ty text : string) : Prop :=
  first_attribute (node_attributes n) C_strNameTag = Some nm
  ∧ first_attribute (node_attributes n) C_strTypeTag = Some ty
  ∧ node_value n = text.

(** One successful round of [_push_memberVector] on a member node. *)
Inductive push_step (index_batch : Z) (node_member : xml_node) (root : Tree_Item_t)
  : Tree_Item_t → Prop :=
| push_step_intro (nm ty : string) (ptr : item_ptr) (member_item : Tree_Item_t)
    (iter : option nat) (out : Tree_Val_t) :
    0 < index_batch →
    first_attribute (node_attributes node_member) C_strNameTag = Some nm →
    _search_item_byName root nm = Some (ptr, member_item) →
    _get_memberVal member_item index_batch Tree_Val_fresh
      = Returns (ERR_UnregisteredIndex, out) →
    first_attribute (node_attributes node_member) C_strTypeTag = Some ty →
    find_if_member (l_member member_item) (parse_value ty (node_value node_member)) 0
      = Returns iter →
    push_step index_batch node_member root
      (set_members root ptr
         match iter with
         | None => l_member member_item
                   ++ [mk_Tree_Member_t (parse_value ty (node_value node_member))
                         {[index_batch]}]
         | Some k => alter (member_insert index_batch) k (l_member member_item)
         end).

(** Calls of [add_batch_fromXmlFile] in sequence, one per document: the
    return codes and the final tree. *)
Fixpoint add_batches (docs : list xml_node) (t : xmlTree) : outcome (list Z * xmlTree) :=
  match docs with
  | [] => Returns ([], t)
  | d :: rest =>
      '(ret, t1) ← add_batch_fromXmlFile (Some d) t;
      '(rets, t2) ← add_batches rest t1;
      Returns (ret :: rets, t2)
  end.

(** A round of [_push_memberVector] that returns an error code at once. *)
Ltac failed_round :=
  let H := fresh in
  intros H; inversion H; subst; left; split; [intros E; discriminate E | reflexivity].

(** ** Notions used in the further properties *)

(** The item-tagged nodes of a sibling list. *)
Definition item_nodes (l : list xml_node) : list xml_node :=
  filter (λ c, is_item c = true) l.

(** What the loop of [_make_itemTree] keeps true of its locals: the error
    codes are not negative, [ret] is not 0, and [cnt_legalItem] counts the
    indices in [index_set], which lie in 1..15. *)
Definition make_state_ok (st : make_state) : Prop :=
  0 < mk_ret st ∧ 0 ≤ mk_last_err st
  ∧ mk_cnt_legalItem st = Z.of_nat (size (mk_index_set st))
  ∧ (∀ x, x ∈ mk_index_set st → 1 ≤ x ≤ 15)
  ∧ mk_cnt_legalItem st ≤ mk_cnt_item st.

(** The item nodes of a sibling list are legal next to siblings that used
    the indices [used]. *)
Definition siblings_legal (l : list xml_node) (used : gset Z) : Prop :=
  forallb legal_index (sibling_indices l) = true
  ∧ NoDup (sibling_indices l)
  ∧ (∀ x, x ∈ used → Some x ∉ sibling_indices l)
  ∧ forallb (fun c => negb (is_item c)
                      || (bool_decide (is_Some (first_attribute (node_attributes c)
                                                  C_strNameTag))
                          && legal_schema c)) l = true.

(** Every item strictly below [it] lies less than 8 layers deep, when [it]
    is at layer [l]. *)
Definition shallow_below (l : Z) (it : Tree_Item_t) : Prop :=
  ∀ k c q x, v_childItem it !! k = Some c → item_at c q = Some x →
             l + 1 + Z.of_nat (length q) < C_nMaxLayer.

(** What a call of [_make_itemTree] on a node tells by its return code. *)
Definition success_below (node : xml_node) : Prop :=
  ∀ it l r it',
    _make_itemTree_at node it l = Returns (r, it') →
    0 ≤ r
    ∧ (r = 0 →
       l < C_nMaxLayer
       ∧ legal_schema node = true
       ∧ (l = 0 → item_nodes (node_children node) ≠ [])
       ∧ (v_childItem it = [] →
          ∀ p x, item_at it' p = Some x → l + Z.of_nat (length p) < C_nMaxLayer)).

(** ** Sequences of operations on a tree *)

Inductive tree_op : Type :=
| op_add_batch (doc : xml_node)
| op_delete_batch (n_batchIndex : Z).

(** Calls of [add_batch_fromXmlFile] and [delete_oneBatch] in sequence,
    whatever they return: the final tree. *)
Fixpoint run_ops (ops : list tree_op) (t : xmlTree) : outcome xmlTree :=
  match ops with
  | [] => Returns t
  | op_add_batch doc :: rest =>
      '(_, t1) ← add_batch_fromXmlFile (Some doc) t;
      run_ops rest t1
  | op_delete_batch b :: rest => run_ops rest (snd (delete_oneBatch b t))
  end.

(** A property of member lists holds at every item of the tree. *)
Definition each_item (P : list Tree_Member_t → Prop) (root : Tree_Item_t) : Prop :=
  ∀ p it, item_at root p = Some it → P (l_member it).

(** No member compares equal to a later one. *)
Definition members_distinct (l : list Tree_Member_t) : Prop :=
  ∀ i j mi mj, l !! i = Some mi → l !! j = Some mj → (i < j)%nat →
               Tree_Val_eq (s_val mi) (s_val mj) = Returns false.

(** Every member belongs to some batch. *)
Definition members_owned (l : list Tree_Member_t) : Prop :=
  ∀ m, m ∈ l → set_batchIndex m ≠ ∅.

(** A member without batch [b]. *)
Definition remove_batch (b : Z) (m : Tree_Member_t) : Tree_Member_t :=
  mk_Tree_Member_t (s_val m) (set_batchIndex m ∖ {[b]}).

(** Every stored value is one that ingestion parsed. *)
Definition members_parsed (l : list Tree_Member_t) : Prop :=
  ∀ m, m ∈ l → ∃ ty text, s_val m = parse_value ty text.

(** Ingest [demo_values], delete batch 2, ingest [same_values]. *)
Definition demo_ops : list tree_op :=
  [ op_add_batch demo_values; op_delete_batch 2; op_add_batch same_values ].

(** Some member of the list belongs to batch [b] and stores [v]. *)
Definition stores (l : list Tree_Member_t) (b : Z) (v : Tree_Val_t) : Prop :=
  ∃ x, x ∈ l ∧ b ∈ set_batchIndex x ∧ s_val x = v.

(** Some item of the tree below [it], [it] included, has the name [nm]. *)
Definition named_in (it : Tree_Item_t) (nm : string) : Prop :=
  ∃ p x, item_at it p = Some x ∧ str_name x = nm.

(** [v] is what [_get_memberVal] leaves in a fresh value when it looks batch
    [b] up at some item of name [nm]. *)
Definition read_in (it : Tree_Item_t) (b : Z) (nm : string) (v : Tree_Val_t) : Prop :=
  ∃ p x code, item_at it p = Some x ∧ str_name x = nm
              ∧ _get_memberVal x b Tree_Val_fresh = Returns (code, v).

(** The children of [it] carry ids in 1..15 that are recorded in [used] and
    that no two of them share. *)
Definition top_ids_distinct (it : Tree_Item_t) (used : gset Z) : Prop :=
  ∀ j c, v_childItem it !! j = Some c →
         1 ≤ n_id c ≤ 15 ∧ n_id c ∈ used
         ∧ ∀ j' c', v_childItem it !! j' = Some c' → n_id c' = n_id c → j' = j.

(** * Properties *)

(** ** Bit arithmetic on ids *)

Lemma lor_lt_pow2 (a b n : Z) :
  0 ≤ n → 0 ≤ a < 2 ^ n → 0 ≤ b < 2 ^ n → 0 ≤ Z.lor a b < 2 ^ n.
Proof.
  intros Hn Ha Hb.
  assert (H0 : 0 ≤ Z.lor a b) by (apply Z.lor_nonneg; lia).
  split; [exact H0|].
  destruct (Z.eq_dec (Z.lor a b) 0) as [->|Hne]; [lia|].
  assert (Hpos : 0 < n).
  { destruct (Z.eq_dec n 0) as [->|]; [|lia].
    exfalso. assert (a = 0) as -> by lia. assert (b = 0) as -> by lia.
    apply Hne. reflexivity. }
  assert (Hlog : ∀ x, 0 ≤ x < 2 ^ n → Z.log2 x < n).
  { intros x Hx. destruct (Z.eq_dec x 0) as [->|]; [simpl; lia|].
    apply Z.log2_lt_pow2; lia. }
  apply Z.log2_lt_pow2; [lia|].
  rewrite Z.log2_lor by lia.
  apply Z.max_lub_lt; apply Hlog; assumption.
Qed.

Lemma to_uint32_range (z : Z) : 0 ≤ to_uint32 z < 2 ^ 32.
Proof. unfold to_uint32, UINT32_MOD. apply Z.mod_pos_bound. lia. Qed.

Lemma child_id_range (item_index n_layer parent_id : Z) :
  0 ≤ parent_id < 2 ^ 32 → 0 ≤ child_id item_index n_layer parent_id < 2 ^ 32.
Proof.
  intros Hp. unfold child_id.
  apply lor_lt_pow2; [lia | apply to_uint32_range | exact Hp].
Qed.

(** With fuel for every nibble the loop of [_get_parentId] runs to the end,
    and it ends with [id_child = 0]. *)
Lemma _get_parentId_loop_zero (fuel : nat) (id_child cror : Z) :
  0 ≤ id_child < 16 ^ Z.of_nat fuel →
  ∃ cror', _get_parentId_loop fuel id_child cror = Returns (0, cror').
Proof.
  revert id_child cror. induction fuel as [|fuel IH]; intros id_child cror Hr.
  - assert (id_child = 0) as -> by (simpl in Hr; lia). simpl. eauto.
  - cbn [_get_parentId_loop].
    destruct (Z.eqb_spec id_child 0) as [->|Hne]; [eauto|].
    apply IH. unfold C_nCrorNum. rewrite Z.shiftr_div_pow2 by lia.
    change (2 ^ 4) with 16.
    rewrite Nat2Z.inj_succ, Z.pow_succ_r in Hr by lia.
    split; [apply Z.div_pos; lia|].
    apply Z.div_lt_upper_bound; lia.
Qed.

Lemma _get_parentId_zero (id_child : Z) :
  0 ≤ id_child < 2 ^ 32 → _get_parentId id_child = Returns 0.
Proof.
  intros Hr. unfold _get_parentId.
  destruct (Z.eqb_spec id_child 0) as [->|Hne]; [reflexivity|]. cbn [negb].
  destruct (_get_parentId_loop_zero NIBBLES id_child 0) as [c Hc].
  { unfold NIBBLES. change (16 ^ Z.of_nat 8) with (2 ^ 32). exact Hr. }
  rewrite Hc. cbn. reflexivity.
Qed.

(** The decoding loop of [_search_item_byId] has fuel for every nibble of a
    32-bit id. *)
Lemma _search_item_byId_loop_fuel (fuel : nat) (n_id0 : Z) (temp_item : Tree_Item_t)
  (ptr : item_ptr) (temp_id : Z) :
  0 ≤ temp_id < 16 ^ Z.of_nat fuel →
  _search_item_byId_loop fuel n_id0 temp_item ptr temp_id ≠ OutOfFuel.
Proof.
  revert temp_item ptr temp_id.
  induction fuel as [|fuel IH]; intros temp_item ptr temp_id Hr.
  - assert (temp_id = 0) as -> by (simpl in Hr; lia). discriminate.
  - cbn [_search_item_byId_loop].
    destruct (temp_id =? 0) eqn:Hz; [discriminate|]. apply Z.eqb_neq in Hz.
    destruct (_ || _); [discriminate|].
    destruct (v_childItem temp_item !! _) as [child|]; [|discriminate].
    destruct (n_id child =? n_id0); [discriminate|].
    apply IH. unfold C_nCrorNum. rewrite Z.shiftr_div_pow2 by lia.
    change (2 ^ 4) with 16.
    rewrite Nat2Z.inj_succ, Z.pow_succ_r in Hr by lia.
    split; [apply Z.div_pos; lia|].
    apply Z.div_lt_upper_bound; lia.
Qed.

Lemma _search_item_byId_fuel (root : Tree_Item_t) (n_id0 : Z) :
  0 ≤ n_id0 < 2 ^ 32 → _search_item_byId root n_id0 ≠ OutOfFuel.
Proof.
  intros Hr. unfold _search_item_byId.
  destruct (n_id0 =? 0); [discriminate|].
  apply _search_item_byId_loop_fuel. exact Hr.
Qed.

(** ** C1: the parent decoder *)

(** C1 (the code departs from the claim).  [_get_parentId] shifts its own
    argument down to zero before masking it, so on every id that the packing
    scheme produces, whatever the layer and the parent, it returns 0 and not
    the parent id. *)
Theorem C1_get_parentId_of_child_id (item_index n_layer parent_id : Z) :
  0 ≤ parent_id < 2 ^ 32 →
  _get_parentId (child_id item_index n_layer parent_id) = Returns 0.
Proof.
  intros Hp. apply _get_parentId_zero, child_id_range, Hp.
Qed.

(** The id 0x21 (sibling 2 at layer 1 under the top-level item 0x1) decodes
    to parent 0, although its parent is 0x1. *)
Lemma C1_get_parentId_of_child_id_witness :
  0 ≤ 1 < 2 ^ 32 ∧ child_id 2 1 1 = 33 ∧ _get_parentId 33 = Returns 0.
Proof.
  split; [lia|]. split; [reflexivity|].
  exact (C1_get_parentId_of_child_id 2 1 1 ltac:(lia)).
Defined.

(** ** C9: value equality *)

(** C9 (the code departs from the claim).  On two values whose tags agree
    and are [VAL_None] (or the out-of-range tag [VAL_NUM] that an unknown type
    name parses to), [operator==] leaves the switch through [default: break]
    and returns nothing: the comparison has no defined result. *)
Theorem C9_eq_untyped_tags_undefined (a b : Tree_Val_t) :
  e_type a = e_type b →
  e_type a = VAL_None ∨ e_type a = VAL_NUM →
  Tree_Val_eq a b = Undefined.
Proof.
  intros Hab Ht. unfold Tree_Val_eq.
  destruct (decide (e_type a = e_type b)) as [_|Hne]; [|contradiction].
  destruct Ht as [-> | ->]; reflexivity.
Qed.

(** The empty type name parses to [VAL_None]; two such values do not compare. *)
Lemma C9_eq_untyped_tags_undefined_witness :
  let v := _set_memberVal EmptyString (Tree_Val_declared (_parse_strToType EmptyString)) in
  e_type v = VAL_None ∧ Tree_Val_eq v v = Undefined.
Proof.
  split; [reflexivity|].
  apply C9_eq_untyped_tags_undefined; [reflexivity | left; reflexivity].
Defined.

(** Ingestion reaches that comparison: the second of two members with an
    unknown type name for the same item. *)
Example unknown_type_twice_is_undefined :
  add_batch_fromXmlFile
    (Some (xml_root [ xml_batch "1" [ xml_member "student" "bool" "1" ];
                      xml_batch "2" [ xml_member "student" "bool" "1" ] ]))
    (mk_xmlTree demo_tree ∅) = Undefined.
Proof. vm_compute. reflexivity. Qed.

(** ** C5: an item node without a name *)

(** C5 (the code departs from the claim).  When the first item node below a
    node has a legal index and no name attribute, [_make_itemTree] calls
    [value()] through the null pointer that [first_attribute] returned: it
    does not return [ERR_NoXmlAttr], it does not return at all. *)
Theorem C5_nameless_item_dereferences_null
  (nm : string) (attrs : list (string * string)) (val : string)
  (cattrs : list (string * string)) (cval : string) (cchildren rest : list xml_node)
  (v : string) (item_parent : Tree_Item_t) (n_layer : Z) :
  n_layer < C_nMaxLayer →
  first_attribute cattrs C_strIndexTag = Some v →
  1 ≤ to_uint32 (strtol v) ≤ C_nMaxItem →
  first_attribute cattrs C_strNameTag = None →
  _make_itemTree
    (Some (XmlNode nm attrs val (XmlNode C_strItemTag cattrs cval cchildren :: rest)))
    item_parent n_layer = Undefined.
Proof.
  intros Hl Hidx Hrange Hname.
  unfold _make_itemTree. cbn [_make_itemTree_at].
  destruct (Z.ltb_spec n_layer C_nMaxLayer) as [_|]; [|lia].
  rewrite bool_decide_eq_false_2 by discriminate. cbn [andb].
  cbn [_make_itemTree_loop node_name node_attributes mk_cnt_item].
  change (negb (C_strItemTag =? C_strItemTag)%string) with false. cbn iota.
  change (0 >? C_nMaxItem) with false. cbn iota.
  rewrite Hidx. cbn zeta.
  match goal with
  | |- context [negb ?a && ?b && ?c] => assert (Hleg : negb a && b && c = true)
  end.
  { apply andb_true_intro; split; [apply andb_true_intro; split|].
    - apply negb_true_iff, Z.eqb_neq. lia.
    - apply Z.leb_le. lia.
    - apply bool_decide_eq_true_2. cbn. set_solver. }
  rewrite Hleg, Hname. reflexivity.
Qed.

Lemma C5_nameless_item_dereferences_null_witness :
  build_tree_fromXmlFile (Some nameless_schema) xmlTree_new = Undefined.
Proof.
  unfold build_tree_fromXmlFile, nameless_schema, xml_root.
  rewrite (C5_nameless_item_dereferences_null "Root" [] EmptyString [("index", "1")]%string
             EmptyString [] [] "1" (s_rootItem xmlTree_new) 0);
    [reflexivity | reflexivity | reflexivity | vm_compute; split; discriminate | reflexivity].
Defined.

(** ** C4: a member that names no item *)

Lemma xmlTree_eta (t : xmlTree) : mk_xmlTree (s_rootItem t) (tree_batchIndex t) = t.
Proof. destruct t; reflexivity. Qed.

(** C4 (the code departs from the claim).  For a member node that names no
    item of the schema, [_push_memberVector] does return [ERR_IllegalId], and
    the batch index is not recorded; but [add_batch_fromXmlFile] stores the
    truth value of the comparison with [ERR_None] instead of the code, and
    returns 1 (the value of [ERR_OverLayer]). *)
Theorem C4_unknown_item_reported_as_1
  (t : xmlTree) (rname : string) (rattrs : list (string * string)) (rval : string)
  (battrs : list (string * string)) (bval : string)
  (member : xml_node) (members batches : list xml_node) (nm : string) :
  let batch := XmlNode C_strBatchTag battrs bval (member :: members) in
  0 < _get_batchIndex batch →
  first_attribute (node_attributes member) C_strNameTag = Some nm →
  _search_item_byName (s_rootItem t) nm = None →
  _push_memberVector (node_children batch) (_get_batchIndex batch) (s_rootItem t)
    = Returns (ERR_IllegalId, s_rootItem t)
  ∧ add_batch_fromXmlFile (Some (XmlNode rname rattrs rval (batch :: batches))) t
    = Returns (1, t).
Proof.
  intros batch Hidx Hname Hfind.
  assert (Hpush : _push_memberVector (node_children batch) (_get_batchIndex batch)
                    (s_rootItem t) = Returns (ERR_IllegalId, s_rootItem t)).
  { cbn [batch node_children _push_memberVector].
    destruct (Z.gtb_spec (_get_batchIndex batch) 0) as [_|]; [|lia].
    fold batch. rewrite Hname, Hfind. reflexivity. }
  split; [exact Hpush|].
  unfold add_batch_fromXmlFile. cbn [node_children add_batch_loop].
  change (negb (node_name batch =? C_strBatchTag)%string) with false. cbn iota.
  rewrite Hpush. cbn. rewrite xmlTree_eta. reflexivity.
Qed.

Lemma C4_unknown_item_reported_as_1_witness :
  add_batch_fromXmlFile
    (Some (xml_root [ xml_batch "1" [ xml_member "nobody" "int" "1" ] ]))
    (mk_xmlTree demo_tree ∅)
  = Returns (ERR_OverLayer, mk_xmlTree demo_tree ∅).
Proof.
  refine (proj2 (C4_unknown_item_reported_as_1 (mk_xmlTree demo_tree ∅) "Root" [] EmptyString
                   [("index", "1")]%string EmptyString (xml_member "nobody" "int" "1") [] []
                   "nobody" _ _ _)).
  - vm_compute. reflexivity.
  - reflexivity.
  - reflexivity.
Defined.

(** ** C8: deleting a batch *)

(** C8.  [delete_oneBatch] returns [ERR_UnregisteredIndex] exactly when the
    index is not in the known-batch set, and then the tree is untouched;
    otherwise it returns 0 and the index leaves the set. *)
Theorem C8_delete_oneBatch_result (n_batchIndex : Z) (t : xmlTree) :
  (fst (delete_oneBatch n_batchIndex t) = ERR_UnregisteredIndex
     ↔ n_batchIndex ∉ tree_batchIndex t)
  ∧ (n_batchIndex ∉ tree_batchIndex t → snd (delete_oneBatch n_batchIndex t) = t)
  ∧ (n_batchIndex ∈ tree_batchIndex t →
       fst (delete_oneBatch n_batchIndex t) = ERR_None
       ∧ tree_batchIndex (snd (delete_oneBatch n_batchIndex t))
         = tree_batchIndex t ∖ {[n_batchIndex]}
       ∧ n_batchIndex ∉ tree_batchIndex (snd (delete_oneBatch n_batchIndex t))).
Proof.
  unfold delete_oneBatch.
  destruct (decide (n_batchIndex ∈ tree_batchIndex t)) as [Hin|Hout].
  - rewrite bool_decide_eq_true_2 by exact Hin. cbn.
    split; [split; [discriminate | contradiction]|].
    split; [contradiction|]. intros _. split; [reflexivity|].
    split; [reflexivity | set_solver].
  - rewrite bool_decide_eq_false_2 by exact Hout. cbn.
    split; [split; [intros _; exact Hout | reflexivity]|].
    split; [reflexivity | contradiction].
Qed.

Lemma C8_delete_oneBatch_result_witness :
  fst (delete_oneBatch 2 (mk_xmlTree demo_tree {[1]})) = ERR_UnregisteredIndex
  ∧ snd (delete_oneBatch 2 (mk_xmlTree demo_tree {[1]})) = mk_xmlTree demo_tree {[1]}.
Proof.
  pose proof (C8_delete_oneBatch_result 2 (mk_xmlTree demo_tree {[1]})) as (Hret & Hsame & _).
  assert (Hout : 2 ∉ tree_batchIndex (mk_xmlTree demo_tree {[1]})) by (cbn; set_solver).
  split; [apply Hret, Hout | apply Hsame, Hout].
Defined.

(** ** C10: a batch without members *)

Lemma strtol_no_number (s : string) : no_number s = true → strtol s = 0.
Proof.
  unfold no_number, strtol.
  destruct (split_sign (skip_space s)) as [neg s2]. cbn [snd].
  destruct s2 as [|c r]; cbn [strtol_digits].
  - intros _. destruct neg; reflexivity.
  - intros H. apply negb_true_iff in H. rewrite H. destruct neg; reflexivity.
Qed.

Lemma digit_char_code (d : Z) : 0 ≤ d ≤ 9 → char_code (digit_char d) = 48 + d.
Proof.
  intros Hd.
  assert (H : d = 0 ∨ d = 1 ∨ d = 2 ∨ d = 3 ∨ d = 4 ∨ d = 5 ∨ d = 6 ∨ d = 7
              ∨ d = 8 ∨ d = 9) by lia.
  repeat (destruct H as [->|H]; [reflexivity|]). subst d. reflexivity.
Qed.

Lemma isdigit_digit_char (d : Z) : 0 ≤ d ≤ 9 → isdigit (digit_char d) = true.
Proof.
  intros Hd. unfold isdigit. rewrite (digit_char_code d Hd).
  apply andb_true_iff. split; apply Z.leb_le; lia.
Qed.

Lemma strtol_digits_text (ds : list Z) (acc : Z) :
  Forall (λ d, 0 ≤ d ≤ 9) ds →
  strtol_digits (digits_text ds) acc = fold_left (fun acc d => 10 * acc + d) ds acc.
Proof.
  intros H. revert acc. induction H as [|d ds Hd _ IH]; intros acc; [reflexivity|].
  cbn [digits_text strtol_digits fold_left].
  rewrite (isdigit_digit_char d Hd), (digit_char_code d Hd), IH. f_equal. lia.
Qed.

Lemma fold_digits_nonneg (ds : list Z) (acc : Z) :
  Forall (λ d, 0 ≤ d ≤ 9) ds → 0 ≤ acc →
  0 ≤ fold_left (fun acc d => 10 * acc + d) ds acc.
Proof.
  intros H. revert acc. induction H as [|d ds Hd _ IH]; intros acc Hacc; [exact Hacc|].
  cbn [fold_left]. apply IH. lia.
Qed.

(** [strtol] reads a text of decimal digits as the number they spell, up to
    [LONG_MAX]. *)
Lemma strtol_digits_value (ds : list Z) :
  Forall (λ d, 0 ≤ d ≤ 9) ds → digits_value ds ≤ LONG_MAX →
  strtol (digits_text ds) = digits_value ds.
Proof.
  intros Hds Hmax. pose proof (fold_digits_nonneg ds 0 Hds ltac:(lia)) as Hpos.
  fold (digits_value ds) in Hpos.
  assert (Hhead : skip_space (digits_text ds) = digits_text ds
                  ∧ split_sign (digits_text ds) = (false, digits_text ds)).
  { destruct Hds as [|d ds Hd _]; [done|]. cbn [digits_text skip_space split_sign].
    assert (H : d = 0 ∨ d = 1 ∨ d = 2 ∨ d = 3 ∨ d = 4 ∨ d = 5 ∨ d = 6 ∨ d = 7
                ∨ d = 8 ∨ d = 9) by lia.
    repeat (destruct H as [->|H]; [done|]). subst d. done. }
  destruct Hhead as [Hsp Hsg]. unfold strtol. rewrite Hsp, Hsg.
  rewrite (strtol_digits_text ds 0 Hds). fold (digits_value ds).
  unfold LONG_MIN, LONG_MAX in *. lia.
Qed.

(** C10.  A batch node without children is ingested successfully whatever
    its index: [_push_memberVector] returns [ERR_None] on the null member
    before any check, the index is recorded and the loop goes on.  The index
    recorded is what [strtol] reads in the index attribute, as a 32-bit
    unsigned: for a text of decimal digits below 2^32, the number they
    spell.  A batch node without index attribute, or with one that holds no
    number, has index 0; so 0 enters the known-batch set, although a batch
    with index 0 and at least one member is refused with
    [ERR_IllegalIndex]. *)
Theorem C10_empty_batch_is_recorded
  (t : xmlTree) (rname : string) (rattrs : list (string * string)) (rval : string)
  (battrs : list (string * string)) (bval : string) (rest : list xml_node) :
  let batch := XmlNode C_strBatchTag battrs bval [] in
  add_batch_fromXmlFile (Some (XmlNode rname rattrs rval (batch :: rest))) t
  = add_batch_loop rest
      (mk_xmlTree (s_rootItem t) ({[_get_batchIndex batch]} ∪ tree_batchIndex t))
  ∧ add_batch_fromXmlFile (Some (XmlNode rname rattrs rval [batch])) t
    = Returns (ERR_None,
               mk_xmlTree (s_rootItem t) ({[_get_batchIndex batch]} ∪ tree_batchIndex t))
  ∧ (∀ v, first_attribute battrs C_strIndexTag = Some v →
          _get_batchIndex batch = to_uint32 (strtol v))
  ∧ (∀ ds, Forall (λ d, 0 ≤ d ≤ 9) ds → digits_value ds < 2 ^ 32 →
           first_attribute battrs C_strIndexTag = Some (digits_text ds) →
           _get_batchIndex batch = digits_value ds
           ∧ add_batch_fromXmlFile (Some (XmlNode rname rattrs rval [batch])) t
             = Returns (ERR_None,
                        mk_xmlTree (s_rootItem t)
                          ({[digits_value ds]} ∪ tree_batchIndex t)))
  ∧ (first_attribute battrs C_strIndexTag = None → _get_batchIndex batch = 0)
  ∧ (∀ v, first_attribute battrs C_strIndexTag = Some v → no_number v = true →
          _get_batchIndex batch = 0)
  ∧ (∃ t', add_batch_fromXmlFile (Some (xml_root [XmlNode C_strBatchTag [] bval []]))
             xmlTree_new = Returns (ERR_None, t')
           ∧ 0 ∈ tree_batchIndex t')
  ∧ (∀ (member : xml_node) (members : list xml_node) (root : Tree_Item_t),
       _push_memberVector (member :: members) 0 root = Returns (ERR_IllegalIndex, root)).
Proof.
  intros batch.
  assert (Hloop : ∀ l, add_batch_fromXmlFile (Some (XmlNode rname rattrs rval (batch :: l))) t
                       = add_batch_loop l
                           (mk_xmlTree (s_rootItem t)
                              ({[_get_batchIndex batch]} ∪ tree_batchIndex t))).
  { intros l. unfold add_batch_fromXmlFile. cbn [node_children add_batch_loop].
    change (negb (node_name batch =? C_strBatchTag)%string) with false.
    reflexivity. }
  assert (Hdec : ∀ ds, Forall (λ d, 0 ≤ d ≤ 9) ds → digits_value ds < 2 ^ 32 →
                       first_attribute battrs C_strIndexTag = Some (digits_text ds) →
                       _get_batchIndex batch = digits_value ds).
  { intros ds Hds Hlt Hv. unfold _get_batchIndex, batch. cbn [node_attributes].
    pose proof (fold_digits_nonneg ds 0 Hds ltac:(lia)) as Hpos.
    fold (digits_value ds) in Hpos.
    rewrite Hv, (strtol_digits_value ds Hds) by (unfold LONG_MAX; lia).
    unfold to_uint32, UINT32_MOD. apply Z.mod_small. lia. }
  split; [apply Hloop|]. split; [rewrite Hloop; reflexivity|].
  split; [|split; [|split; [|split; [|split]]]].
  - intros v Hv. unfold _get_batchIndex, batch. cbn [node_attributes].
    rewrite Hv. reflexivity.
  - intros ds Hds Hlt Hv. split; [exact (Hdec ds Hds Hlt Hv)|].
    rewrite Hloop, (Hdec ds Hds Hlt Hv). reflexivity.
  - intros Hnone. unfold _get_batchIndex, batch. cbn [node_attributes].
    rewrite Hnone. reflexivity.
  - intros v Hv Hno. unfold _get_batchIndex, batch. cbn [node_attributes].
    rewrite Hv, (strtol_no_number v Hno). reflexivity.
  - eexists. split; [reflexivity|]. cbn. set_solver.
  - intros member members root. reflexivity.
Qed.

(** A batch node without children whose index attribute reads "5" puts 5 into
    the known-batch set; one whose index attribute reads "none" puts 0. *)
Lemma C10_empty_batch_is_recorded_witness :
  add_batch_fromXmlFile (Some (xml_root [xml_batch "5" []])) xmlTree_new
  = Returns (ERR_None, mk_xmlTree (s_rootItem xmlTree_new) ({[5]} ∪ ∅))
  ∧ ∃ t', add_batch_fromXmlFile (Some (xml_root [xml_batch "none" []])) xmlTree_new
          = Returns (ERR_None, t')
          ∧ _get_batchIndex (xml_batch "none" []) = 0
          ∧ 0 ∈ tree_batchIndex t'.
Proof.
  split.
  - pose proof (C10_empty_batch_is_recorded xmlTree_new "Root" [] EmptyString
                  [("index", "5")]%string EmptyString [])
      as (_ & _ & _ & Hdec & _).
    refine (proj2 (Hdec [5] _ _ eq_refl)).
    + repeat constructor; lia.
    + vm_compute. reflexivity.
  - pose proof (C10_empty_batch_is_recorded xmlTree_new "Root" [] EmptyString
                  [("index", "none")]%string EmptyString [])
      as (_ & Hrun & _ & _ & _ & Hzero & _).
    eexists. split; [exact Hrun|].
    assert (H0 : _get_batchIndex (xml_batch "none" []) = 0)
      by (apply (Hzero "none"); reflexivity).
    split; [exact H0|]. cbn [tree_batchIndex].
    change (XmlNode C_strBatchTag [("index", "none")]%string EmptyString [])
      with (xml_batch "none" []).
    rewrite H0. apply elem_of_union_l, elem_of_singleton. reflexivity.
Defined.

(** ** C2: what deletion removes *)

(** Once [is_delete] is set, every later member is erased from the list. *)
Lemma _delete_members_loop_after_delete (members : list Tree_Member_t) (b : Z) :
  _delete_members_loop members b true = [].
Proof.
  induction members as [|m rest IH]; [reflexivity|].
  cbn [_delete_members_loop].
  destruct (bool_decide (b ∈ set_batchIndex m)).
  - destruct (bool_decide (size (set_batchIndex m ∖ {[b]}) = 0%nat)); exact IH.
  - exact IH.
Qed.

(** C2 (the code departs from the claim).  [is_delete] is never cleared, so
    when the first member of an item belongs to batch [b] alone, deleting
    [b] erases every member of that item, also those that belong to other
    batches and keep a non-empty index set. *)
Theorem C2_delete_erases_later_members
  (id : Z) (nm : string) (member : Tree_Member_t) (members : list Tree_Member_t)
  (childs : list Tree_Item_t) (b : Z) :
  set_batchIndex member = {[b]} →
  l_member (_delete_membersOfBatch (mk_Tree_Item_t id nm (member :: members) childs) b)
  = [].
Proof.
  intros Hset. cbn [_delete_membersOfBatch l_member _delete_members_loop].
  rewrite Hset.
  rewrite bool_decide_eq_true_2 by set_solver.
  rewrite bool_decide_eq_true_2.
  - apply _delete_members_loop_after_delete.
  - apply size_empty_iff. set_solver.
Qed.

(** "Bob" belongs to batch 2 and "Amy" to batch 1; deleting batch 2 also
    erases "Amy". *)
Lemma C2_delete_erases_later_members_witness :
  set_batchIndex member_bob = {[2]}
  ∧ 1 ∈ set_batchIndex member_amy
  ∧ l_member (_delete_membersOfBatch
                (mk_Tree_Item_t 1 "student" [member_bob; member_amy] []) 2) = [].
Proof.
  split; [reflexivity|]. split; [cbn; set_solver|].
  exact (C2_delete_erases_later_members 1 "student" member_bob [member_amy] [] 2
           eq_refl).
Defined.

(** The same through the public operations: after the schema is built and
    the two batches are ingested, deleting batch 2 succeeds, batch 1 is
    still known, and the item has lost the value of batch 1. *)
Example delete_batch_2_loses_batch_1 :
  ∃ t1 t2 t3,
    build_tree_fromXmlFile (Some demo_schema) xmlTree_new = Returns (ERR_None, t1)
    ∧ add_batch_fromXmlFile (Some demo_values) t1 = Returns (ERR_None, t2)
    ∧ item_at (s_rootItem t2) [0%nat] = Some (demo_student [member_bob; member_amy])
    ∧ delete_oneBatch 2 t2 = (0, t3)
    ∧ tree_batchIndex t3 = {[1]}
    ∧ item_at (s_rootItem t3) [0%nat] = Some (demo_student [])
    ∧ _get_memberVal (demo_student []) 1 Tree_Val_fresh
      = Returns (ERR_UnregisteredIndex, Tree_Val_fresh).
Proof.
  do 3 eexists.
  split; [vm_compute; reflexivity|].
  split; [vm_compute; reflexivity|].
  split; [vm_compute; reflexivity|].
  split; [vm_compute; reflexivity|].
  split; [vm_compute; reflexivity|].
  split; vm_compute; reflexivity.
Qed.

(** ** Induction over nodes and items *)

Lemma xml_node_ind (P : xml_node → Prop) :
  (∀ nm attrs val children, Forall P children → P (XmlNode nm attrs val children)) →
  ∀ n, P n.
Proof.
  intros H. fix IH 1. intros [nm attrs val children]. apply H.
  induction children as [|c cs IHcs]; constructor; [apply IH | exact IHcs].
Qed.

Lemma Tree_Item_t_ind (P : Tree_Item_t → Prop) :
  (∀ id nm members childs, Forall P childs → P (mk_Tree_Item_t id nm members childs)) →
  ∀ it, P it.
Proof.
  intros H. fix IH 1. intros [id nm members childs]. apply H.
  induction childs as [|c cs IHcs]; constructor; [apply IH | exact IHcs].
Qed.

(** ** Pointers into the tree *)

Lemma item_at_app (root cur : Tree_Item_t) (pre q : item_ptr) :
  item_at root pre = Some cur → item_at root (pre ++ q) = item_at cur q.
Proof.
  revert root. induction pre as [|k pre IH]; intros root H; cbn in *.
  - congruence.
  - destruct (v_childItem root !! k) as [c|]; [apply IH, H | discriminate].
Qed.

Lemma set_members_n_id (root : Tree_Item_t) (p : item_ptr) (l : list Tree_Member_t) :
  n_id (set_members root p l) = n_id root.
Proof. destruct p; reflexivity. Qed.

(** After the member list at [p] is written, the item at [q] is the old one,
    with the new list if [q = p]. *)
Lemma item_at_set_members (root : Tree_Item_t) (p q : item_ptr)
  (l : list Tree_Member_t) (it' : Tree_Item_t) :
  item_at (set_members root p l) q = Some it' →
  ∃ it, item_at root q = Some it ∧ n_id it' = n_id it
        ∧ l_member it' = (if decide (q = p) then l else l_member it).
Proof.
  revert root q. induction p as [|k p IH]; intros root q H.
  - destruct q as [|j q]; cbn in H.
    + inversion H; subst. exists root. destruct (decide _); [|contradiction]. by destruct root.
    + exists it'. destruct (decide _); [discriminate|]. by destruct root.
  - destruct q as [|j q]; cbn in H.
    + inversion H; subst. exists root. destruct (decide _); [discriminate|]. by destruct root.
    + cbn [item_at].
      destruct (decide (j = k)) as [->|Hjk].
      * rewrite list_lookup_alter_eq in H.
        destruct (v_childItem root !! k) as [c|] eqn:Hc; [|discriminate]. cbn in H.
        destruct (IH c q H) as (it & Hit & Hid & Hl). exists it.
        repeat split; [exact Hit | exact Hid |].
        rewrite Hl. destruct (decide (q = p)) as [->|Hn].
        -- rewrite !decide_True by reflexivity. reflexivity.
        -- rewrite !decide_False by congruence. reflexivity.
      * rewrite list_lookup_alter_ne in H by congruence.
        destruct (v_childItem root !! j) as [c|] eqn:Hc; [|discriminate].
        exists it'. destruct (decide _); [congruence|]. done.
Qed.

Lemma item_at_set_members_same (root it : Tree_Item_t) (p : item_ptr)
  (l : list Tree_Member_t) :
  item_at root p = Some it →
  ∃ it', item_at (set_members root p l) p = Some it' ∧ l_member it' = l.
Proof.
  revert root. induction p as [|k p IH]; intros root H; cbn in *.
  - eexists. split; reflexivity.
  - destruct (v_childItem root !! k) as [c|] eqn:Hc; [|discriminate].
    rewrite list_lookup_alter_eq, Hc. cbn. apply IH, H.
Qed.

Lemma members_at_set_members (root : Tree_Item_t) (p q : item_ptr)
  (l : list Tree_Member_t) (it : Tree_Item_t) :
  item_at root p = Some it →
  members_at (set_members root p l) q = if decide (q = p) then l else members_at root q.
Proof.
  intros Hp. unfold members_at.
  destruct (decide (q = p)) as [->|Hne].
  - destruct (item_at_set_members_same root it p l Hp) as (it' & -> & Hl). exact Hl.
  - destruct (item_at (set_members root p l) q) as [it'|] eqn:H.
    + destruct (item_at_set_members _ _ _ _ _ H) as (it0 & -> & _ & Hl).
      rewrite Hl. destruct (decide _); [contradiction|reflexivity].
    + destruct (item_at root q) as [it0|] eqn:H0; [|reflexivity].
      exfalso. revert root q Hp Hne H H0. clear. induction p as [|k p IH]; intros root q Hp Hne H H0.
      * destruct q as [|j q]; [contradiction|]. cbn in *. rewrite H0 in H. discriminate.
      * destruct q as [|j q]; cbn in *; [discriminate|].
        destruct (decide (j = k)) as [->|Hjk].
        -- rewrite list_lookup_alter_eq in H.
           destruct (v_childItem root !! k) as [c|] eqn:Hc; [|discriminate]. cbn in H.
           apply (IH c q); [exact Hp | congruence | exact H | exact H0].
        -- rewrite list_lookup_alter_ne in H by congruence. rewrite H0 in H. discriminate.
Qed.

(** ** The schema part is what the name search reads *)

Lemma shape_set_members (root : Tree_Item_t) (p : item_ptr) (l : list Tree_Member_t) :
  shape (set_members root p l) = shape root.
Proof.
  revert root. induction p as [|k p IH]; intros [id nm ms cs]; cbn.
  - reflexivity.
  - f_equal. revert k. induction cs as [|c cs IHcs]; intros [|k]; cbn; try reflexivity.
    + by rewrite IH.
    + f_equal. apply IHcs.
Qed.

Lemma str_name_shape (it : Tree_Item_t) : str_name (shape it) = str_name it.
Proof. by destruct it. Qed.

Lemma _search_item_byName_shape (it : Tree_Item_t) (nm : string) :
  fst <$> _search_item_byName (shape it) nm = fst <$> _search_item_byName it nm.
Proof.
  induction it as [id name ms cs IH] using Tree_Item_t_ind. cbn.
  generalize 0%nat. induction IH as [|c cs Hc _ IHcs]; intros k; cbn; [reflexivity|].
  rewrite str_name_shape.
  destruct (strcmp (str_name c) nm =? 0); [reflexivity|].
  destruct (_search_item_byName (shape c) nm) as [[p1 i1]|],
           (_search_item_byName c nm) as [[p2 i2]|]; cbn in *; try discriminate.
  - congruence.
  - apply IHcs.
Qed.

Lemma _search_item_byName_set_members (root : Tree_Item_t) (p : item_ptr)
  (l : list Tree_Member_t) (nm : string) :
  fst <$> _search_item_byName (set_members root p l) nm
  = fst <$> _search_item_byName root nm.
Proof.
  rewrite <- _search_item_byName_shape, shape_set_members.
  apply _search_item_byName_shape.
Qed.

(** The search returns a pointer together with the item it designates. *)
Lemma _search_item_byName_item_at (root : Tree_Item_t) (nm : string)
  (ptr : item_ptr) (it : Tree_Item_t) :
  _search_item_byName root nm = Some (ptr, it) → item_at root ptr = Some it.
Proof.
  revert ptr it.
  induction root as [id name ms cs IH] using Tree_Item_t_ind. intros ptr it. cbn.
  assert (Hgen : ∀ k,
    _search_item_byName_loop _search_item_byName nm cs k = Some (ptr, it) →
    ∃ j q c, ptr = (k + j)%nat :: q ∧ cs !! j = Some c ∧ item_at c q = Some it).
  { induction IH as [|c cs Hc _ IHcs]; intros k H; cbn in H; [discriminate|].
    destruct (strcmp (str_name c) nm =? 0).
    - inversion H; subst. exists 0%nat, [], it. rewrite Nat.add_0_r. done.
    - destruct (_search_item_byName c nm) as [[p1 i1]|] eqn:Hs.
      + inversion H; subst. exists 0%nat, p1, c. rewrite Nat.add_0_r.
        split; [done|]. split; [done|]. by apply Hc.
      + destruct (IHcs _ H) as (j & q & c' & -> & Hj & Hq).
        exists (S j), q, c'. split; [f_equal; lia|]. done. }
  intros H. destruct (Hgen 0%nat H) as (j & q & c & -> & Hj & Hq).
  cbn. rewrite Hj. exact Hq.
Qed.

(** ** Schema construction appends packed children *)

Lemma ordered_schema_unfold (nm : string) (attrs : list (string * string))
  (val : string) (children : list xml_node) :
  ordered_schema (XmlNode nm attrs val children) = ordered_from children 1.
Proof. reflexivity. Qed.

Lemma _make_itemTree_loop_built (ord : bool) (l : Z) (it : Tree_Item_t)
  (siblings : list xml_node) :
  Forall builds_below siblings →
  l < C_nMaxLayer →
  ∀ st st',
    _make_itemTree_loop _make_itemTree_at l siblings st = Returns st' →
    built ord l it (mk_item_parent st) →
    (ord = true →
       ordered_from siblings (mk_cnt_item st + 1) = true
       ∧ (mk_cnt_item st ≤ 15 →
          Z.of_nat (length (v_childItem (mk_item_parent st))) = mk_cnt_item st)
       ∧ (∀ x, x ∈ mk_index_set st → x ≤ mk_cnt_item st)) →
    built ord l it (mk_item_parent st').
Proof.
  intros Hall Hl. induction Hall as [|child rest Hchild _ IH]; intros st st' Hrun Hb Hord.
  - cbn in Hrun. inversion Hrun; subst. exact Hb.
  - cbn [_make_itemTree_loop] in Hrun.
    destruct (negb (node_name child =? C_strItemTag)%string) eqn:Htag.
    { apply (IH st st' Hrun Hb). intros Ho. destruct (Hord Ho) as (Hof & Hlen & Hset).
      unfold ordered_from in Hof; cbn [ordered_siblings] in Hof; fold (ordered_from rest) in Hof. unfold is_item in Hof.
      apply negb_true_iff in Htag. rewrite Htag in Hof. done. }
    apply negb_false_iff in Htag.
    destruct (mk_cnt_item st >? C_nMaxItem) eqn:Hcnt.
    { inversion Hrun; subst. exact Hb. }
    assert (Hcnt' : mk_cnt_item st ≤ 15).
    { unfold C_nMaxItem in Hcnt. lia. }
    destruct (first_attribute (node_attributes child) C_strIndexTag) as [v|] eqn:Hattr.
    2:{ apply (IH _ _ Hrun Hb). intros Ho. destruct (Hord Ho) as (Hof & _).
        unfold ordered_from in Hof; cbn [ordered_siblings] in Hof; fold (ordered_from rest) in Hof. unfold is_item, has_index in Hof.
        rewrite Htag, Hattr in Hof. discriminate. }
    cbn zeta in Hrun.
    match type of Hrun with
    | (if ?c then _ else _) = _ => destruct c eqn:Hlegal
    end.
    + apply andb_true_iff in Hlegal as [Hlegal Hfresh].
      apply andb_true_iff in Hlegal as [Hnz Hle].
      apply negb_true_iff, Z.eqb_neq in Hnz. apply Z.leb_le in Hle.
      apply bool_decide_eq_true_1 in Hfresh.
      destruct (first_attribute (node_attributes child) C_strNameTag) as [nm|];
        [|discriminate].
      destruct (_make_itemTree_at child _ (l + 1)) as [[r c']| |] eqn:Hrec;
        cbn in Hrun; try discriminate.
      assert (Hidx : ord = true →
                to_uint32 (strtol v) = mk_cnt_item st + 1
                ∧ ordered_schema child = true
                ∧ ordered_from rest (mk_cnt_item st + 1 + 1) = true).
      { intros Ho. destruct (Hord Ho) as (Hof & _).
        unfold ordered_from in Hof; cbn [ordered_siblings] in Hof; fold (ordered_from rest) in Hof. unfold is_item, has_index in Hof.
        rewrite Htag, Hattr in Hof.
        apply andb_true_iff in Hof as [Hof Hrest].
        apply andb_true_iff in Hof as [Hi Hc]. apply Z.eqb_eq in Hi. done. }
      apply (IH _ _ Hrun); cbn.
      * apply (built_push ord l it (mk_item_parent st) (to_uint32 (strtol v))
                 (std_string nm) c' Hb Hl).
        -- pose proof (to_uint32_range (strtol v)). unfold C_nMaxItem in *. lia.
        -- intros Ho. destruct (Hord Ho) as (_ & Hlen & _).
           destruct (Hidx Ho) as (-> & _). rewrite Hlen by exact Hcnt'. reflexivity.
        -- apply (Hchild ord _ (l + 1) r c'); [|exact Hrec].
           intros Ho. destruct (Hidx Ho) as (_ & Hc & _). done.
      * intros Ho. destruct (Hord Ho) as (_ & Hlen & Hset).
        destruct (Hidx Ho) as (Hi & _ & Hrest).
        split; [exact Hrest|]. split.
        -- intros Hc15. rewrite length_app, Nat2Z.inj_add, Hlen by lia. reflexivity.
        -- intros x Hx. apply elem_of_union in Hx as [Hx|Hx].
           ++ apply elem_of_singleton in Hx. lia.
           ++ specialize (Hset x Hx). lia.
    + apply (IH _ _ Hrun Hb); cbn. intros Ho.
      destruct (Hord Ho) as (Hof & Hlen & Hset).
      unfold ordered_from in Hof; cbn [ordered_siblings] in Hof; fold (ordered_from rest) in Hof. unfold is_item, has_index in Hof.
      rewrite Htag, Hattr in Hof.
      apply andb_true_iff in Hof as [Hof Hrest].
      apply andb_true_iff in Hof as [Hi Hc]. apply Z.eqb_eq in Hi.
      split; [exact Hrest|].
      assert (Hsixteen : mk_cnt_item st = 15).
      { apply andb_false_iff in Hlegal as [Hlegal|Hused].
        - apply andb_false_iff in Hlegal as [Hz|Hgt].
          + apply negb_false_iff, Z.eqb_eq in Hz.
            assert (0 ≤ mk_cnt_item st); [|lia].
            rewrite <- Hlen by exact Hcnt'. lia.
          + apply Z.leb_gt in Hgt. unfold C_nMaxItem in Hgt. lia.
        - apply bool_decide_eq_false_1 in Hused.
          exfalso. apply Hused. intros Hin. specialize (Hset _ Hin). lia. }
      split; [lia|]. intros x Hx. specialize (Hset x Hx). lia.
Qed.

Lemma _make_itemTree_at_built (node : xml_node) : builds_below node.
Proof.
  induction node as [nm attrs val children IH] using xml_node_ind.
  intros ord it l r it' Hord Hrun. cbn [_make_itemTree_at] in Hrun.
  destruct (l <? C_nMaxLayer) eqn:Hl.
  2:{ inversion Hrun; subst. apply built_same. }
  apply Z.ltb_lt in Hl.
  destruct (bool_decide (children = []) && (l >? 0)).
  { inversion Hrun; subst. apply built_same. }
  destruct (_make_itemTree_loop _ l children _) as [st| |] eqn:Hloop;
    cbn in Hrun; try discriminate.
  assert (Hb : built ord l it (mk_item_parent st)).
  { eapply (_make_itemTree_loop_built ord l it children IH Hl _ st Hloop).
    - cbn. apply built_same.
    - cbn. intros Ho. destruct (Hord Ho) as [Hs Hnil].
      rewrite ordered_schema_unfold in Hs.
      split; [exact Hs|]. split; [intros _; rewrite Hnil; reflexivity|].
      intros x Hx. set_solver. }
  destruct (negb (mk_cnt_item st =? 0) && (mk_cnt_item st =? mk_cnt_legalItem st));
    inversion Hrun; subst; exact Hb.
Qed.

(** ** Packed ids as sums *)

Lemma land_shiftl_low (a b n : Z) :
  0 ≤ n → 0 ≤ b < 2 ^ n → Z.land (Z.shiftl a n) b = 0.
Proof.
  intros Hn Hb. apply Z.bits_inj'. intros i Hi.
  rewrite Z.land_spec, Z.bits_0.
  destruct (Z.lt_ge_cases i n) as [Hlt|Hge].
  - rewrite Z.shiftl_spec_low by exact Hlt. reflexivity.
  - destruct (Z.eq_dec b 0) as [->|Hb0].
    + rewrite Z.bits_0. apply andb_false_r.
    + rewrite (Z.bits_above_log2 b i), andb_false_r; [reflexivity | lia |].
      assert (Z.log2 b < n) by (apply Z.log2_lt_pow2; lia). lia.
Qed.

Lemma pow16 (l : Z) : 0 ≤ l → 2 ^ (4 * l) = 16 ^ l.
Proof. intros Hl. rewrite Z.pow_mul_r by lia. reflexivity. Qed.

(** Below a parent id that fits [l] nibbles, packing adds the index in
    nibble [l]. *)
Lemma child_id_add (idx l pid : Z) :
  0 ≤ l < C_nMaxLayer → 1 ≤ idx ≤ C_nMaxItem → 0 ≤ pid < 16 ^ l →
  child_id idx l pid = pid + idx * 16 ^ l.
Proof.
  unfold C_nMaxLayer, C_nMaxItem. intros Hl Hidx Hpid.
  unfold child_id, C_nCrorNum, to_uint32, UINT32_MOD.
  assert (Hpow : 0 < 16 ^ l) by (apply Z.pow_pos_nonneg; lia).
  assert (Hle : 16 ^ (l + 1) ≤ 16 ^ 8) by (apply Z.pow_le_mono_r; lia).
  rewrite Z.pow_add_r in Hle by lia. change (16 ^ 1) with 16 in Hle.
  change (16 ^ 8) with (2 ^ 32) in Hle.
  assert (Hsh : Z.shiftl idx (4 * l) = idx * 16 ^ l).
  { rewrite Z.shiftl_mul_pow2, pow16 by lia. reflexivity. }
  rewrite Z.mod_small by (rewrite Hsh; nia).
  pose proof (Z.add_lor_land (Z.shiftl idx (4 * l)) pid) as Hadd.
  rewrite land_shiftl_low, Z.add_0_r in Hadd by (rewrite ?pow16; lia).
  rewrite Hadd, Hsh. lia.
Qed.

Lemma id_of_path_nonneg (p : item_ptr) : 0 ≤ id_of_path p.
Proof. induction p as [|k p IH]; cbn [id_of_path]; lia. Qed.

Lemma id_of_path_pos (p : item_ptr) : p ≠ [] → 1 ≤ id_of_path p.
Proof.
  destruct p as [|k p]; [contradiction|]. intros _. cbn [id_of_path].
  pose proof (id_of_path_nonneg p). lia.
Qed.

Lemma id_of_path_app (p q : item_ptr) :
  id_of_path (p ++ q) = id_of_path p + 16 ^ Z.of_nat (length p) * id_of_path q.
Proof.
  induction p as [|k p IH]; cbn [app id_of_path length].
  - change (16 ^ Z.of_nat 0) with 1. lia.
  - rewrite IH, Nat2Z.inj_succ, Z.pow_succ_r by lia. ring.
Qed.

Lemma id_of_path_bound (p : item_ptr) :
  Forall (λ k, (k < 15)%nat) p → id_of_path p < 16 ^ Z.of_nat (length p).
Proof.
  induction 1 as [|k p Hk _ IH]; cbn [id_of_path length].
  - change (16 ^ Z.of_nat 0) with 1. lia.
  - rewrite Nat2Z.inj_succ, Z.pow_succ_r by lia. lia.
Qed.

(** ** What [built] implies for the items of the tree *)

Lemma item_at_push_child (mid c x : Tree_Item_t) (p : item_ptr) :
  item_at (push_child mid c) p = Some x →
  (p = [] ∧ x = push_child mid c)
  ∨ (p ≠ [] ∧ item_at mid p = Some x)
  ∨ (∃ q, p = length (v_childItem mid) :: q ∧ item_at c q = Some x).
Proof.
  destruct p as [|k q]; cbn [item_at push_child v_childItem].
  - intros H. inversion H. left. destruct mid; done.
  - intros H. right.
    destruct (decide (k < length (v_childItem mid))%nat) as [Hlt|Hge].
    + left. split; [discriminate|]. rewrite lookup_app_l in H by exact Hlt. exact H.
    + right. rewrite lookup_app_r in H by lia.
      destruct (k - length (v_childItem mid))%nat as [|d] eqn:Hd; cbn in H.
      * exists q. split; [f_equal; lia | exact H].
      * discriminate.
Qed.

Lemma n_id_push_child (mid c : Tree_Item_t) : n_id (push_child mid c) = n_id mid.
Proof. destruct mid; reflexivity. Qed.

Lemma l_member_push_child (mid c : Tree_Item_t) :
  l_member (push_child mid c) = l_member mid.
Proof. destruct mid; reflexivity. Qed.

Lemma built_n_id (ord : bool) (l : Z) (it it' : Tree_Item_t) :
  built ord l it it' → n_id it' = n_id it ∧ l_member it' = l_member it.
Proof.
  induction 1 as [|l it mid idx nm c _ IH1 _ _ _ _ _]; [done|].
  rewrite n_id_push_child, l_member_push_child. exact IH1.
Qed.

Lemma built_no_members (ord : bool) (l : Z) (it it' : Tree_Item_t) :
  built ord l it it' → no_members it → no_members it'.
Proof.
  induction 1 as [|l it mid idx nm c _ IH1 _ _ _ _ IH2]; [done|].
  intros Hit p x Hx.
  destruct (item_at_push_child _ _ _ _ Hx) as [[-> ->]|[[_ Hm]|(q & -> & Hq)]].
  - rewrite l_member_push_child. apply (IH1 Hit []). reflexivity.
  - apply (IH1 Hit p x Hm).
  - apply (IH2 ltac:(intros [|??] ? H; cbn in H; [by inversion H | by rewrite lookup_nil in H])
             q x Hq).
Qed.

Lemma built_id_range (ord : bool) (l : Z) (it it' : Tree_Item_t) :
  built ord l it it' →
  (∀ p x, item_at it p = Some x → 0 ≤ n_id x < 2 ^ 32) →
  ∀ p x, item_at it' p = Some x → 0 ≤ n_id x < 2 ^ 32.
Proof.
  induction 1 as [|l it mid idx nm c Hb IH1 _ _ _ _ IH2]; [done|].
  intros Hit p x Hx.
  destruct (item_at_push_child _ _ _ _ Hx) as [[-> ->]|[[_ Hm]|(q & -> & Hq)]].
  - rewrite n_id_push_child. apply (IH1 Hit []). reflexivity.
  - apply (IH1 Hit p x Hm).
  - apply (IH2 ltac:(intros [|??] ? H; cbn in H;
                      [inversion H; subst; cbn; apply child_id_range, (IH1 Hit []); reflexivity
                      | by rewrite lookup_nil in H]) q x Hq).
Qed.

(** In an ordered schema the id of every item below the starting item is the
    starting id plus the id of the path, shifted by the layer. *)
Lemma built_ordered_ids (l : Z) (it it' : Tree_Item_t) :
  built true l it it' →
  v_childItem it = [] → 0 ≤ l ≤ C_nMaxLayer → 0 ≤ n_id it < 16 ^ l →
  ∀ p x, item_at it' p = Some x →
         n_id x = n_id it + 16 ^ l * id_of_path p
         ∧ Forall (λ k, (k < 15)%nat) p
         ∧ l + Z.of_nat (length p) ≤ C_nMaxLayer.
Proof.
  induction 1 as [l it|l it mid idx nm c Hb IH1 Hl Hidx Hord _ IH2];
    intros Hnil Hl0 Hid p x Hx.
  - destruct p as [|k q]; cbn in Hx.
    + inversion Hx; subst. cbn. split; [lia|]. split; [constructor | lia].
    + rewrite Hnil, lookup_nil in Hx. discriminate.
  - specialize (IH1 Hnil Hl0 Hid).
    destruct (built_n_id _ _ _ _ Hb) as [Hmid _].
    destruct (item_at_push_child _ _ _ _ Hx) as [[-> ->]|[[_ Hm]|(q & -> & Hq)]].
    + rewrite n_id_push_child, Hmid. cbn. split; [lia|]. split; [constructor | lia].
    + apply (IH1 p x Hm).
    + assert (Hpow : 0 < 16 ^ l) by (apply Z.pow_pos_nonneg; lia).
      assert (Hcid : child_id idx l (n_id mid) = n_id it + idx * 16 ^ l).
      { rewrite Hmid. apply child_id_add; [lia | exact Hidx | exact Hid]. }
      destruct (IH2 eq_refl ltac:(lia)) with (p := q) (x := x) as (Hn & Hall & Hlen);
        [| exact Hq |].
      { cbn [n_id]. rewrite Hcid, Z.pow_add_r by lia. change (16 ^ 1) with 16.
        unfold C_nMaxItem in Hidx. nia. }
      cbn [n_id] in Hn. rewrite Hcid in Hn.
      specialize (Hord eq_refl).
      split; [|split].
      * rewrite Hn. cbn [id_of_path]. rewrite Z.pow_add_r by lia.
        change (16 ^ 1) with 16. rewrite Hord. ring.
      * constructor; [|exact Hall]. unfold C_nMaxItem in Hidx. lia.
      * cbn [length]. lia.
Qed.

(** ** C3: decoding an id from the root *)

(** When every item sits at the path its id spells, the decoding loop started
    at [cur] (reached by [pre]) with the rest of the id left follows [rest]
    to the end and stops exactly there. *)
Lemma _search_item_byId_loop_finds (root : Tree_Item_t) :
  (∀ q c, item_at root q = Some c →
          n_id c = id_of_path q ∧ Forall (λ k, (k < 15)%nat) q) →
  ∀ (rest pre : item_ptr) (fuel : nat) (cur tgt : Tree_Item_t),
    item_at root pre = Some cur →
    item_at cur rest = Some tgt →
    rest ≠ [] →
    (length rest ≤ fuel)%nat →
    _search_item_byId_loop fuel (id_of_path (pre ++ rest)) cur pre (id_of_path rest)
    = Returns (Some (pre ++ rest)).
Proof.
  intros Hids rest.
  induction rest as [|k rest IH]; intros pre fuel cur tgt Hpre Hrest Hne Hfuel;
    [contradiction|].
  destruct fuel as [|fuel]; [cbn in Hfuel; lia|].
  assert (Hroot : item_at root (pre ++ k :: rest) = Some tgt)
    by (rewrite (item_at_app _ _ _ _ Hpre); exact Hrest).
  destruct (Hids _ _ Hroot) as [_ Hall].
  apply Forall_app in Hall as [_ Hall]. inversion Hall as [|? ? Hk Hall']; subst.
  cbn [item_at] in Hrest.
  destruct (v_childItem cur !! k) as [child|] eqn:Hchild; [|discriminate].
  assert (Hlen : (k < length (v_childItem cur))%nat)
    by (apply lookup_lt_is_Some; eauto).
  assert (Hchild_root : item_at root (pre ++ [k]) = Some child).
  { rewrite (item_at_app _ _ _ _ Hpre). cbn. rewrite Hchild. reflexivity. }
  destruct (Hids _ _ Hchild_root) as [Hcid _].
  pose proof (id_of_path_nonneg rest) as Hnn.
  cbn [_search_item_byId_loop id_of_path].
  destruct (Z.eqb_spec (Z.of_nat k + 1 + 16 * id_of_path rest) 0) as [|_]; [lia|].
  assert (Hindex : Z.land (Z.of_nat k + 1 + 16 * id_of_path rest) C_nMaxItem
                   = Z.of_nat k + 1).
  { change C_nMaxItem with (Z.ones 4). rewrite Z.land_ones by lia.
    change (2 ^ 4) with 16.
    replace (Z.of_nat k + 1 + 16 * id_of_path rest)
      with (Z.of_nat k + 1 + id_of_path rest * 16) by ring.
    rewrite Z.mod_add by lia. apply Z.mod_small. lia. }
  rewrite Hindex.
  destruct (Z.eqb_spec (Z.of_nat k + 1) 0) as [|_]; [lia|].
  destruct (Z.gtb_spec (Z.of_nat k + 1) (Z.of_nat (length (v_childItem cur))))
    as [|_]; [lia|].
  cbn [orb].
  replace (Z.to_nat (Z.of_nat k + 1 - 1)) with k by lia.
  rewrite Hchild, Hcid.
  assert (Hsplit : id_of_path (pre ++ k :: rest)
                   = id_of_path (pre ++ [k])
                     + 16 ^ Z.of_nat (length (pre ++ [k])) * id_of_path rest).
  { rewrite <- id_of_path_app, <- app_assoc. reflexivity. }
  assert (Hpow : 0 < 16 ^ Z.of_nat (length (pre ++ [k])))
    by (apply Z.pow_pos_nonneg; lia).
  destruct rest as [|k' rest'].
  - rewrite Z.eqb_refl. reflexivity.
  - pose proof (id_of_path_pos (k' :: rest') ltac:(discriminate)) as Hpos.
    destruct (Z.eqb_spec (id_of_path (pre ++ [k])) (id_of_path (pre ++ k :: k' :: rest')))
      as [Heq|_]; [nia|].
    assert (Hshift : Z.shiftr (Z.of_nat k + 1 + 16 * id_of_path (k' :: rest')) C_nCrorNum
                     = id_of_path (k' :: rest')).
    { unfold C_nCrorNum. rewrite Z.shiftr_div_pow2 by lia. change (2 ^ 4) with 16.
      replace (Z.of_nat k + 1 + 16 * id_of_path (k' :: rest'))
        with (Z.of_nat k + 1 + id_of_path (k' :: rest') * 16) by ring.
      rewrite Z.div_add, Z.div_small by lia. lia. }
    rewrite Hshift.
    replace (pre ++ k :: k' :: rest') with ((pre ++ [k]) ++ k' :: rest')
      by (rewrite <- app_assoc; reflexivity).
    apply (IH (pre ++ [k]) fuel child tgt Hchild_root Hrest); [discriminate|].
    cbn [length] in *. lia.
Qed.

(** In the tree built from a schema document in which, below every node, the
    k-th item node in document order carries index k, every non-root item is
    found by decoding its own id from the root. *)
Theorem ordered_schema_ids_decode
  (root_node : xml_node) (ret : Z) (t : xmlTree) (p : item_ptr) (it : Tree_Item_t) :
  build_tree_fromXmlFile (Some root_node) xmlTree_new = Returns (ret, t) →
  ordered_schema root_node = true →
  item_at (s_rootItem t) p = Some it →
  p ≠ [] →
  _search_item_byId (s_rootItem t) (n_id it) = Returns (Some p).
Proof.
  intros Hbuild Hord Hit Hp.
  unfold build_tree_fromXmlFile, _make_itemTree in Hbuild. cbn [s_rootItem xmlTree_new] in Hbuild.
  destruct (_make_itemTree_at root_node _ 0) as [[r root]| |] eqn:Hmake;
    cbn in Hbuild; try discriminate.
  inversion Hbuild; subst. cbn [s_rootItem] in *.
  assert (Hb : built true 0 (mk_Tree_Item_t 0 EmptyString [] []) root).
  { apply (_make_itemTree_at_built root_node true _ 0 ret root); [|exact Hmake].
    intros _. split; [exact Hord | reflexivity]. }
  assert (Hids : ∀ q c, item_at root q = Some c →
                        n_id c = id_of_path q ∧ Forall (λ k, (k < 15)%nat) q
                        ∧ Z.of_nat (length q) ≤ 8).
  { intros q c Hq.
    destruct (built_ordered_ids 0 _ _ Hb eq_refl) with (p := q) (x := c)
      as (Hn & Hall & Hlen); [unfold C_nMaxLayer; lia | cbn; lia | exact Hq |].
    cbn [n_id] in Hn. change (16 ^ 0) with 1 in Hn. unfold C_nMaxLayer in Hlen.
    split; [lia|]. split; [exact Hall | lia]. }
  destruct (Hids _ _ Hit) as (Hn & _ & Hlen).
  pose proof (id_of_path_pos p Hp) as Hpos.
  unfold _search_item_byId. rewrite Hn.
  destruct (Z.eqb_spec (id_of_path p) 0) as [|_]; [lia|].
  apply (_search_item_byId_loop_finds root) with (pre := []) (tgt := it);
    [ | reflexivity | exact Hit | exact Hp | unfold NIBBLES; lia ].
  intros q c Hq. destruct (Hids q c Hq) as (Hc & Hall & _). split; assumption.
Qed.

(** The item "city" of the demo schema, id 0x21, is found at child 1 of
    child 0. *)
Lemma ordered_schema_ids_decode_witness :
  build_tree_fromXmlFile (Some demo_schema) xmlTree_new
  = Returns (ERR_None, mk_xmlTree demo_tree ∅)
  ∧ ordered_schema demo_schema = true
  ∧ item_at demo_tree [0%nat; 1%nat] = Some (mk_Tree_Item_t 33 "city" [] [])
  ∧ _search_item_byId demo_tree 33 = Returns (Some [0%nat; 1%nat]).
Proof.
  assert (H1 : build_tree_fromXmlFile (Some demo_schema) xmlTree_new
               = Returns (ERR_None, mk_xmlTree demo_tree ∅))
    by (vm_compute; reflexivity).
  assert (H2 : ordered_schema demo_schema = true) by (vm_compute; reflexivity).
  assert (H3 : item_at demo_tree [0%nat; 1%nat] = Some (mk_Tree_Item_t 33 "city" [] []))
    by reflexivity.
  split; [exact H1|]. split; [exact H2|]. split; [exact H3|].
  exact (ordered_schema_ids_decode demo_schema ERR_None (mk_xmlTree demo_tree ∅)
           [0%nat; 1%nat] (mk_Tree_Item_t 33 "city" [] []) H1 H2 H3 ltac:(discriminate)).
Defined.

(** ** Parsed values: copies and comparisons *)

Lemma length_string_bytes (s : string) : length (string_bytes s) = String.length s.
Proof.
  unfold string_bytes. induction s as [|c s IH]; cbn; [reflexivity | by rewrite IH].
Qed.

Lemma std_string_no_NUL (p : string) : NUL ∉ string_bytes (std_string p).
Proof.
  unfold string_bytes.
  induction p as [|c p IH]; cbn; [apply not_elem_of_nil|].
  destruct (Ascii.eqb_spec c NUL) as [->|Hc]; cbn; [apply not_elem_of_nil|].
  apply not_elem_of_cons. split; [congruence | exact IH].
Qed.

Lemma e_type_parse_value (ty text : string) :
  e_type (parse_value ty text) = _parse_strToType ty.
Proof.
  unfold parse_value, _set_memberVal, Tree_Val_declared. cbn [e_type].
  destruct (_parse_strToType ty); reflexivity.
Qed.

(** Assigning a parsed value to a fresh [Tree_Val_t] yields the same value. *)
Lemma Tree_Val_assign_parse_value (ty text : string) :
  Tree_Val_assign Tree_Val_fresh (parse_value ty text) = Returns (parse_value ty text).
Proof.
  unfold parse_value, _set_memberVal, Tree_Val_declared, Tree_Val_fresh. cbn [e_type].
  destruct (_parse_strToType ty); try reflexivity.
  unfold Tree_Val_assign. cbn [e_type n_memLen u_val].
  unfold memcpy. rewrite length_app, length_string_bytes. cbn [length].
  destruct (Z.leb_spec 0 (Z.of_nat (String.length (std_string text)) + 1)); [|lia].
  destruct (Z.leb_spec (Z.of_nat (String.length (std_string text)) + 1)
              (Z.of_nat (String.length (std_string text) + 1))); [|lia].
  cbn. rewrite take_ge; [reflexivity|].
  rewrite length_app, length_string_bytes. cbn. lia.
Qed.

Lemma memcmp_bytes_refl (l : list ascii) : memcmp_bytes l l (length l) = 0.
Proof.
  induction l as [|x l IH]; cbn; [reflexivity|]. by rewrite Ascii.eqb_refl.
Qed.

Lemma memcmp_refl (l : list ascii) : memcmp l l (length l) = Returns 0.
Proof.
  unfold memcmp. rewrite Nat.leb_refl. cbn. by rewrite memcmp_bytes_refl.
Qed.

Lemma memcmp_bytes_zero (a b : list ascii) (n : nat) :
  (n ≤ length a)%nat → (n ≤ length b)%nat →
  memcmp_bytes a b n = 0 → take n a = take n b.
Proof.
  revert a b. induction n as [|n IH]; intros a b Ha Hb H; [reflexivity|].
  destruct a as [|x a], b as [|y b]; cbn in Ha, Hb; try lia. cbn in H.
  destruct (Ascii.eqb_spec x y) as [->|_].
  - cbn. f_equal. apply IH; [lia | lia | exact H].
  - destruct (char_code x <? char_code y); discriminate.
Qed.

Lemma memcmp_zero (a b : list ascii) (n : nat) :
  memcmp a b n = Returns 0 → take n a = take n b ∧ (n ≤ length b)%nat.
Proof.
  unfold memcmp.
  destruct (Nat.leb_spec n (length a)) as [Ha|]; [|discriminate].
  destruct (Nat.leb_spec n (length b)) as [Hb|]; [|discriminate].
  cbn. intros H. injection H as H. split; [|exact Hb].
  by apply memcmp_bytes_zero.
Qed.

(** A NUL-terminated buffer that begins with another NUL-terminated buffer
    is that buffer. *)
Lemma nul_terminated_prefix (cw cv : list ascii) :
  NUL ∉ cw →
  take (length (cv ++ [NUL])) (cw ++ [NUL]) = cv ++ [NUL] →
  cw = cv.
Proof.
  revert cw. induction cv as [|y cv IH]; intros cw Hnul H.
  - destruct cw as [|x cw]; [reflexivity|]. cbn in H. inversion H; subst.
    exfalso. apply Hnul. left.
  - destruct cw as [|x cw]; cbn in H.
    + inversion H as [[Hy Hcv]]. destruct cv; discriminate.
    + inversion H; subst. f_equal. apply IH; [|assumption].
      intros Hin. apply Hnul. by right.
Qed.

Lemma SFeqb_true_inv (a b : spec_float) :
  SFeqb a b = true →
  match a, b with
  | S754_zero _, S754_zero _ => True
  | S754_infinity s, S754_infinity s' => s = s'
  | S754_finite s m e, S754_finite s' m' e' => s = s' ∧ m = m' ∧ e = e'
  | _, _ => False
  end.
Proof.
  unfold SFeqb, SFcompare.
  destruct a as [s|s| |s m e], b as [s'|s'| |s' m' e']; try done;
    try (destruct s; done); try (destruct s'; done).
  - destruct s, s'; done.
  - destruct s, s'; try done.
    + destruct (Z.compare_spec e e'); try done.
      destruct (Pos.compare_cont Eq m m') eqn:Hm; try done.
      change ((m ?= m')%positive = Eq) in Hm. apply Pos.compare_eq in Hm.
      intros _. subst. auto.
    + destruct (Z.compare_spec e e'); try done.
      destruct (Pos.compare_cont Eq m m') eqn:Hm; try done.
      change ((m ?= m')%positive = Eq) in Hm. apply Pos.compare_eq in Hm.
      intros _. subst. auto.
Qed.

Lemma SFeqb_refl (a : spec_float) : a ≠ S754_nan → SFeqb a a = true.
Proof.
  unfold SFeqb, SFcompare. destruct a as [s|s| |s m e]; try done.
  - destruct s; done.
  - intros _. destruct s; rewrite Z.compare_refl, Pos.compare_cont_refl; done.
Qed.

Lemma SFeqb_euclid (a b c : spec_float) :
  SFeqb a c = true → SFeqb b c = true → SFeqb a b = true.
Proof.
  intros Ha Hb. apply SFeqb_true_inv in Ha, Hb.
  destruct a as [s|s| |s m e], c as [sc|sc| |sc mc ec]; try done;
    destruct b as [s'|s'| |s' m' e']; try done.
  - subst. apply SFeqb_refl. discriminate.
  - destruct Ha as (-> & -> & ->), Hb as (-> & -> & ->). apply SFeqb_refl. discriminate.
Qed.

(** A comparable value equals itself. *)
Lemma Tree_Val_eq_refl (ty text : string) :
  comparable ty text →
  Tree_Val_eq (parse_value ty text) (parse_value ty text) = Returns true.
Proof.
  unfold comparable, parse_value, _set_memberVal, Tree_Val_declared. cbn [e_type].
  intros [H|[H|[H Hnan]]]; rewrite H; unfold Tree_Val_eq; cbn [e_type u_val n_memLen].
  - rewrite decide_True by reflexivity. by rewrite Z.eqb_refl.
  - rewrite decide_True by reflexivity.
    destruct (Z.leb_spec 0 (Z.of_nat (String.length (std_string text)) + 1)); [|lia].
    replace (Z.to_nat (Z.of_nat (String.length (std_string text)) + 1))
      with (length (string_bytes (std_string text) ++ [NUL]))
      by (rewrite length_app, length_string_bytes; cbn; lia).
    rewrite memcmp_refl. reflexivity.
  - rewrite decide_True by reflexivity. by rewrite SFeqb_refl.
Qed.

(** If a stored value and a second parsed value both compare equal to a
    parsed value, the stored value compares equal to the second one. *)
Lemma Tree_Val_eq_euclid (m : Tree_Val_t) (ty text ty' text' : string) :
  Tree_Val_eq m (parse_value ty text) = Returns true →
  Tree_Val_eq (parse_value ty' text') (parse_value ty text) = Returns true →
  Tree_Val_eq m (parse_value ty' text') = Returns true.
Proof.
  intros Hm Hw.
  assert (Htag : _parse_strToType ty' = _parse_strToType ty).
  { unfold Tree_Val_eq in Hw. rewrite !e_type_parse_value in Hw.
    destruct (decide _) as [E|]; [exact E | discriminate]. }
  revert Hm Hw. unfold parse_value, _set_memberVal, Tree_Val_declared. cbn [e_type].
  rewrite Htag. destruct (_parse_strToType ty) eqn:Hty; unfold Tree_Val_eq at 2;
    cbn [e_type u_val n_memLen]; rewrite ?decide_True by reflexivity; try discriminate.
  - intros Hm Hw. injection Hw as Hw. apply Z.eqb_eq in Hw. rewrite Hw. exact Hm.
  - intros Hm Hw.
    destruct (Z.leb_spec 0 (Z.of_nat (String.length (std_string text)) + 1)); [|lia].
    destruct (memcmp _ _ _) as [c| |] eqn:Hcmp; cbn in Hw; try discriminate.
    injection Hw as Hw. apply Z.eqb_eq in Hw. subst c.
    apply memcmp_zero in Hcmp as [Hpre _].
    assert (Hn : Z.to_nat (Z.of_nat (String.length (std_string text)) + 1)
                 = length (string_bytes (std_string text) ++ [NUL]))
      by (rewrite length_app, length_string_bytes; cbn; lia).
    rewrite Hn in Hpre.
    rewrite (take_ge (string_bytes (std_string text) ++ [NUL])) in Hpre by reflexivity.
    apply nul_terminated_prefix in Hpre; [|apply std_string_no_NUL].
    assert (Hlen : String.length (std_string text') = String.length (std_string text))
      by (rewrite <- !length_string_bytes, Hpre; reflexivity).
    rewrite Hpre, Hlen. exact Hm.
  - intros Hm Hw. injection Hw as Hw.
    unfold Tree_Val_eq in Hm |- *. cbn [e_type u_val n_memLen] in Hm |- *.
    destruct (decide (e_type m = VAL_Double)) as [->|]; [|discriminate].
    destruct (u_val m) as [| |d|]; try discriminate.
    injection Hm as Hm. by rewrite (SFeqb_euclid _ _ _ Hm Hw).
Qed.

(** ** One round of [_push_memberVector] *)


(** A call on a non-empty list of member nodes either fails at the first
    node, leaving the tree as it was, or performs one [push_step] and goes on
    with the next sibling. *)
Lemma _push_memberVector_cons (b : Z) (node : xml_node) (next : list xml_node)
  (root : Tree_Item_t) (r : Z) (root2 : Tree_Item_t) :
  _push_memberVector (node :: next) b root = Returns (r, root2) →
  (r ≠ ERR_None ∧ root2 = root)
  ∨ ∃ root1, push_step b node root root1
             ∧ _push_memberVector next b root1 = Returns (r, root2).
Proof.
  cbn [_push_memberVector].
  destruct (Z.gtb_spec b 0) as [Hb|_]; [|failed_round].
  destruct (first_attribute (node_attributes node) C_strNameTag) as [nm|] eqn:Hnm;
    [|failed_round].
  destruct (_search_item_byName root nm) as [[ptr it]|] eqn:Hs; [|failed_round].
  destruct (_get_parentId (n_id it)) as [pid| |]; cbn [mbind outcome_bind];
    try discriminate.
  destruct (_search_item_byId root pid) as [[par|]| |]; cbn [mbind outcome_bind];
    try discriminate; [|failed_round].
  destruct (_get_memberVal it b Tree_Val_fresh) as [[got out]| |] eqn:Hget;
    cbn [mbind outcome_bind]; try discriminate.
  destruct (Z.eqb_spec got ERR_UnregisteredIndex) as [->|_]; [|failed_round].
  destruct (first_attribute (node_attributes node) C_strTypeTag) as [ty|] eqn:Hty;
    [|failed_round].
  fold (parse_value ty (node_value node)).
  destruct (find_if_member (l_member it) (parse_value ty (node_value node)) 0)
    as [iter| |] eqn:Hfind; cbn [mbind outcome_bind]; try discriminate.
  pose proof (push_step_intro b node root nm ty ptr it iter out ltac:(lia)
                Hnm Hs Hget Hty Hfind) as Hstep.
  destruct iter as [k|]; cbn [mbind outcome_bind].
  - intros H. right. eexists. split; [exact Hstep | exact H].
  - rewrite Tree_Val_assign_parse_value. cbn [mbind outcome_bind].
    intros H. right. eexists. split; [exact Hstep | exact H].
Qed.

(** ** Invariants along ingestion *)

Section ingestion_invariants.
(** [Inv] is kept by every round; [Post] is kept by every round and is
    established, from [Inv], by the round of batch [b0] on node [nd]. *)
Variables Inv Post : Tree_Item_t → Prop.
Variable b0 : Z.
Variable nd : xml_node.
Hypothesis Inv_step : ∀ b node root root',
  Inv root → push_step b node root root' → Inv root'.
Hypothesis Post_step : ∀ b node root root',
  Post root → push_step b node root root' → Post root'.
Hypothesis Post_intro : ∀ root root',
  Inv root → push_step b0 nd root root' → Post root'.

Lemma _push_memberVector_keeps (nodes : list xml_node) (b : Z)
  (root : Tree_Item_t) (r : Z) (root' : Tree_Item_t) :
  _push_memberVector nodes b root = Returns (r, root') →
  (Inv root → Inv root') ∧ (Post root → Post root').
Proof.
  revert root. induction nodes as [|node next IH]; intros root H.
  - cbn in H. inversion H; subst. done.
  - apply _push_memberVector_cons in H as [[_ ->]|(root1 & Hstep & Hnext)]; [done|].
    destruct (IH _ Hnext) as [HI HP]. split; intros H0.
    + apply HI, (Inv_step _ _ _ _ H0 Hstep).
    + apply HP, (Post_step _ _ _ _ H0 Hstep).
Qed.

Lemma _push_memberVector_reaches (nodes : list xml_node)
  (root root' : Tree_Item_t) :
  nd ∈ nodes → Inv root →
  _push_memberVector nodes b0 root = Returns (ERR_None, root') →
  Post root'.
Proof.
  revert root. induction nodes as [|node next IH]; intros root Hin HI H.
  - by apply elem_of_nil in Hin.
  - apply _push_memberVector_cons in H as [[Hne _]|(root1 & Hstep & Hnext)]; [done|].
    apply elem_of_cons in Hin as [->|Hin].
    + apply (_push_memberVector_keeps _ _ _ _ _ Hnext), (Post_intro _ _ HI Hstep).
    + apply (IH root1 Hin); [|exact Hnext]. apply (Inv_step _ _ _ _ HI Hstep).
Qed.

Lemma add_batch_loop_keeps (siblings : list xml_node) (t : xmlTree)
  (ret : Z) (t' : xmlTree) :
  add_batch_loop siblings t = Returns (ret, t') →
  (Inv (s_rootItem t) → Inv (s_rootItem t'))
  ∧ (Post (s_rootItem t) → Post (s_rootItem t')).
Proof.
  revert t. induction siblings as [|batch rest IH]; intros t H; cbn in H.
  - inversion H; subst. done.
  - destruct (negb (node_name batch =? C_strBatchTag)%string); [apply IH, H|].
    destruct (_push_memberVector _ _ _) as [[pushed root]| |] eqn:Hpush;
      cbn in H; try discriminate.
    pose proof (_push_memberVector_keeps _ _ _ _ _ Hpush) as [HI HP].
    destruct (negb (pushed =? ERR_None)); cbn in H.
    + inversion H; subst. done.
    + destruct (IH _ H) as [HI' HP']. cbn in *. split; auto.
Qed.

Lemma add_batch_loop_reaches (siblings : list xml_node) (batch : xml_node)
  (t t' : xmlTree) :
  batch ∈ siblings → node_name batch = C_strBatchTag →
  _get_batchIndex batch = b0 → nd ∈ node_children batch →
  Inv (s_rootItem t) →
  add_batch_loop siblings t = Returns (ERR_None, t') →
  Post (s_rootItem t').
Proof.
  intros Hin Htag Hidx Hnd. revert t.
  induction siblings as [|head rest IH]; intros t HI H; cbn in H.
  - by apply elem_of_nil in Hin.
  - destruct (negb (node_name head =? C_strBatchTag)%string) eqn:Hhead.
    { apply elem_of_cons in Hin as [->|Hin]; [|by apply (IH Hin t)].
      rewrite Htag in Hhead. vm_compute in Hhead. discriminate Hhead. }
    destruct (_push_memberVector _ _ _) as [[pushed root]| |] eqn:Hpush;
      cbn in H; try discriminate.
    destruct (Z.eqb_spec pushed ERR_None) as [->|_]; cbn in H; [|discriminate].
    apply elem_of_cons in Hin as [->|Hin].
    + apply (add_batch_loop_keeps _ _ _ _ H). cbn. rewrite Hidx in Hpush.
      apply (_push_memberVector_reaches _ _ _ Hnd HI Hpush).
    + refine (IH Hin _ _ H). cbn.
      apply (_push_memberVector_keeps _ _ _ _ _ Hpush), HI.
Qed.

Lemma add_batches_keeps (docs : list xml_node) (t : xmlTree)
  (rets : list Z) (t' : xmlTree) :
  add_batches docs t = Returns (rets, t') →
  (Inv (s_rootItem t) → Inv (s_rootItem t'))
  ∧ (Post (s_rootItem t) → Post (s_rootItem t')).
Proof.
  revert t rets. induction docs as [|d rest IH]; intros t rets H; cbn in H.
  - inversion H; subst. done.
  - destruct (add_batch_loop (node_children d) t) as [[ret t1]| |] eqn:Hd;
      cbn in H; try discriminate.
    destruct (add_batches rest t1) as [[rets' t2]| |] eqn:Hrest;
      cbn in H; try discriminate.
    inversion H; subst.
    destruct (add_batch_loop_keeps _ _ _ _ Hd), (IH _ _ Hrest). split; auto.
Qed.

Lemma add_batches_reaches (docs : list xml_node) (i : nat) (d batch : xml_node)
  (t : xmlTree) (rets : list Z) (t' : xmlTree) :
  docs !! i = Some d → rets !! i = Some ERR_None →
  batch ∈ node_children d → node_name batch = C_strBatchTag →
  _get_batchIndex batch = b0 → nd ∈ node_children batch →
  Inv (s_rootItem t) →
  add_batches docs t = Returns (rets, t') →
  Post (s_rootItem t').
Proof.
  intros Hd Hr Hin Htag Hidx Hnd. revert i t rets Hd Hr.
  induction docs as [|d0 rest IH]; intros i t rets Hd Hr HI H; cbn in H.
  - by rewrite lookup_nil in Hd.
  - destruct (add_batch_loop (node_children d0) t) as [[ret t1]| |] eqn:Hd0;
      cbn in H; try discriminate.
    destruct (add_batches rest t1) as [[rets' t2]| |] eqn:Hrest;
      cbn in H; try discriminate.
    injection H as <- <-.
    destruct i as [|i]; cbn in Hd, Hr.
    + injection Hd as ->. injection Hr as ->.
      apply (add_batches_keeps _ _ _ _ Hrest).
      apply (add_batch_loop_reaches _ _ _ _ Hin Htag Hidx Hnd HI Hd0).
    + apply (IH i t1 rets' Hd Hr); [|exact Hrest].
      apply (add_batch_loop_keeps _ _ _ _ Hd0), HI.
Qed.
End ingestion_invariants.

(** ** C7: the batch-index sets of an item stay disjoint *)

Lemma _get_memberVal_loop_unregistered (l : list Tree_Member_t) (b : Z)
  (out out' : Tree_Val_t) :
  _get_memberVal_loop l b out = Returns (ERR_UnregisteredIndex, out') →
  ∀ m, m ∈ l → b ∉ set_batchIndex m.
Proof.
  induction l as [|m0 l IH]; intros H m Hm; [by apply elem_of_nil in Hm|].
  cbn in H. destruct (decide (b ∈ set_batchIndex m0)) as [Hin|Hout].
  - rewrite bool_decide_eq_true_2 in H by exact Hin.
    destruct (Tree_Val_assign out (s_val m0)); cbn in H; discriminate.
  - rewrite bool_decide_eq_false_2 in H by exact Hout.
    apply elem_of_cons in Hm as [->|Hm]; [exact Hout | exact (IH H m Hm)].
Qed.

Lemma members_disjoint_snoc (l : list Tree_Member_t) (v : Tree_Val_t) (b : Z) :
  members_disjoint l → (∀ m, m ∈ l → b ∉ set_batchIndex m) →
  members_disjoint (l ++ [mk_Tree_Member_t v {[b]}]).
Proof.
  intros Hd Hb i j mi mj Hi Hj Hij.
  apply lookup_snoc_Some in Hi as [[_ Hi]|[-> <-]];
    apply lookup_snoc_Some in Hj as [[Hjl Hj]|[-> <-]].
  - exact (Hd i j mi mj Hi Hj Hij).
  - pose proof (Hb mi (list_elem_of_lookup_2 _ _ _ Hi)). cbn. set_solver.
  - pose proof (Hb mj (list_elem_of_lookup_2 _ _ _ Hj)). cbn. set_solver.
  - contradiction.
Qed.

Lemma members_disjoint_alter (l : list Tree_Member_t) (k : nat) (b : Z) :
  members_disjoint l → (∀ m, m ∈ l → b ∉ set_batchIndex m) →
  members_disjoint (alter (member_insert b) k l).
Proof.
  intros Hd Hb i j mi mj Hi Hj Hij.
  rewrite list_lookup_alter in Hi, Hj.
  destruct (decide (k = i)) as [Hki|Hki], (decide (k = j)) as [Hkj|Hkj].
  - congruence.
  - subst k. destruct (l !! i) as [m|] eqn:Hm; [|discriminate]. cbn in Hi.
    injection Hi as <-. cbn.
    pose proof (Hd i j m mj Hm Hj Hij).
    pose proof (Hb mj (list_elem_of_lookup_2 _ _ _ Hj)). set_solver.
  - subst k. destruct (l !! j) as [m|] eqn:Hm; [|discriminate]. cbn in Hj.
    injection Hj as <-. cbn.
    pose proof (Hd i j mi m Hi Hm Hij).
    pose proof (Hb mi (list_elem_of_lookup_2 _ _ _ Hi)). set_solver.
  - exact (Hd i j mi mj Hi Hj Hij).
Qed.

Lemma push_step_disjoint (b : Z) (node : xml_node) (root root' : Tree_Item_t) :
  tree_disjoint root → push_step b node root root' → tree_disjoint root'.
Proof.
  intros Hd Hstep.
  destruct Hstep as [nm ty ptr member_item iter out Hb Hnm Hs Hget Hty Hfind].
  pose proof (_search_item_byName_item_at _ _ _ _ Hs) as Hptr.
  pose proof (_get_memberVal_loop_unregistered _ _ _ _ Hget) as Hfree.
  intros q it' Hq.
  destruct (item_at_set_members _ _ _ _ _ Hq) as (it0 & Hq0 & _ & Hl). rewrite Hl.
  destruct (decide (q = ptr)) as [->|_]; [|exact (Hd q it0 Hq0)].
  specialize (Hd _ _ Hptr).
  destruct iter as [k|].
  - by apply members_disjoint_alter.
  - by apply members_disjoint_snoc.
Qed.

Lemma push_step_parsed (b : Z) (node : xml_node) (root root' : Tree_Item_t) :
  tree_parsed root → push_step b node root root' → tree_parsed root'.
Proof.
  intros Hp Hstep.
  destruct Hstep as [nm ty ptr member_item iter out Hb Hnm Hs Hget Hty Hfind].
  pose proof (_search_item_byName_item_at _ _ _ _ Hs) as Hptr.
  intros q it' Hq.
  destruct (item_at_set_members _ _ _ _ _ Hq) as (it0 & Hq0 & Hid & Hl).
  destruct (Hp q it0 Hq0) as [Hrange Hvals].
  split; [rewrite Hid; exact Hrange|]. rewrite Hl.
  destruct (decide (q = ptr)) as [->|_]; [|exact Hvals].
  assert (it0 = member_item) as -> by congruence.
  intros m Hm. destruct iter as [k|].
  - apply list_elem_of_lookup_1 in Hm as [i Hi]. rewrite list_lookup_alter in Hi.
    destruct (decide (k = i)) as [->|_].
    + destruct (l_member member_item !! i) as [m0|] eqn:Hm0; [|discriminate].
      injection Hi as <-. cbn. apply Hvals, (list_elem_of_lookup_2 _ _ _ Hm0).
    + apply Hvals, (list_elem_of_lookup_2 _ _ _ Hi).
  - apply elem_of_app in Hm as [Hm|Hm]; [exact (Hvals m Hm)|].
    apply list_elem_of_singleton in Hm as ->. cbn. eauto.
Qed.

(** The tree a schema document builds holds no member, and its ids fit 32
    bits. *)
Lemma build_tree_fresh (root_node : option xml_node) (ret : Z) (t : xmlTree) :
  build_tree_fromXmlFile root_node xmlTree_new = Returns (ret, t) →
  no_members (s_rootItem t) ∧ tree_parsed (s_rootItem t).
Proof.
  unfold build_tree_fromXmlFile, _make_itemTree. cbn [s_rootItem xmlTree_new].
  assert (Hnew : no_members (mk_Tree_Item_t 0 EmptyString [] [])).
  { intros [|k q] it H; cbn in H; [by inversion H | discriminate]. }
  assert (Hid : ∀ p x, item_at (mk_Tree_Item_t 0 EmptyString [] []) p = Some x → 0 ≤ n_id x < 2 ^ 32).
  { intros [|k q] it H; cbn in H; [inversion H; cbn; lia | discriminate]. }
  assert (Hgoal : ∀ root, built false 0 (mk_Tree_Item_t 0 EmptyString [] []) root →
                          no_members root ∧ tree_parsed root).
  { intros root Hb. pose proof (built_no_members _ _ _ _ Hb Hnew) as Hno.
    split; [exact Hno|]. intros p x Hx.
    split; [exact (built_id_range _ _ _ _ Hb Hid p x Hx)|].
    rewrite (Hno p x Hx). intros m Hm. by apply elem_of_nil in Hm. }
  destruct root_node as [n|]; cbn.
  - destruct (_make_itemTree_at n _ 0) as [[r root]| |] eqn:Hmake; cbn; try discriminate.
    intros H. inversion H; subst. cbn. apply Hgoal.
    apply (_make_itemTree_at_built n false _ 0 ret root); [discriminate | exact Hmake].
  - intros H. inversion H; subst. cbn. apply Hgoal, built_same.
Qed.

Lemma no_members_disjoint (root : Tree_Item_t) : no_members root → tree_disjoint root.
Proof.
  intros Hno p it Hit i j mi mj Hi. rewrite (Hno p it Hit) in Hi. discriminate.
Qed.

(** When every stored value is a parsed one, the look-up of a batch index
    that some member holds succeeds. *)
Lemma _get_memberVal_loop_found (l : list Tree_Member_t) (b : Z) (m : Tree_Member_t) :
  (∀ m, m ∈ l → ∃ ty text, s_val m = parse_value ty text) →
  m ∈ l → b ∈ set_batchIndex m →
  ∃ v, _get_memberVal_loop l b Tree_Val_fresh = Returns (ERR_None, v).
Proof.
  induction l as [|m0 l IH]; intros Hv Hm Hb; [by apply elem_of_nil in Hm|].
  cbn. destruct (decide (b ∈ set_batchIndex m0)) as [Hin|Hout].
  - rewrite bool_decide_eq_true_2 by exact Hin.
    destruct (Hv m0 ltac:(left)) as (ty & text & ->).
    rewrite Tree_Val_assign_parse_value. cbn. eauto.
  - rewrite bool_decide_eq_false_2 by exact Hout.
    apply elem_of_cons in Hm as [->|Hm]; [contradiction|].
    apply IH; [|exact Hm | exact Hb]. intros m' Hm'. apply Hv. by right.
Qed.

(** A member node for an item that already holds a value of the batch is
    refused with [ERR_UsedIndex], and the tree is left as it was. *)
Lemma _push_memberVector_used (root : Tree_Item_t) (node : xml_node)
  (next : list xml_node) (b : Z) (nm : string) (ptr : item_ptr)
  (it : Tree_Item_t) (m : Tree_Member_t) :
  tree_parsed root → 0 < b →
  first_attribute (node_attributes node) C_strNameTag = Some nm →
  _search_item_byName root nm = Some (ptr, it) →
  m ∈ l_member it → b ∈ set_batchIndex m →
  _push_memberVector (node :: next) b root = Returns (ERR_UsedIndex, root).
Proof.
  intros Hp Hb Hnm Hs Hm Hin.
  destruct (Hp ptr it (_search_item_byName_item_at _ _ _ _ Hs)) as [Hrange Hvals].
  destruct (_get_memberVal_loop_found _ b m Hvals Hm Hin) as [v Hv].
  cbn [_push_memberVector].
  destruct (Z.gtb_spec b 0) as [_|]; [|lia].
  rewrite Hnm, Hs, (_get_parentId_zero _ Hrange). cbn [mbind outcome_bind].
  unfold _search_item_byId. cbn [Z.eqb mbind outcome_bind].
  unfold _get_memberVal. rewrite Hv. reflexivity.
Qed.

(** C7.  Starting from the tree a schema document builds, after any sequence
    of calls of [add_batch_fromXmlFile] (successful or not) the members of
    every item hold pairwise disjoint batch-index sets; and in that tree a
    member node of batch [b] for an item that already holds a value of batch
    [b] is refused with [ERR_UsedIndex]. *)
Theorem C7_member_sets_disjoint
  (root_node : option xml_node) (ret : Z) (t0 : xmlTree)
  (docs : list xml_node) (rets : list Z) (t : xmlTree) :
  build_tree_fromXmlFile root_node xmlTree_new = Returns (ret, t0) →
  add_batches docs t0 = Returns (rets, t) →
  tree_disjoint (s_rootItem t)
  ∧ ∀ (node : xml_node) (next : list xml_node) (b : Z) (nm : string)
      (ptr : item_ptr) (it : Tree_Item_t) (m : Tree_Member_t),
      0 < b →
      first_attribute (node_attributes node) C_strNameTag = Some nm →
      _search_item_byName (s_rootItem t) nm = Some (ptr, it) →
      m ∈ l_member it → b ∈ set_batchIndex m →
      _push_memberVector (node :: next) b (s_rootItem t)
      = Returns (ERR_UsedIndex, s_rootItem t).
Proof.
  intros Hbuild Hrun.
  destruct (build_tree_fresh _ _ _ Hbuild) as [Hno Hparsed].
  split.
  - apply (add_batches_keeps tree_disjoint (λ _, True) push_step_disjoint
             ltac:(done) _ _ _ _ Hrun).
    by apply no_members_disjoint.
  - intros node next b nm ptr it m. apply _push_memberVector_used.
    apply (add_batches_keeps tree_parsed (λ _, True) push_step_parsed
             ltac:(done) _ _ _ _ Hrun), Hparsed.
Qed.

Lemma C7_member_sets_disjoint_witness :
  build_tree_fromXmlFile (Some demo_schema) xmlTree_new
  = Returns (ERR_None, mk_xmlTree demo_tree ∅)
  ∧ add_batches [demo_values] (mk_xmlTree demo_tree ∅) = Returns ([ERR_None], demo_loaded)
  ∧ tree_disjoint (s_rootItem demo_loaded).
Proof.
  assert (H1 : build_tree_fromXmlFile (Some demo_schema) xmlTree_new
               = Returns (ERR_None, mk_xmlTree demo_tree ∅))
    by (vm_compute; reflexivity).
  assert (H2 : add_batches [demo_values] (mk_xmlTree demo_tree ∅)
               = Returns ([ERR_None], demo_loaded))
    by (vm_compute; reflexivity).
  split; [exact H1|]. split; [exact H2|].
  exact (proj1 (C7_member_sets_disjoint (Some demo_schema) ERR_None
                  (mk_xmlTree demo_tree ∅) [demo_values] [ERR_None] demo_loaded H1 H2)).
Defined.

(** ** C6: equal values of two batches share one member *)

(** Writing a member list does not move what a name resolves to; it changes
    the members seen there only when it wrote that very item. *)
Lemma _search_item_byName_after_write (root : Tree_Item_t) (p : item_ptr)
  (l : list Tree_Member_t) (nm : string) (ptr : item_ptr) (it' : Tree_Item_t) :
  _search_item_byName (set_members root p l) nm = Some (ptr, it') →
  ∃ it0, _search_item_byName root nm = Some (ptr, it0)
         ∧ l_member it' = if decide (ptr = p) then l else l_member it0.
Proof.
  intros H.
  pose proof (_search_item_byName_set_members root p l nm) as Hfst.
  rewrite H in Hfst. cbn in Hfst.
  destruct (_search_item_byName root nm) as [[ptr0 it0]|] eqn:H0; [|discriminate].
  cbn in Hfst. injection Hfst as <-.
  exists it0. split; [reflexivity|].
  apply _search_item_byName_item_at in H, H0.
  destruct (item_at_set_members _ _ _ _ _ H) as (x & Hx & _ & Hl).
  rewrite H0 in Hx. injection Hx as <-. exact Hl.
Qed.

Lemma _search_item_byName_before_write (root : Tree_Item_t) (p : item_ptr)
  (l : list Tree_Member_t) (nm : string) (ptr : item_ptr) (it0 : Tree_Item_t) :
  _search_item_byName root nm = Some (ptr, it0) →
  ∃ it', _search_item_byName (set_members root p l) nm = Some (ptr, it')
         ∧ l_member it' = if decide (ptr = p) then l else l_member it0.
Proof.
  intros H0.
  pose proof (_search_item_byName_set_members root p l nm) as Hfst.
  rewrite H0 in Hfst. cbn in Hfst.
  destruct (_search_item_byName (set_members root p l) nm) as [[ptr' it']|] eqn:H;
    [|discriminate].
  cbn in Hfst. injection Hfst as ->.
  exists it'. split; [reflexivity|].
  destruct (_search_item_byName_after_write _ _ _ _ _ _ H) as (x & Hx & Hl).
  rewrite H0 in Hx. injection Hx as <-. exact Hl.
Qed.

Lemma find_if_member_Some (l : list Tree_Member_t) (w : Tree_Val_t) (k0 k : nat) :
  find_if_member l w k0 = Returns (Some k) →
  ∃ j m, k = (k0 + j)%nat ∧ l !! j = Some m ∧ Tree_Val_eq (s_val m) w = Returns true.
Proof.
  revert k0. induction l as [|m0 l IH]; intros k0 H; cbn in H; [discriminate|].
  destruct (Tree_Val_eq (s_val m0) w) as [[|]| |] eqn:Heq; cbn in H; try discriminate.
  - injection H as <-. exists 0%nat, m0. rewrite Nat.add_0_r. done.
  - destruct (IH _ H) as (j & m & -> & Hj & Hm). exists (S j), m.
    split; [lia | done].
Qed.

Lemma find_if_member_None (l : list Tree_Member_t) (w : Tree_Val_t) (k0 : nat) :
  find_if_member l w k0 = Returns None →
  ∀ m, m ∈ l → Tree_Val_eq (s_val m) w = Returns false.
Proof.
  revert k0. induction l as [|m0 l IH]; intros k0 H m Hm; [by apply elem_of_nil in Hm|].
  cbn in H.
  destruct (Tree_Val_eq (s_val m0) w) as [[|]| |] eqn:Heq; cbn in H; try discriminate.
  apply elem_of_cons in Hm as [->|Hm]; [exact Heq | exact (IH _ H m Hm)].
Qed.

Lemma lookup_alter_member_insert (l : list Tree_Member_t) (k i : nat) (b : Z)
  (m : Tree_Member_t) :
  alter (member_insert b) k l !! i = Some m →
  ∃ m0, l !! i = Some m0 ∧ s_val m = s_val m0
        ∧ set_batchIndex m0 ⊆ set_batchIndex m.
Proof.
  rewrite list_lookup_alter. destruct (decide (k = i)) as [->|_].
  - destruct (l !! i) as [m0|]; [|discriminate]. cbn. intros H. injection H as <-.
    exists m0. cbn. split; [done|]. split; [done | set_solver].
  - intros H. exists m. done.
Qed.

Lemma one_holder_alter (v : Tree_Val_t) (l : list Tree_Member_t) (k : nat) (b : Z) :
  one_holder v l → one_holder v (alter (member_insert b) k l).
Proof.
  intros Hone i j mi mj Hi Hj Hvi Hvj.
  apply lookup_alter_member_insert in Hi as (mi0 & Hi & Hsi & _).
  apply lookup_alter_member_insert in Hj as (mj0 & Hj & Hsj & _).
  rewrite Hsi in Hvi. rewrite Hsj in Hvj. exact (Hone i j mi0 mj0 Hi Hj Hvi Hvj).
Qed.

Lemma one_holder_snoc (v w : Tree_Val_t) (s : gset Z) (l : list Tree_Member_t) :
  one_holder v l →
  (∀ m, m ∈ l → Tree_Val_eq (s_val m) v = Returns true →
        Tree_Val_eq w v = Returns true → False) →
  one_holder v (l ++ [mk_Tree_Member_t w s]).
Proof.
  intros Hone Hnew i j mi mj Hi Hj Hvi Hvj.
  apply lookup_snoc_Some in Hi as [[_ Hi]|[-> <-]];
    apply lookup_snoc_Some in Hj as [[_ Hj]|[-> <-]].
  - exact (Hone i j mi mj Hi Hj Hvi Hvj).
  - exfalso. exact (Hnew mi (list_elem_of_lookup_2 _ _ _ Hi) Hvi Hvj).
  - exfalso. exact (Hnew mj (list_elem_of_lookup_2 _ _ _ Hj) Hvj Hvi).
  - reflexivity.
Qed.

Lemma holds_value_alter (v : Tree_Val_t) (b b' : Z) (k : nat) (l : list Tree_Member_t) :
  holds_value v b l → holds_value v b (alter (member_insert b') k l).
Proof.
  intros (i & m & Hi & Hv & Hb).
  destruct (decide (k = i)) as [->|Hki].
  - exists i, (member_insert b' m). rewrite list_lookup_alter_eq, Hi. cbn.
    split; [done|]. split; [exact Hv | set_solver].
  - exists i, m. rewrite list_lookup_alter_ne by exact Hki. done.
Qed.

Lemma holds_value_snoc (v : Tree_Val_t) (b : Z) (x : Tree_Member_t)
  (l : list Tree_Member_t) :
  holds_value v b l → holds_value v b (l ++ [x]).
Proof.
  intros (i & m & Hi & Hv & Hb). exists i, m.
  split; [by apply lookup_app_l_Some | done].
Qed.

Section one_value.
Variables nm ty text : string.

Lemma holder_inv_step (b : Z) (node : xml_node) (root root' : Tree_Item_t) :
  holder_inv nm (parse_value ty text) root → push_step b node root root' → holder_inv nm (parse_value ty text) root'.
Proof.
  intros Hinv Hstep.
  destruct Hstep as [nm' ty' ptr' member_item iter out Hb Hnm Hs Hget Hty Hfind].
  pose proof (_search_item_byName_item_at _ _ _ _ Hs) as Hptr'.
  intros ptr it' Hsearch.
  destruct (_search_item_byName_after_write _ _ _ _ _ _ Hsearch) as (it0 & H0 & Hl).
  specialize (Hinv ptr it0 H0). rewrite Hl.
  destruct (decide (ptr = ptr')) as [->|_]; [|exact Hinv].
  assert (it0 = member_item) as ->
    by (apply _search_item_byName_item_at in H0; congruence).
  destruct iter as [k|].
  - by apply one_holder_alter.
  - apply one_holder_snoc; [exact Hinv|].
    intros m Hm Hmv Hwv.
    pose proof (find_if_member_None _ _ _ Hfind m Hm) as Hfalse.
    pose proof (Tree_Val_eq_euclid _ _ _ _ _ Hmv Hwv) as Htrue.
    congruence.
Qed.

Lemma holder_post_step (b0 b : Z) (node : xml_node) (root root' : Tree_Item_t) :
  holder_post nm (parse_value ty text) b0 root → push_step b node root root' → holder_post nm (parse_value ty text) b0 root'.
Proof.
  intros (ptr & it0 & H0 & Hholds) Hstep.
  destruct Hstep as [nm' ty' ptr' member_item iter out Hb Hnm Hs Hget Hty Hfind].
  destruct (_search_item_byName_before_write root ptr'
              (match iter with
               | Some k => alter (member_insert b) k (l_member member_item)
               | None => l_member member_item
                         ++ [mk_Tree_Member_t (parse_value ty' (node_value node)) {[b]}]
               end) nm ptr it0 H0) as (it' & H' & Hl).
  exists ptr, it'. split; [exact H'|]. rewrite Hl.
  destruct (decide (ptr = ptr')) as [->|_]; [|exact Hholds].
  assert (it0 = member_item) as ->.
  { apply _search_item_byName_item_at in H0, Hs. congruence. }
  destruct iter as [k|]; [by apply holds_value_alter | by apply holds_value_snoc].
Qed.

Lemma holder_post_intro (b0 : Z) (nd : xml_node) (root root' : Tree_Item_t) :
  member_node nd nm ty text → comparable ty text →
  holder_inv nm (parse_value ty text) root → push_step b0 nd root root' → holder_post nm (parse_value ty text) b0 root'.
Proof.
  intros (Hname & Htype & Htext) Hcmp _ Hstep.
  destruct Hstep as [nm' ty' ptr' member_item iter out Hb Hnm Hs Hget Hty Hfind].
  assert (nm' = nm) as -> by congruence. assert (ty' = ty) as -> by congruence.
  rewrite Htext in *.
  destruct (_search_item_byName_before_write root ptr'
              (match iter with
               | Some k => alter (member_insert b0) k (l_member member_item)
               | None => l_member member_item ++ [mk_Tree_Member_t (parse_value ty text) {[b0]}]
               end) nm ptr' member_item Hs) as (it' & H' & Hl).
  exists ptr', it'. split; [exact H'|]. rewrite Hl, decide_True by reflexivity.
  destruct iter as [k|].
  - apply find_if_member_Some in Hfind as (j & m & -> & Hj & Hm).
    exists j, (member_insert b0 m). cbn [Nat.add].
    rewrite list_lookup_alter_eq, Hj. cbn. split; [done|]. split; [exact Hm | set_solver].
  - exists (length (l_member member_item)), (mk_Tree_Member_t (parse_value ty text) {[b0]}).
    split; [apply lookup_snoc_Some; right; done|]. cbn.
    split; [apply Tree_Val_eq_refl, Hcmp | set_solver].
Qed.
End one_value.





(** * Further properties of the code *)

(** ** Name search *)

Lemma strcmp_eq (a b : string) : strcmp a b = 0 ↔ std_string a = std_string b.
Proof.
  revert b. induction a as [|x a IH]; intros [|y b]; cbn [strcmp std_string].
  - done.
  - destruct (Ascii.eqb y NUL); [done|]. split; [lia | discriminate].
  - destruct (Ascii.eqb x NUL); [done|]. split; [lia | discriminate].
  - destruct (Ascii.eqb_spec x y) as [->|Hxy].
    + destruct (Ascii.eqb y NUL); [done|]. rewrite IH. split; [congruence|].
      intros H. by injection H.
    + assert (Hnz : (if char_code x <? char_code y then -1 else 1) ≠ 0)
        by (destruct (_ <? _); lia).
      destruct (Ascii.eqb_spec x NUL) as [->|Hx], (Ascii.eqb_spec y NUL) as [->|Hy];
        try (split; [intros E; contradiction | discriminate]).
      * contradiction.
      * split; [intros E; contradiction | congruence].
Qed.

Lemma _search_item_byName_below (root : Tree_Item_t) (nm : string)
  (ptr : item_ptr) (it : Tree_Item_t) :
  _search_item_byName root nm = Some (ptr, it) → ptr ≠ [].
Proof.
  intros H. destruct root as [id name ms cs]. cbn in H. intros ->.
  revert H. generalize 0%nat. induction cs as [|c cs IH]; intros k H; cbn in H;
    [discriminate|].
  destruct (strcmp (str_name c) nm =? 0); [discriminate|].
  destruct (_search_item_byName c nm) as [[p i]|]; [discriminate|].
  exact (IH _ H).
Qed.

Lemma _search_item_byName_name (root : Tree_Item_t) (nm : string)
  (ptr : item_ptr) (it : Tree_Item_t) :
  _search_item_byName root nm = Some (ptr, it) →
  std_string (str_name it) = std_string nm.
Proof.
  revert ptr it.
  induction root as [id name ms cs IH] using Tree_Item_t_ind. intros ptr it. cbn.
  generalize 0%nat. induction IH as [|c cs Hc _ IHcs]; intros k H; cbn in H;
    [discriminate|].
  destruct (Z.eqb_spec (strcmp (str_name c) nm) 0) as [Heq|_].
  - injection H as _ <-. by apply strcmp_eq.
  - destruct (_search_item_byName c nm) as [[p i]|] eqn:Hs.
    + injection H as _ <-. exact (Hc p i eq_refl).
    + exact (IHcs _ H).
Qed.

(** What [_search_item_byName] returns is an item below the root whose name
    is the name asked for. *)
Theorem _search_item_byName_sound (root : Tree_Item_t) (nm : string)
  (ptr : item_ptr) (it : Tree_Item_t) :
  _search_item_byName root nm = Some (ptr, it) →
  ptr ≠ [] ∧ item_at root ptr = Some it ∧ std_string (str_name it) = std_string nm.
Proof.
  intros H. split; [|split].
  - exact (_search_item_byName_below _ _ _ _ H).
  - exact (_search_item_byName_item_at _ _ _ _ H).
  - exact (_search_item_byName_name _ _ _ _ H).
Qed.

Lemma _search_item_byName_sound_witness :
  _search_item_byName demo_tree "city" = Some ([0%nat; 1%nat], mk_Tree_Item_t 33 "city" [] [])
  ∧ std_string (str_name (mk_Tree_Item_t 33 "city" [] [])) = std_string "city".
Proof.
  assert (H : _search_item_byName demo_tree "city"
              = Some ([0%nat; 1%nat], mk_Tree_Item_t 33 "city" [] [])) by reflexivity.
  split; [exact H|].
  exact (proj2 (proj2 (_search_item_byName_sound _ _ _ _ H))).
Defined.

(** [_search_item_byName] returns null exactly when no item below the root
    has the name (the root itself is never looked at). *)
Theorem _search_item_byName_none (root : Tree_Item_t) (nm : string) :
  _search_item_byName root nm = None
  ↔ ∀ p it, p ≠ [] → item_at root p = Some it →
            std_string (str_name it) ≠ std_string nm.
Proof.
  split.
  - induction root as [id name ms cs IH] using Tree_Item_t_ind. cbn.
    generalize 0%nat. induction IH as [|c cs Hc _ IHcs]; intros k H p it Hp Hit.
    + destruct p as [|j q]; [contradiction|]. discriminate.
    + cbn in H.
      destruct (Z.eqb_spec (strcmp (str_name c) nm) 0) as [|Hne]; [discriminate|].
      destruct (_search_item_byName c nm) as [[p1 i1]|] eqn:Hs; [discriminate|].
      destruct p as [|j q]; [contradiction|]. cbn in Hit.
      destruct j as [|j]; cbn in Hit.
      * destruct q as [|j' q'].
        -- injection Hit as <-. by rewrite <- strcmp_eq.
        -- apply (Hc eq_refl (j' :: q') it); [discriminate | exact Hit].
      * apply (IHcs (S k) H (j :: q) it); [discriminate | exact Hit].
  - intros Hall. destruct (_search_item_byName root nm) as [[ptr it]|] eqn:H; [|done].
    pose proof (_search_item_byName_below _ _ _ _ H) as Hp.
    pose proof (_search_item_byName_item_at _ _ _ _ H) as Hit.
    pose proof (_search_item_byName_name _ _ _ _ H) as Hname.
    destruct (Hall ptr it Hp Hit Hname).
Qed.

(** ** Id search *)

Lemma _search_item_byId_loop_sound (root : Tree_Item_t) (n_id0 : Z) (fuel : nat) :
  ∀ (cur : Tree_Item_t) (ptr : item_ptr) (temp_id : Z) (r : outcome (option item_ptr)),
    item_at root ptr = Some cur →
    _search_item_byId_loop fuel n_id0 cur ptr temp_id = r →
    r ≠ Undefined
    ∧ ∀ p, r = Returns (Some p) →
           ∃ q it, p = ptr ++ q ∧ q ≠ [] ∧ item_at root p = Some it ∧ n_id it = n_id0.
Proof.
  induction fuel as [|fuel IH]; intros cur ptr temp_id r Hcur <-;
    cbn [_search_item_byId_loop].
  - destruct (temp_id =? 0); split; discriminate.
  - destruct (temp_id =? 0); [split; discriminate|].
    set (index := Z.land temp_id C_nMaxItem).
    destruct (Z.eqb_spec index 0) as [|Hnz]; [split; discriminate|].
    destruct (Z.gtb_spec index (Z.of_nat (length (v_childItem cur)))) as [|Hle];
      [split; discriminate|]. cbn [orb].
    assert (Hpos : 0 ≤ index) by (apply Z.land_nonneg; right; unfold C_nMaxItem; lia).
    destruct (v_childItem cur !! Z.to_nat (index - 1)) as [child|] eqn:Hchild.
    2:{ apply lookup_ge_None in Hchild. lia. }
    assert (Hat : item_at root (ptr ++ [Z.to_nat (index - 1)]) = Some child).
    { rewrite (item_at_app _ _ _ _ Hcur). cbn. by rewrite Hchild. }
    destruct (Z.eqb_spec (n_id child) n_id0) as [Heq|_].
    + split; [discriminate|]. intros p Hp. injection Hp as <-.
      exists [Z.to_nat (index - 1)], child. done.
    + destruct (IH child _ (Z.shiftr temp_id C_nCrorNum) _ Hat eq_refl) as [Hdef Hsound].
      split; [exact Hdef|]. intros p Hp.
      destruct (Hsound p Hp) as (q & it & -> & _ & Hit & Hid).
      exists (Z.to_nat (index - 1) :: q), it. rewrite <- app_assoc in *. done.
Qed.

(** On every 32-bit id [_search_item_byId] returns; for id 0 it returns the
    root, and any other item it returns lies below the root and has the id
    asked for. *)
Theorem _search_item_byId_sound (root : Tree_Item_t) (n_id0 : Z) :
  0 ≤ n_id0 < 2 ^ 32 →
  ∃ r, _search_item_byId root n_id0 = Returns r
       ∧ (n_id0 = 0 → r = Some [])
       ∧ ∀ p, r = Some p → n_id0 ≠ 0 →
              p ≠ [] ∧ ∃ it, item_at root p = Some it ∧ n_id it = n_id0.
Proof.
  intros Hr. pose proof (_search_item_byId_fuel root n_id0 Hr) as Hfuel.
  unfold _search_item_byId in *.
  destruct (Z.eqb_spec n_id0 0) as [->|Hnz].
  - exists (Some []). split; [reflexivity|]. split; [reflexivity | intros p _ H; done].
  - destruct (_search_item_byId_loop_sound root n_id0 NIBBLES root [] n_id0 _
                eq_refl eq_refl) as [Hdef Hsound].
    destruct (_search_item_byId_loop NIBBLES n_id0 root [] n_id0) as [r| |] eqn:Hrun;
      [|contradiction..].
    exists r. split; [reflexivity|]. split; [intros; contradiction|].
    intros p -> _. destruct (Hsound p eq_refl) as (q & it & -> & Hq & Hit & Hid).
    split; [cbn; exact Hq | eauto].
Qed.

Lemma _search_item_byId_sound_witness :
  0 ≤ 17 < 2 ^ 32
  ∧ ∃ r, _search_item_byId demo_tree 17 = Returns r
         ∧ (17 = 0 → r = Some [])
         ∧ ∀ p, r = Some p → 17 ≠ 0 →
                p ≠ [] ∧ ∃ it, item_at demo_tree p = Some it ∧ n_id it = 17.
Proof.
  split; [lia|]. exact (_search_item_byId_sound demo_tree 17 ltac:(lia)).
Defined.

(** In the tree built from an ordered schema every item sits at the path its
    id spells. *)
Lemma ordered_build_ids (root_node : xml_node) (ret : Z) (t : xmlTree) :
  build_tree_fromXmlFile (Some root_node) xmlTree_new = Returns (ret, t) →
  ordered_schema root_node = true →
  ∀ q c, item_at (s_rootItem t) q = Some c →
         n_id c = id_of_path q ∧ Forall (λ k, (k < 15)%nat) q
         ∧ Z.of_nat (length q) ≤ 8.
Proof.
  intros Hbuild Hord.
  unfold build_tree_fromXmlFile, _make_itemTree in Hbuild.
  cbn [s_rootItem xmlTree_new] in Hbuild.
  destruct (_make_itemTree_at root_node _ 0) as [[r root]| |] eqn:Hmake;
    cbn in Hbuild; try discriminate.
  injection Hbuild as -> <-. cbn [s_rootItem].
  assert (Hb : built true 0 (mk_Tree_Item_t 0 EmptyString [] []) root).
  { apply (_make_itemTree_at_built root_node true _ 0 ret root); [|exact Hmake].
    intros _. split; [exact Hord | reflexivity]. }
  intros q c Hq.
  destruct (built_ordered_ids 0 _ _ Hb eq_refl) with (p := q) (x := c)
    as (Hn & Hall & Hlen); [unfold C_nMaxLayer; lia | cbn; lia | exact Hq |].
  cbn [n_id] in Hn. change (16 ^ 0) with 1 in Hn. unfold C_nMaxLayer in Hlen.
  split; [lia|]. split; [exact Hall | lia].
Qed.

Lemma ordered_build_search (root_node : xml_node) (ret : Z) (t : xmlTree)
  (p : item_ptr) (it : Tree_Item_t) :
  build_tree_fromXmlFile (Some root_node) xmlTree_new = Returns (ret, t) →
  ordered_schema root_node = true →
  item_at (s_rootItem t) p = Some it → p ≠ [] →
  _search_item_byId (s_rootItem t) (n_id it) = Returns (Some p).
Proof.
  intros Hbuild Hord Hit Hp.
  pose proof (ordered_build_ids _ _ _ Hbuild Hord) as Hids.
  destruct (Hids _ _ Hit) as (Hn & _ & Hlen).
  pose proof (id_of_path_pos p Hp) as Hpos.
  unfold _search_item_byId. rewrite Hn.
  destruct (Z.eqb_spec (id_of_path p) 0) as [|_]; [lia|].
  apply (_search_item_byId_loop_finds (s_rootItem t)) with (pre := []) (tgt := it);
    [ | reflexivity | exact Hit | exact Hp | unfold NIBBLES; lia ].
  intros q c Hq. destruct (Hids q c Hq) as (Hc & Hall & _). split; assumption.
Qed.

(** In the tree built from an ordered schema, [get_itemName] on the id of an
    item below the root returns the name of that item (null when the name is
    empty). *)
Theorem get_itemName_of_built_item (root_node : xml_node) (ret : Z) (t : xmlTree)
  (p : item_ptr) (it : Tree_Item_t) :
  build_tree_fromXmlFile (Some root_node) xmlTree_new = Returns (ret, t) →
  ordered_schema root_node = true →
  item_at (s_rootItem t) p = Some it → p ≠ [] →
  get_itemName t (n_id it)
  = Returns (if decide (str_name it = EmptyString) then None else Some (str_name it)).
Proof.
  intros Hbuild Hord Hit Hp. unfold get_itemName.
  rewrite (ordered_build_search _ _ _ _ _ Hbuild Hord Hit Hp). cbn [mbind outcome_bind].
  rewrite Hit. destruct (str_name it); reflexivity.
Qed.

Lemma get_itemName_of_built_item_witness :
  build_tree_fromXmlFile (Some demo_schema) xmlTree_new
  = Returns (ERR_None, mk_xmlTree demo_tree ∅)
  ∧ ordered_schema demo_schema = true
  ∧ get_itemName (mk_xmlTree demo_tree ∅) 33 = Returns (Some "city").
Proof.
  assert (H1 : build_tree_fromXmlFile (Some demo_schema) xmlTree_new
               = Returns (ERR_None, mk_xmlTree demo_tree ∅))
    by (vm_compute; reflexivity).
  assert (H2 : ordered_schema demo_schema = true) by (vm_compute; reflexivity).
  split; [exact H1|]. split; [exact H2|].
  exact (get_itemName_of_built_item demo_schema ERR_None (mk_xmlTree demo_tree ∅)
           [0%nat; 1%nat] (mk_Tree_Item_t 33 "city" [] []) H1 H2 eq_refl
           ltac:(discriminate)).
Defined.

(** ** Values *)

Lemma memcmp_bytes_nul_terminated (a b : list ascii) :
  NUL ∉ a → NUL ∉ b →
  memcmp_bytes (a ++ [NUL]) (b ++ [NUL]) (S (length b)) = 0 ↔ a = b.
Proof.
  revert b. induction a as [|x a IH]; intros [|y b] Ha Hb; cbn [app length memcmp_bytes].
  - rewrite Ascii.eqb_refl. done.
  - apply not_elem_of_cons in Hb as [Hy _].
    destruct (Ascii.eqb_spec NUL y) as [|_]; [congruence|].
    destruct (_ <? _); split; (lia || discriminate).
  - apply not_elem_of_cons in Ha as [Hx _].
    destruct (Ascii.eqb_spec x NUL) as [|_]; [congruence|].
    destruct (_ <? _); split; (lia || discriminate).
  - apply not_elem_of_cons in Ha as [_ Ha]. apply not_elem_of_cons in Hb as [_ Hb].
    destruct (Ascii.eqb_spec x y) as [->|Hxy].
    + rewrite (IH b Ha Hb). split; [congruence | intros H; by injection H].
    + destruct (_ <? _); split; (lia || congruence).
Qed.

Lemma string_bytes_inj (a b : string) : string_bytes a = string_bytes b → a = b.
Proof.
  unfold string_bytes. intros H.
  rewrite <- (string_of_list_ascii_of_string a), <- (string_of_list_ascii_of_string b).
  by rewrite H.
Qed.

(** On two ingested strings [operator==] hands [memcmp] the length of its
    right operand, terminator included.  When the right text is not longer
    than the left one, the comparison stays inside both buffers and decides
    whether the texts are equal as C strings; when the right text is longer,
    it reads past the end of the left buffer. *)
Theorem Tree_Val_eq_strings (ty ty' a b : string) :
  _parse_strToType ty = VAL_String → _parse_strToType ty' = VAL_String →
  Tree_Val_eq (parse_value ty a) (parse_value ty' b)
  = if (String.length (std_string b) <=? String.length (std_string a))%nat
    then Returns (bool_decide (std_string a = std_string b))
    else Undefined.
Proof.
  intros Hty Hty'. unfold parse_value, _set_memberVal, Tree_Val_declared. cbn [e_type].
  rewrite Hty, Hty'. unfold Tree_Val_eq. cbn [e_type u_val n_memLen].
  rewrite decide_True by reflexivity.
  destruct (Z.leb_spec 0 (Z.of_nat (String.length (std_string b)) + 1)); [|lia].
  replace (Z.to_nat (Z.of_nat (String.length (std_string b)) + 1))
    with (S (length (string_bytes (std_string b))))
    by (rewrite length_string_bytes; lia).
  unfold memcmp. rewrite !length_app, !length_string_bytes. cbn [length].
  rewrite !Nat.add_1_r. cbn [Nat.leb]. rewrite Nat.leb_refl, andb_true_r.
  destruct (String.length (std_string b) <=? String.length (std_string a))%nat;
    [|reflexivity].
  cbn [mbind outcome_bind]. f_equal.
  pose proof (memcmp_bytes_nul_terminated (string_bytes (std_string a))
                (string_bytes (std_string b)) (std_string_no_NUL a) (std_string_no_NUL b))
    as Hiff.
  rewrite length_string_bytes in Hiff.
  destruct (Z.eqb_spec (memcmp_bytes (string_bytes (std_string a) ++ [NUL])
                          (string_bytes (std_string b) ++ [NUL])
                          (S (String.length (std_string b)))) 0) as [Hc|Hc].
  - symmetry. apply bool_decide_eq_true_2, string_bytes_inj, Hiff, Hc.
  - symmetry. apply bool_decide_eq_false_2. intros E. apply Hc, Hiff. by rewrite E.
Qed.

Lemma Tree_Val_eq_strings_witness :
  Tree_Val_eq (parse_value "string" "Bobby") (parse_value "string" "Bob") = Returns false
  ∧ Tree_Val_eq (parse_value "string" "Bob") (parse_value "string" "Bobby") = Undefined.
Proof.
  split.
  - exact (Tree_Val_eq_strings "string" "string" "Bobby" "Bob" eq_refl eq_refl).
  - exact (Tree_Val_eq_strings "string" "string" "Bob" "Bobby" eq_refl eq_refl).
Defined.

(** [_parse_strToType] maps the four names of the table to their tags and
    every other name to [VAL_NUM], the count of the enumeration. *)
Theorem _parse_strToType_table (str_type : string) :
  _parse_strToType str_type
  = if decide (std_string str_type = EmptyString) then VAL_None
    else if decide (std_string str_type = "int") then VAL_Int
    else if decide (std_string str_type = "string") then VAL_String
    else if decide (std_string str_type = "double") then VAL_Double
    else VAL_NUM.
Proof.
  unfold _parse_strToType, C_arrValTypeStr. cbn [_parse_strToType_loop].
  destruct (Z.eqb_spec (strcmp EmptyString str_type) 0) as [E|E];
    rewrite strcmp_eq in E; change (std_string EmptyString) with EmptyString in E.
  { rewrite decide_True by congruence. reflexivity. }
  rewrite decide_False by congruence.
  destruct (Z.eqb_spec (strcmp "int" str_type) 0) as [E1|E1];
    rewrite strcmp_eq in E1; change (std_string "int") with "int" in E1.
  { rewrite decide_True by congruence. reflexivity. }
  rewrite decide_False by congruence.
  destruct (Z.eqb_spec (strcmp "string" str_type) 0) as [E2|E2];
    rewrite strcmp_eq in E2; change (std_string "string") with "string" in E2.
  { rewrite decide_True by congruence. reflexivity. }
  rewrite decide_False by congruence.
  destruct (Z.eqb_spec (strcmp "double" str_type) 0) as [E3|E3];
    rewrite strcmp_eq in E3; change (std_string "double") with "double" in E3.
  { rewrite decide_True by congruence. reflexivity. }
  rewrite decide_False by congruence. reflexivity.
Qed.

(** ** What the return code of schema construction tells *)

Lemma size_index_set (s : gset Z) :
  (∀ x, x ∈ s → 1 ≤ x ≤ 15) → (size s ≤ 15)%nat.
Proof.
  intros Hs.
  assert (Hsub : s ⊆ list_to_set (seqZ 1 15)).
  { intros x Hx. apply elem_of_list_to_set, elem_of_seqZ. specialize (Hs x Hx). lia. }
  apply subseteq_size in Hsub.
  assert (Hsz : size (list_to_set (seqZ 1 15) : gset Z) = 15%nat)
    by (vm_compute; reflexivity).
  lia.
Qed.

Lemma siblings_legal_skip (c : xml_node) (rest : list xml_node) (used : gset Z) :
  is_item c = false → siblings_legal rest used → siblings_legal (c :: rest) used.
Proof.
  unfold siblings_legal. cbn [sibling_indices forallb]. intros ->. cbn. done.
Qed.

Lemma shallow_below_push (l : Z) (mid c : Tree_Item_t) :
  shallow_below l mid →
  (∀ q x, item_at c q = Some x → l + 1 + Z.of_nat (length q) < C_nMaxLayer) →
  shallow_below l (push_child mid c).
Proof.
  intros Hmid Hc k c0 q x Hk Hq.
  assert (Hv : v_childItem (push_child mid c) = v_childItem mid ++ [c])
    by (destruct mid; reflexivity).
  rewrite Hv in Hk. apply lookup_snoc_Some in Hk as [[_ Hk]|[_ <-]].
  - exact (Hmid k c0 q x Hk Hq).
  - exact (Hc q x Hq).
Qed.

Lemma _make_itemTree_loop_success (l : Z) (siblings : list xml_node) :
  Forall success_below siblings →
  ∀ st st',
    _make_itemTree_loop _make_itemTree_at l siblings st = Returns st' →
    make_state_ok st →
    make_state_ok st'
    ∧ (mk_last_err st' = 0 → mk_cnt_item st' = mk_cnt_legalItem st' →
       mk_last_err st = 0
       ∧ mk_cnt_item st = mk_cnt_legalItem st
       ∧ siblings_legal siblings (mk_index_set st)
       ∧ mk_cnt_item st' = mk_cnt_item st + Z.of_nat (length (item_nodes siblings))
       ∧ (shallow_below l (mk_item_parent st) → shallow_below l (mk_item_parent st'))).
Proof.
  induction 1 as [|child rest Hchild _ IH]; intros st st' Hrun Hok.
  - cbn in Hrun. injection Hrun as <-. split; [exact Hok|]. intros H0 Hcnt.
    split; [exact H0|]. split; [exact Hcnt|]. split; [|split; [cbn; lia | done]].
    unfold siblings_legal. cbn. split; [done|]. split; [constructor|].
    split; [|done]. intros x _ Hin. by apply elem_of_nil in Hin.
  - cbn [_make_itemTree_loop] in Hrun.
    destruct (negb (node_name child =? C_strItemTag)%string) eqn:Htag.
    { apply negb_true_iff in Htag.
      destruct (IH st st' Hrun Hok) as [Hok' Hpost]. split; [exact Hok'|].
      intros H0 Hcnt. destruct (Hpost H0 Hcnt) as (H1 & H2 & H3 & H4 & H5).
      split; [exact H1|]. split; [exact H2|].
      split; [by apply siblings_legal_skip|]. split; [|exact H5].
      rewrite H4. unfold item_nodes. rewrite filter_cons_False; [reflexivity|].
      unfold is_item. rewrite Htag. discriminate. }
    apply negb_false_iff in Htag.
    destruct Hok as (Hret & Herr & Hsize & Hrange & Hle).
    pose proof (size_index_set _ Hrange) as Hbound.
    destruct (mk_cnt_item st >? C_nMaxItem) eqn:Hcnt.
    { injection Hrun as <-. cbn. unfold C_nMaxItem in Hcnt.
      split; [unfold make_state_ok, ERR_OverItem; cbn;
              split; [lia | split; [lia | split; [lia | split; [exact Hrange | lia]]]]|].
      intros _ Heq. lia. }
    assert (Hcnt' : mk_cnt_item st ≤ 15) by (unfold C_nMaxItem in Hcnt; lia).
    assert (Hitems : Z.of_nat (length (item_nodes (child :: rest)))
                     = 1 + Z.of_nat (length (item_nodes rest))).
    { unfold item_nodes. rewrite filter_cons_True by exact Htag.
      cbn [length]. lia. }
    assert (Hfail : ∀ ret0 st'',
              st'' = mk_make_state ret0 (mk_last_err st) (mk_cnt_item st + 1)
                       (mk_cnt_legalItem st) (mk_index_set st) (mk_item_parent st) →
              0 < ret0 →
              _make_itemTree_loop _make_itemTree_at l rest st'' = Returns st' →
              make_state_ok st'
              ∧ (mk_last_err st' = 0 → mk_cnt_item st' = mk_cnt_legalItem st' → False)).
    { intros ret0 st'' -> Hret0 Hrun'.
      destruct (IH _ st' Hrun') as [Hok' Hpost].
      { unfold make_state_ok; cbn.
        split; [lia | split; [lia | split; [lia | split; [exact Hrange | lia]]]]. }
      split; [exact Hok'|]. intros H0 Heq.
      destruct (Hpost H0 Heq) as (_ & Heq' & _). cbn in Heq'. lia. }
    destruct (first_attribute (node_attributes child) C_strIndexTag) as [v|] eqn:Hattr.
    2:{ destruct (Hfail ERR_NoXmlAttr _ eq_refl ltac:(unfold ERR_NoXmlAttr; lia) Hrun) as [Hok' Hno].
        split; [exact Hok'|]. intros H0 Heq. destruct (Hno H0 Heq). }
    cbn zeta in Hrun.
    match type of Hrun with
    | (if ?c then _ else _) = _ => destruct c eqn:Hlegal
    end.
    2:{ destruct (Hfail ERR_IllegalIndex _ eq_refl ltac:(unfold ERR_IllegalIndex; lia) Hrun)
          as [Hok' Hno].
        split; [exact Hok'|]. intros H0 Heq. destruct (Hno H0 Heq). }
    apply andb_true_iff in Hlegal as [Hlegal Hfresh].
    apply andb_true_iff in Hlegal as [Hnz Hidx].
    apply negb_true_iff, Z.eqb_neq in Hnz. apply Z.leb_le in Hidx.
    apply bool_decide_eq_true_1 in Hfresh.
    pose proof (to_uint32_range (strtol v)) as Hu.
    set (idx := to_uint32 (strtol v)) in *.
    destruct (first_attribute (node_attributes child) C_strNameTag) as [nm|] eqn:Hname;
      [|discriminate].
    destruct (_make_itemTree_at child _ (l + 1)) as [[r c']| |] eqn:Hrec;
      cbn in Hrun; try discriminate.
    destruct (Hchild _ _ _ _ Hrec) as [Hr Hsucc].
    destruct (IH _ st' Hrun) as [Hok' Hpost].
    { unfold make_state_ok, ERR_IllegalIndex; cbn.
      split; [lia | split; [|split; [|split]]].
      - apply Z.lor_nonneg. lia.
      - rewrite size_union by set_solver. rewrite size_singleton. lia.
      - intros x Hx. apply elem_of_union in Hx as [Hx|Hx].
        + apply elem_of_singleton in Hx. unfold C_nMaxItem in Hidx. lia.
        + exact (Hrange x Hx).
      - lia. }
    split; [exact Hok'|]. intros H0 Heq.
    destruct (Hpost H0 Heq) as (Hlor & Heq' & Hleg & Hcount & Hshallow). cbn in *.
    apply Z.lor_eq_0_iff in Hlor as [Hlast ->].
    destruct (Hsucc eq_refl) as (Hl1 & Hlegal_child & _ & Hdepth).
    split; [exact Hlast|]. split; [lia|]. split; [|split].
    + destruct Hleg as (Hall & Hnodup & Hused & Hnames).
      unfold siblings_legal. cbn [sibling_indices forallb].
      assert (Hit : is_item child = true) by exact Htag.
      rewrite Hit, Hattr. fold idx. cbn [forallb negb orb].
      rewrite Hall, Hnames, Hlegal_child, Hname.
      assert (Hin : Some idx ∉ sibling_indices rest)
        by (apply (Hused idx); set_solver).
      split; [|split; [|split]].
      * assert (legal_index (Some idx) = true) as ->; [|reflexivity].
        unfold legal_index. unfold C_nMaxItem in Hidx.
        apply andb_true_intro; split; apply Z.leb_le; lia.
      * constructor; assumption.
      * intros x Hx Hin'. apply elem_of_cons in Hin' as [E|Hin'].
        -- injection E as ->. contradiction.
        -- apply (Hused x); [set_solver | exact Hin'].
      * rewrite bool_decide_eq_true_2 by eauto. reflexivity.
    + rewrite Hcount, Hitems. lia.
    + intros Hsh. apply Hshallow. apply shallow_below_push; [exact Hsh|].
      intros q x Hq. specialize (Hdepth eq_refl q x Hq). lia.
Qed.

Lemma _make_itemTree_at_success (node : xml_node) : success_below node.
Proof.
  induction node as [nm attrs val children IH] using xml_node_ind.
  intros it l r it' Hrun. cbn [_make_itemTree_at] in Hrun.
  destruct (Z.ltb_spec l C_nMaxLayer) as [Hl|Hl].
  2:{ injection Hrun as <- <-. split; [unfold ERR_OverLayer; lia | discriminate]. }
  destruct (bool_decide (children = []) && (l >? 0)) eqn:Hleaf.
  { injection Hrun as <- <-. split; [unfold ERR_None; lia|]. intros _.
    apply andb_true_iff in Hleaf as [Hnil Hpos]. apply bool_decide_eq_true_1 in Hnil.
    subst children. split; [exact Hl|]. split; [reflexivity|]. split; [lia|].
    intros Hno [|k q] x Hx; cbn in Hx.
    - cbn. lia.
    - rewrite Hno in Hx. discriminate. }
  destruct (_make_itemTree_loop _ l children _) as [st| |] eqn:Hloop;
    cbn in Hrun; try discriminate.
  destruct (_make_itemTree_loop_success l children IH _ st Hloop) as [Hok Hpost].
  { unfold make_state_ok, ERR_NoXmlNode, ERR_None; cbn.
    split; [lia | split; [lia | split; [reflexivity | split; [|lia]]]].
    intros x Hx. by apply not_elem_of_empty in Hx. }
  destruct Hok as (Hret & Herr & _).
  destruct (negb (mk_cnt_item st =? 0) && (mk_cnt_item st =? mk_cnt_legalItem st))
    eqn:Hcond; injection Hrun as <- <-.
  2:{ split; [lia | intros; lia]. }
  split; [exact Herr|]. intros H0.
  apply andb_true_iff in Hcond as [Hnz Heq].
  apply negb_true_iff, Z.eqb_neq in Hnz. apply Z.eqb_eq in Heq.
  destruct (Hpost H0 Heq) as (_ & _ & Hleg & Hcount & Hshallow).
  cbn [mk_cnt_item mk_cnt_legalItem mk_index_set mk_item_parent mk_last_err
       node_children] in *.
  split; [exact Hl|]. split; [|split].
  - destruct Hleg as (Hall & Hnodup & _ & Hnames). cbn [legal_schema].
    rewrite Hall, Hnames, bool_decide_eq_true_2 by exact Hnodup. reflexivity.
  - intros _ Hnone. rewrite Hnone in Hcount. cbn in Hcount. lia.
  - intros Hno [|k q] x Hx; [cbn; lia|]. cbn in Hx.
    destruct (v_childItem (mk_item_parent st) !! k) as [c|] eqn:Hc; [|discriminate].
    assert (Hsh : shallow_below l it).
    { intros k0 c0 q0 x0 Hk0. rewrite Hno in Hk0. discriminate. }
    specialize (Hshallow Hsh k c q x Hc Hx). cbn [length].
    unfold C_nMaxLayer in *. lia.
Qed.

(** When [build_tree_fromXmlFile] returns [ERR_None], the schema document is
    legal as far as the builder visits it: among the children of the root
    node, and in turn of every item node reached this way, every item node
    has a name and an index in 1..15 that no sibling item node shares; and
    the root node has an item node.  (Item nodes below a node with another
    tag are never visited, so nothing is said of them.) *)
Theorem build_success_legal (root_node : xml_node) (t : xmlTree) :
  build_tree_fromXmlFile (Some root_node) xmlTree_new = Returns (ERR_None, t) →
  legal_schema root_node = true ∧ item_nodes (node_children root_node) ≠ [].
Proof.
  unfold build_tree_fromXmlFile, _make_itemTree. cbn [s_rootItem xmlTree_new].
  destruct (_make_itemTree_at root_node _ 0) as [[r root]| |] eqn:Hmake;
    cbn; try discriminate.
  intros H. injection H as -> <-.
  destruct (_make_itemTree_at_success root_node _ _ _ _ Hmake) as [_ Hsucc].
  destruct (Hsucc eq_refl) as (_ & Hlegal & Hitems & _).
  split; [exact Hlegal | exact (Hitems eq_refl)].
Qed.

Lemma build_success_legal_witness :
  build_tree_fromXmlFile (Some demo_schema) xmlTree_new
  = Returns (ERR_None, mk_xmlTree demo_tree ∅)
  ∧ legal_schema demo_schema = true.
Proof.
  assert (H : build_tree_fromXmlFile (Some demo_schema) xmlTree_new
              = Returns (ERR_None, mk_xmlTree demo_tree ∅))
    by (vm_compute; reflexivity).
  split; [exact H | exact (proj1 (build_success_legal demo_schema _ H))].
Defined.

(** When [build_tree_fromXmlFile] returns [ERR_None], every item of the tree
    lies at most 7 layers below the root: the call for the children of an
    item at layer 8 returns [ERR_OverLayer] even when there are none. *)
Theorem build_success_depth (root_node : xml_node) (t : xmlTree)
  (p : item_ptr) (it : Tree_Item_t) :
  build_tree_fromXmlFile (Some root_node) xmlTree_new = Returns (ERR_None, t) →
  item_at (s_rootItem t) p = Some it →
  (length p ≤ 7)%nat.
Proof.
  unfold build_tree_fromXmlFile, _make_itemTree. cbn [s_rootItem xmlTree_new].
  destruct (_make_itemTree_at root_node _ 0) as [[r root]| |] eqn:Hmake;
    cbn; try discriminate.
  intros H. injection H as -> <-. cbn [s_rootItem]. intros Hit.
  destruct (_make_itemTree_at_success root_node _ _ _ _ Hmake) as [_ Hsucc].
  destruct (Hsucc eq_refl) as (_ & _ & _ & Hdepth).
  specialize (Hdepth eq_refl p it Hit). unfold C_nMaxLayer in Hdepth. lia.
Qed.

Lemma build_success_depth_witness :
  build_tree_fromXmlFile (Some demo_schema) xmlTree_new
  = Returns (ERR_None, mk_xmlTree demo_tree ∅)
  ∧ (length [0%nat; 1%nat] ≤ 7)%nat.
Proof.
  assert (H : build_tree_fromXmlFile (Some demo_schema) xmlTree_new
              = Returns (ERR_None, mk_xmlTree demo_tree ∅))
    by (vm_compute; reflexivity).
  split; [exact H|].
  exact (build_success_depth demo_schema (mk_xmlTree demo_tree ∅) [0%nat; 1%nat]
           (mk_Tree_Item_t 33 "city" [] []) H eq_refl).
Defined.

(** A chain of 8 nested item nodes, each legal, is refused. *)
Example eight_layers_refused :
  build_tree_fromXmlFile
    (Some (xml_root
       [xml_item "1" "a" [xml_item "1" "b" [xml_item "1" "c" [xml_item "1" "d"
         [xml_item "1" "e" [xml_item "1" "f" [xml_item "1" "g"
           [xml_item "1" "h" []]]]]]]]]))
    xmlTree_new
  = Returns (ERR_OverLayer,
             mk_xmlTree
               (mk_Tree_Item_t 0 EmptyString []
                  [mk_Tree_Item_t 1 "a" [] [mk_Tree_Item_t 17 "b" []
                    [mk_Tree_Item_t 273 "c" [] [mk_Tree_Item_t 4369 "d" []
                      [mk_Tree_Item_t 69905 "e" [] [mk_Tree_Item_t 1118481 "f" []
                        [mk_Tree_Item_t 17895697 "g" []
                          [mk_Tree_Item_t 286331153 "h" [] []]]]]]]]]) ∅).
Proof. vm_compute. reflexivity. Qed.

(** ** Error codes of one level of schema construction *)

Lemma _make_itemTree_loop_no_items (rec : xml_node → Tree_Item_t → Z → outcome (Z * Tree_Item_t))
  (l : Z) (siblings : list xml_node) (st : make_state) :
  item_nodes siblings = [] →
  _make_itemTree_loop rec l siblings st = Returns st.
Proof.
  induction siblings as [|c rest IH]; [reflexivity|]. unfold item_nodes.
  intros H. cbn [_make_itemTree_loop].
  destruct (decide (is_item c = true)) as [Hc|Hc].
  - rewrite filter_cons_True in H by exact Hc. discriminate.
  - rewrite filter_cons_False in H by exact Hc.
    unfold is_item in Hc. apply not_true_is_false in Hc. rewrite Hc. cbn.
    exact (IH H).
Qed.

(** A node without item-tagged children yields [ERR_NoXmlNode] and leaves the
    item untouched, unless it has no children at all and lies below layer 0,
    where it yields [ERR_None]: so the root must hold an item node, and an
    item node that holds only text or other nodes fails the construction. *)
Theorem _make_itemTree_without_items
  (nm : string) (attrs : list (string * string)) (val : string)
  (children : list xml_node) (item_parent : Tree_Item_t) (n_layer : Z) :
  n_layer < C_nMaxLayer →
  item_nodes children = [] →
  _make_itemTree (Some (XmlNode nm attrs val children)) item_parent n_layer
  = Returns (if bool_decide (children = []) && (n_layer >? 0)
             then ERR_None else ERR_NoXmlNode, item_parent).
Proof.
  intros Hl Hnone. unfold _make_itemTree. cbn [_make_itemTree_at].
  destruct (Z.ltb_spec n_layer C_nMaxLayer) as [_|]; [|lia].
  destruct (bool_decide (children = []) && (n_layer >? 0)); [reflexivity|].
  rewrite (_make_itemTree_loop_no_items _ _ _ _ Hnone). reflexivity.
Qed.

Lemma _make_itemTree_without_items_witness :
  _make_itemTree (Some (xml_item "1" "a" [XmlNode EmptyString [] "text" []]))
    (mk_Tree_Item_t 1 "a" [] []) 1
  = Returns (ERR_NoXmlNode, mk_Tree_Item_t 1 "a" [] []).
Proof.
  exact (_make_itemTree_without_items C_strItemTag _ _ [XmlNode EmptyString [] "text" []]
           (mk_Tree_Item_t 1 "a" [] []) 1 ltac:(unfold C_nMaxLayer; lia) eq_refl).
Defined.

Lemma _make_itemTree_loop_over_item (l : Z) (siblings : list xml_node) :
  ∀ st st',
    _make_itemTree_loop _make_itemTree_at l siblings st = Returns st' →
    mk_cnt_item st ≤ 16 →
    17 ≤ mk_cnt_item st + Z.of_nat (length (item_nodes siblings)) →
    mk_ret st' = ERR_OverItem ∧ mk_cnt_item st' = 16.
Proof.
  induction siblings as [|child rest IH]; intros st st' Hrun Hle Hmany.
  - cbn in Hmany. lia.
  - cbn [_make_itemTree_loop] in Hrun. unfold item_nodes in Hmany.
    destruct (negb (node_name child =? C_strItemTag)%string) eqn:Htag.
    { apply negb_true_iff in Htag.
      rewrite filter_cons_False in Hmany by (unfold is_item; rewrite Htag; discriminate).
      exact (IH _ _ Hrun Hle Hmany). }
    apply negb_false_iff in Htag.
    rewrite filter_cons_True in Hmany by exact Htag. cbn [length] in Hmany.
    fold (item_nodes rest) in Hmany.
    destruct (Z.gtb_spec (mk_cnt_item st) C_nMaxItem) as [Hgt|Hngt].
    { injection Hrun as <-. cbn. unfold C_nMaxItem in Hgt. split; [reflexivity | lia]. }
    unfold C_nMaxItem in Hngt.
    destruct (first_attribute (node_attributes child) C_strIndexTag) as [v|].
    2:{ apply (IH _ _ Hrun); cbn [mk_cnt_item]; lia. }
    cbn zeta in Hrun.
    match type of Hrun with
    | (if ?c then _ else _) = _ => destruct c
    end.
    2:{ apply (IH _ _ Hrun); cbn [mk_cnt_item]; lia. }
    destruct (first_attribute (node_attributes child) C_strNameTag) as [nm|];
      [|discriminate].
    destruct (_make_itemTree_at child _ (l + 1)) as [[r c']| |];
      cbn in Hrun; try discriminate.
    apply (IH _ _ Hrun); cbn [mk_cnt_item]; lia.
Qed.

(** A node with 17 or more item-tagged children yields [ERR_OverItem],
    whatever their attributes (provided the call returns). *)
Theorem _make_itemTree_over_item
  (nm : string) (attrs : list (string * string)) (val : string)
  (children : list xml_node) (item_parent : Tree_Item_t) (n_layer : Z)
  (r : Z) (item' : Tree_Item_t) :
  n_layer < C_nMaxLayer →
  (17 ≤ length (item_nodes children))%nat →
  _make_itemTree (Some (XmlNode nm attrs val children)) item_parent n_layer
  = Returns (r, item') →
  r = ERR_OverItem.
Proof.
  intros Hl Hmany. unfold _make_itemTree. cbn [_make_itemTree_at].
  destruct (Z.ltb_spec n_layer C_nMaxLayer) as [_|]; [|lia].
  destruct children as [|c0 children0] eqn:Hch; [cbn in Hmany; lia|].
  rewrite bool_decide_eq_false_2 by discriminate. cbn [andb]. rewrite <- Hch in *.
  destruct (_make_itemTree_loop _ n_layer children _) as [st| |] eqn:Hloop;
    cbn; try discriminate.
  destruct (_make_itemTree_loop_over_item _ _ _ _ Hloop) as [Hret Hcnt];
    [cbn; lia | cbn; lia |].
  destruct (_make_itemTree_loop_success n_layer children) with (2 := Hloop)
    as [(_ & _ & Hsize & Hrange & _) _].
  { apply Forall_forall. intros x _. apply _make_itemTree_at_success. }
  { unfold make_state_ok, ERR_NoXmlNode, ERR_None; cbn.
    split; [lia | split; [lia | split; [reflexivity | split; [|lia]]]].
    intros x Hx. by apply not_elem_of_empty in Hx. }
  pose proof (size_index_set _ Hrange) as Hbound.
  destruct (Z.eqb_spec (mk_cnt_item st) (mk_cnt_legalItem st)) as [Heq|_]; [lia|].
  rewrite andb_false_r. intros H. injection H as <- _. exact Hret.
Qed.

Lemma _make_itemTree_over_item_witness :
  ∃ item', _make_itemTree (Some crowded_schema) (s_rootItem xmlTree_new) 0
           = Returns (ERR_OverItem, item').
Proof.
  assert (H : ∃ r item', _make_itemTree (Some crowded_schema) (s_rootItem xmlTree_new) 0
                         = Returns (r, item'))
    by (vm_compute; eauto).
  destruct H as (r & item' & H). exists item'. rewrite H.
  rewrite (_make_itemTree_over_item "Root" [] EmptyString
             (map (fun _ : nat => xml_item "1" "x" []) (seq 0 17))
             (s_rootItem xmlTree_new) 0 r item'
             ltac:(unfold C_nMaxLayer; lia) ltac:(vm_compute; lia) H).
  reflexivity.
Defined.

(** ** C3: items that are not stored at the position of their index *)

Lemma child_id_top (idx : Z) : 1 ≤ idx ≤ C_nMaxItem → child_id idx 0 0 = idx.
Proof.
  intros H. rewrite child_id_add; change (16 ^ 0) with 1;
    [lia | unfold C_nMaxLayer; lia | exact H | lia].
Qed.

(** The loop of [_make_itemTree] at layer 0 below an item of id 0 gives its
    children the indices of their nodes as ids, each once. *)
Lemma _make_itemTree_loop_top_ids (siblings : list xml_node) :
  ∀ st st',
    _make_itemTree_loop _make_itemTree_at 0 siblings st = Returns st' →
    n_id (mk_item_parent st) = 0 →
    top_ids_distinct (mk_item_parent st) (mk_index_set st) →
    top_ids_distinct (mk_item_parent st') (mk_index_set st').
Proof.
  induction siblings as [|child rest IH]; intros st st' Hrun Hid Hinv.
  - cbn in Hrun. by injection Hrun as <-.
  - cbn [_make_itemTree_loop] in Hrun.
    destruct (negb (node_name child =? C_strItemTag)%string);
      [exact (IH _ _ Hrun Hid Hinv)|].
    destruct (mk_cnt_item st >? C_nMaxItem).
    { injection Hrun as <-. exact Hinv. }
    destruct (first_attribute (node_attributes child) C_strIndexTag) as [v|].
    2:{ exact (IH _ _ Hrun Hid Hinv). }
    cbn zeta in Hrun.
    match type of Hrun with
    | (if ?c then _ else _) = _ => destruct c eqn:Hlegal
    end.
    2:{ exact (IH _ _ Hrun Hid Hinv). }
    apply andb_true_iff in Hlegal as [Hlegal Hfree].
    apply andb_true_iff in Hlegal as [Hnz Hle].
    apply negb_true_iff, Z.eqb_neq in Hnz. apply Z.leb_le in Hle.
    apply bool_decide_eq_true_1 in Hfree.
    pose proof (to_uint32_range (strtol v)) as Hrange.
    destruct (first_attribute (node_attributes child) C_strNameTag) as [nm|];
      [|discriminate].
    destruct (_make_itemTree_at child _ (0 + 1)) as [[r c']| |] eqn:Hrec;
      cbn in Hrun; try discriminate.
    assert (Hc' : n_id c' = to_uint32 (strtol v)).
    { pose proof (_make_itemTree_at_built child false _ _ _ _
                    ltac:(discriminate) Hrec) as Hb.
      rewrite (proj1 (built_n_id _ _ _ _ Hb)). cbn [n_id]. rewrite Hid.
      apply child_id_top. unfold C_nMaxItem in *. lia. }
    apply (IH _ _ Hrun); cbn [mk_item_parent mk_index_set].
    + by rewrite n_id_push_child.
    + assert (Hv : v_childItem (push_child (mk_item_parent st) c')
                   = v_childItem (mk_item_parent st) ++ [c'])
        by (destruct (mk_item_parent st); reflexivity).
      intros j c Hj. rewrite Hv in Hj.
      apply lookup_snoc_Some in Hj as [[Hlt Hj]|[-> <-]].
      * destruct (Hinv j c Hj) as (Hr & Hin & Huniq).
        split; [exact Hr|]. split; [set_solver|].
        intros j' c0 Hj' Heq. rewrite Hv in Hj'.
        apply lookup_snoc_Some in Hj' as [[_ Hj']|[_ <-]]; [exact (Huniq j' c0 Hj' Heq)|].
        exfalso. apply Hfree. rewrite <- Hc', Heq. exact Hin.
      * rewrite Hc'. split; [unfold C_nMaxItem in *; lia|]. split; [set_solver|].
        intros j' c0 Hj' Heq. rewrite Hv in Hj'.
        apply lookup_snoc_Some in Hj' as [[_ Hj']|[Hlen _]]; [|exact Hlen].
        exfalso. destruct (Hinv j' c0 Hj') as (_ & Hin & _).
        apply Hfree. rewrite <- Heq. exact Hin.
Qed.

(** A child of the root whose id is not its position plus one is not found
    by its id, when the children of the root carry distinct ids in 1..15. *)
Lemma _search_item_byId_misplaced (root : Tree_Item_t) (used : gset Z) (k : nat)
  (it : Tree_Item_t) :
  top_ids_distinct root used →
  v_childItem root !! k = Some it →
  n_id it ≠ Z.of_nat k + 1 →
  _search_item_byId root (n_id it) = Returns None.
Proof.
  intros Hinv Hk Hne. destruct (Hinv k it Hk) as (Hr & _ & Huniq).
  unfold _search_item_byId, NIBBLES.
  destruct (Z.eqb_spec (n_id it) 0) as [|_]; [lia|].
  cbn [_search_item_byId_loop].
  destruct (Z.eqb_spec (n_id it) 0) as [|_]; [lia|].
  assert (Hland : Z.land (n_id it) C_nMaxItem = n_id it).
  { unfold C_nMaxItem.
    refine (eq_trans (Z.land_ones (n_id it) 4 ltac:(lia)) _).
    apply Z.mod_small. change (2 ^ 4) with 16. lia. }
  rewrite Hland.
  destruct (Z.eqb_spec (n_id it) 0) as [|_]; [lia|]. cbn [orb].
  destruct (Z.gtb_spec (n_id it) (Z.of_nat (length (v_childItem root)))) as [|Hin];
    [reflexivity|].
  destruct (v_childItem root !! Z.to_nat (n_id it - 1)) as [child|] eqn:Hchild.
  2:{ apply lookup_ge_None in Hchild. lia. }
  destruct (Z.eqb_spec (n_id child) (n_id it)) as [Heq|_].
  { pose proof (Huniq _ _ Hchild Heq). lia. }
  assert (Hsh : Z.shiftr (n_id it) C_nCrorNum = 0).
  { unfold C_nCrorNum. rewrite Z.shiftr_div_pow2 by lia. change (2 ^ 4) with 16.
    apply Z.div_small. lia. }
  rewrite Hsh. reflexivity.
Qed.

(** C3 (the code departs from the claim).  When [build_tree_fromXmlFile]
    accepts a schema document, the document is legal and the items below the
    root are stored in document order, whatever their indices.  An item
    below the root whose index is not its position among the item nodes,
    counted from 1, is then not reached by decoding its own id from the
    root: [_search_item_byId] returns null, and so does [get_itemName]. *)
Theorem C3_misplaced_item_not_found
  (root_node : xml_node) (t : xmlTree) (k : nat) (it : Tree_Item_t) :
  build_tree_fromXmlFile (Some root_node) xmlTree_new = Returns (ERR_None, t) →
  v_childItem (s_rootItem t) !! k = Some it →
  n_id it ≠ Z.of_nat k + 1 →
  legal_schema root_node = true
  ∧ 1 ≤ n_id it ≤ 15
  ∧ _search_item_byId (s_rootItem t) (n_id it) = Returns None
  ∧ get_itemName t (n_id it) = Returns None.
Proof.
  intros Hbuild Hk Hne.
  assert (Hlegal : legal_schema root_node = true).
  { revert Hbuild. unfold build_tree_fromXmlFile, _make_itemTree.
    cbn [s_rootItem xmlTree_new].
    destruct (_make_itemTree_at root_node _ 0) as [[r root]| |] eqn:Hmake;
      cbn; try discriminate.
    intros H. injection H as -> _.
    destruct (_make_itemTree_at_success root_node _ _ _ _ Hmake) as [_ Hsucc].
    exact (proj1 (proj2 (Hsucc eq_refl))). }
  split; [exact Hlegal|].
  unfold build_tree_fromXmlFile, _make_itemTree in Hbuild.
  cbn [s_rootItem xmlTree_new] in Hbuild.
  destruct root_node as [rname rattrs rval children].
  cbn [_make_itemTree_at] in Hbuild.
  change (0 <? C_nMaxLayer) with true in Hbuild.
  change (0 >? 0) with false in Hbuild. rewrite andb_false_r in Hbuild.
  destruct (_make_itemTree_loop _make_itemTree_at 0 children _) as [st| |] eqn:Hloop;
    cbn in Hbuild; try discriminate.
  assert (Hroot : s_rootItem t = mk_item_parent st).
  { destruct (negb (mk_cnt_item st =? 0) && (mk_cnt_item st =? mk_cnt_legalItem st));
      cbn in Hbuild; injection Hbuild as _ <-; reflexivity. }
  rewrite Hroot in *.
  assert (Hinv : top_ids_distinct (mk_item_parent st) (mk_index_set st)).
  { apply (_make_itemTree_loop_top_ids children _ _ Hloop); [reflexivity|].
    intros j c Hj. cbn in Hj. by rewrite lookup_nil in Hj. }
  pose proof (_search_item_byId_misplaced _ _ _ _ Hinv Hk Hne) as Hsearch.
  split; [exact (proj1 (Hinv k it Hk))|]. split; [exact Hsearch|].
  unfold get_itemName. rewrite Hroot, Hsearch. reflexivity.
Qed.

(** A schema whose two top-level items carry the legal, distinct indices 2
    and 1 in this order is built without error; the first item gets id 2 and
    sits at position 0, and neither the search by id nor [get_itemName]
    finds it. *)
Lemma C3_misplaced_item_not_found_witness :
  legal_schema swapped_schema = true
  ∧ ∃ t, build_tree_fromXmlFile (Some swapped_schema) xmlTree_new = Returns (ERR_None, t)
         ∧ v_childItem (s_rootItem t) !! 0%nat = Some (mk_Tree_Item_t 2 "a" [] [])
         ∧ _search_item_byId (s_rootItem t) 2 = Returns None
         ∧ get_itemName t 2 = Returns None.
Proof.
  split; [vm_compute; reflexivity|].
  assert (H1 : ∃ t, build_tree_fromXmlFile (Some swapped_schema) xmlTree_new
                    = Returns (ERR_None, t)
                    ∧ v_childItem (s_rootItem t) !! 0%nat
                      = Some (mk_Tree_Item_t 2 "a" [] []))
    by (eexists; split; vm_compute; reflexivity).
  destruct H1 as (t & H1 & H2). exists t. split; [exact H1|]. split; [exact H2|].
  exact (proj2 (proj2 (C3_misplaced_item_not_found swapped_schema t 0%nat
                         (mk_Tree_Item_t 2 "a" [] []) H1 H2 ltac:(cbn; lia)))).
Defined.

(** ** Deletion, member by member *)

Lemma remove_batch_absent (b : Z) (m : Tree_Member_t) :
  b ∉ set_batchIndex m → remove_batch b m = m.
Proof.
  intros Hb. destruct m as [v s]. unfold remove_batch. cbn in *. f_equal. set_solver.
Qed.

(** Whoever survives the member loop of [_delete_membersOfBatch] is an old
    member without batch [b], and still belongs to a batch if it did. *)
Lemma _delete_members_loop_elem (l : list Tree_Member_t) (b : Z) (flag : bool)
  (x : Tree_Member_t) :
  x ∈ _delete_members_loop l b flag →
  ∃ y, y ∈ l ∧ x = remove_batch b y
       ∧ (set_batchIndex y ≠ ∅ → set_batchIndex x ≠ ∅).
Proof.
  revert flag. induction l as [|m l IH]; intros flag Hx; cbn in Hx;
    [by apply elem_of_nil in Hx|].
  assert (Hrest : ∀ f, x ∈ _delete_members_loop l b f →
                       ∃ y, y ∈ m :: l ∧ x = remove_batch b y
                            ∧ (set_batchIndex y ≠ ∅ → set_batchIndex x ≠ ∅)).
  { intros f Hf. destruct (IH f Hf) as (y & Hy & Hxy & Hne). exists y.
    split; [by right | done]. }
  destruct (decide (b ∈ set_batchIndex m)) as [Hin|Hout].
  - rewrite bool_decide_eq_true_2 in Hx by exact Hin.
    destruct (decide (size (set_batchIndex m ∖ {[b]}) = 0%nat)) as [Hz|Hnz].
    + rewrite bool_decide_eq_true_2 in Hx by exact Hz. eauto.
    + rewrite bool_decide_eq_false_2 in Hx by exact Hnz.
      destruct flag; [eauto|].
      apply elem_of_cons in Hx as [->|Hx]; [|eauto].
      exists m. split; [left|]. split; [reflexivity|]. intros _. cbn.
      intros E. apply Hnz. rewrite E. apply size_empty.
  - rewrite bool_decide_eq_false_2 in Hx by exact Hout.
    destruct flag; [eauto|].
    apply elem_of_cons in Hx as [->|Hx]; [|eauto].
    exists m. split; [left|]. split; [by rewrite remove_batch_absent|done].
Qed.

(** When no member belongs to batch [b] alone, the loop keeps every member and
    only takes [b] out of the index sets. *)
Theorem _delete_members_loop_clean (l : list Tree_Member_t) (b : Z) :
  (∀ m, m ∈ l → set_batchIndex m ≠ {[b]}) →
  _delete_members_loop l b false = map (remove_batch b) l.
Proof.
  induction l as [|m l IH]; intros Hl; [reflexivity|].
  cbn [_delete_members_loop map].
  assert (Hm : set_batchIndex m ≠ {[b]}) by (apply Hl; left).
  rewrite <- IH by (intros x Hx; apply Hl; by right).
  destruct (decide (b ∈ set_batchIndex m)) as [Hin|Hout].
  - rewrite bool_decide_eq_true_2 by exact Hin.
    rewrite bool_decide_eq_false_2; [reflexivity|].
    intros Hz. apply size_empty_iff in Hz. apply Hm.
    apply set_eq. intros x. destruct (decide (x = b)); set_solver.
  - rewrite bool_decide_eq_false_2 by exact Hout.
    by rewrite remove_batch_absent.
Qed.

Lemma _delete_members_loop_clean_witness :
  _delete_members_loop [member_amy; member_bob] 7 false
  = map (remove_batch 7) [member_amy; member_bob].
Proof.
  apply _delete_members_loop_clean. intros m Hm.
  apply elem_of_cons in Hm as [->|Hm];
    [|apply elem_of_cons in Hm as [->|Hm]; [|by apply elem_of_nil in Hm]];
    cbn; intros E; apply (f_equal (fun s => bool_decide (7 ∈ s))) in E;
    vm_compute in E; discriminate E.
Defined.

(** The first member that belongs to batch [b] alone ends the list: the
    members before it stay, without [b]; it and every member after it are
    erased. *)
Theorem _delete_members_loop_truncates (l : list Tree_Member_t) (b : Z) (k : nat)
  (m : Tree_Member_t) :
  l !! k = Some m → set_batchIndex m = {[b]} →
  (∀ j x, (j < k)%nat → l !! j = Some x → set_batchIndex x ≠ {[b]}) →
  _delete_members_loop l b false = map (remove_batch b) (take k l).
Proof.
  revert k. induction l as [|m0 l IH]; intros k Hk Hm Hbefore; [discriminate|].
  destruct k as [|k]; cbn in Hk.
  - injection Hk as ->. cbn [_delete_members_loop take map]. rewrite Hm.
    rewrite bool_decide_eq_true_2 by set_solver.
    rewrite bool_decide_eq_true_2 by (apply size_empty_iff; set_solver).
    apply _delete_members_loop_after_delete.
  - cbn [take map]. rewrite <- (IH k Hk Hm).
    2:{ intros j x Hj Hx. apply (Hbefore (S j) x); [lia | exact Hx]. }
    assert (Hm0 : set_batchIndex m0 ≠ {[b]}) by (apply (Hbefore 0%nat); [lia | done]).
    cbn [_delete_members_loop]. destruct (decide (b ∈ set_batchIndex m0)) as [Hin|Hout].
    + rewrite bool_decide_eq_true_2 by exact Hin.
      rewrite bool_decide_eq_false_2; [reflexivity|].
      intros Hz. apply size_empty_iff in Hz. apply Hm0.
      apply set_eq. intros x. destruct (decide (x = b)); set_solver.
    + rewrite bool_decide_eq_false_2 by exact Hout.
      by rewrite remove_batch_absent.
Qed.

Lemma _delete_members_loop_truncates_witness :
  _delete_members_loop [member_amy; member_bob; member_amy] 2 false
  = map (remove_batch 2) [member_amy].
Proof.
  apply (_delete_members_loop_truncates [member_amy; member_bob; member_amy]
           2 1%nat member_bob); [reflexivity..|].
  intros [|j] x Hj Hx; [|lia]. injection Hx as <-. cbn.
  intros E. apply (f_equal (fun s => bool_decide (1 ∈ s))) in E.
  vm_compute in E. discriminate E.
Defined.

(** ** Member lists along additions and deletions *)

Lemma item_at_delete (root : Tree_Item_t) (b : Z) (p : item_ptr) :
  item_at (_delete_membersOfBatch root b) p
  = (λ it, _delete_membersOfBatch it b) <$> item_at root p.
Proof.
  revert root. induction p as [|k p IH]; intros [id nm ms cs]; [reflexivity|].
  cbn [item_at _delete_membersOfBatch v_childItem]. rewrite list_lookup_fmap.
  destruct (cs !! k) as [c|]; cbn; [apply IH | reflexivity].
Qed.

Lemma l_member_delete (it : Tree_Item_t) (b : Z) :
  l_member (_delete_membersOfBatch it b) = _delete_members_loop (l_member it) b false.
Proof. by destruct it. Qed.

Section per_item_invariants.
(** A property of member lists that one round of ingestion and the member
    loop of deletion keep. *)
Variable P : list Tree_Member_t → Prop.
Hypothesis P_snoc : ∀ l ty text b,
  P l → (∀ m, m ∈ l → b ∉ set_batchIndex m) →
  find_if_member l (parse_value ty text) 0 = Returns None →
  P (l ++ [mk_Tree_Member_t (parse_value ty text) {[b]}]).
Hypothesis P_alter : ∀ l ty text b k,
  P l → (∀ m, m ∈ l → b ∉ set_batchIndex m) →
  find_if_member l (parse_value ty text) 0 = Returns (Some k) →
  P (alter (member_insert b) k l).
Hypothesis P_delete : ∀ l b, P l → P (_delete_members_loop l b false).

Lemma push_step_each_item (b : Z) (node : xml_node) (root root' : Tree_Item_t) :
  each_item P root → push_step b node root root' → each_item P root'.
Proof.
  intros HP Hstep.
  destruct Hstep as [nm ty ptr member_item iter out Hb Hnm Hs Hget Hty Hfind].
  pose proof (_search_item_byName_item_at _ _ _ _ Hs) as Hptr.
  pose proof (_get_memberVal_loop_unregistered _ _ _ _ Hget) as Hfree.
  intros q it' Hq.
  destruct (item_at_set_members _ _ _ _ _ Hq) as (it0 & Hq0 & _ & Hl). rewrite Hl.
  destruct (decide (q = ptr)) as [->|_]; [|exact (HP q it0 Hq0)].
  specialize (HP _ _ Hptr).
  destruct iter as [k|].
  - by apply (P_alter _ ty (node_value node)).
  - by apply P_snoc.
Qed.

Lemma delete_each_item (root : Tree_Item_t) (b : Z) :
  each_item P root → each_item P (_delete_membersOfBatch root b).
Proof.
  intros HP p it Hit. rewrite item_at_delete in Hit.
  destruct (item_at root p) as [it0|] eqn:E; [|discriminate].
  cbn in Hit. injection Hit as <-. rewrite l_member_delete.
  apply P_delete, (HP p it0 E).
Qed.

Lemma run_ops_each_item (ops : list tree_op) (t t' : xmlTree) :
  run_ops ops t = Returns t' →
  each_item P (s_rootItem t) → each_item P (s_rootItem t').
Proof.
  revert t. induction ops as [|[doc|b] ops IH]; intros t H HP; cbn in H.
  - injection H as <-. exact HP.
  - destruct (add_batch_loop (node_children doc) t) as [[r t1]| |] eqn:E;
      cbn in H; try discriminate.
    apply (IH _ H).
    apply (add_batch_loop_keeps (each_item P) (λ _, True) push_step_each_item
             ltac:(done) _ _ _ _ E), HP.
  - apply (IH _ H). unfold delete_oneBatch.
    destruct (bool_decide (b ∈ tree_batchIndex t)); cbn; [|exact HP].
    apply delete_each_item, HP.
Qed.
End per_item_invariants.

Lemma no_members_each_item (P : list Tree_Member_t → Prop) (root : Tree_Item_t) :
  P [] → no_members root → each_item P root.
Proof. intros HP Hno p it Hit. by rewrite (Hno p it Hit). Qed.

(** *** Disjoint index sets *)

Lemma members_disjoint_cons (m : Tree_Member_t) (l : list Tree_Member_t) :
  members_disjoint (m :: l)
  ↔ (∀ x, x ∈ l → set_batchIndex m ## set_batchIndex x) ∧ members_disjoint l.
Proof.
  split.
  - intros H. split.
    + intros x Hx. apply list_elem_of_lookup_1 in Hx as [j Hj].
      apply (H 0%nat (S j) m x); [done | done | lia].
    + intros i j mi mj Hi Hj Hij. apply (H (S i) (S j) mi mj); [done | done | lia].
  - intros [Hm Hl] [|i] [|j] mi mj Hi Hj Hij; cbn in Hi, Hj.
    + contradiction.
    + injection Hi as <-. apply Hm, (list_elem_of_lookup_2 _ _ _ Hj).
    + injection Hj as <-. symmetry. apply Hm, (list_elem_of_lookup_2 _ _ _ Hi).
    + apply (Hl i j mi mj Hi Hj). congruence.
Qed.

Lemma members_disjoint_delete (l : list Tree_Member_t) (b : Z) (flag : bool) :
  members_disjoint l → members_disjoint (_delete_members_loop l b flag).
Proof.
  revert flag. induction l as [|m l IH]; intros flag Hd; [exact Hd|].
  apply members_disjoint_cons in Hd as [Hm Hl].
  assert (Hkeep : ∀ m' f, set_batchIndex m' ⊆ set_batchIndex m →
            members_disjoint (m' :: _delete_members_loop l b f)).
  { intros m' f Hsub. apply members_disjoint_cons. split; [|apply IH, Hl].
    intros x Hx. apply _delete_members_loop_elem in Hx as (y & Hy & -> & _).
    specialize (Hm y Hy). cbn. set_solver. }
  cbn [_delete_members_loop].
  destruct (bool_decide (b ∈ set_batchIndex m)).
  - destruct (bool_decide (size (set_batchIndex m ∖ {[b]}) = 0%nat)); [apply IH, Hl|].
    destruct flag; [apply IH, Hl|]. apply Hkeep. cbn. set_solver.
  - destruct flag; [apply IH, Hl|]. by apply Hkeep.
Qed.

(** *** No member without a batch *)

Lemma members_owned_delete (l : list Tree_Member_t) (b : Z) (flag : bool) :
  members_owned l → members_owned (_delete_members_loop l b flag).
Proof.
  intros Ho x Hx. apply _delete_members_loop_elem in Hx as (y & Hy & _ & Hne).
  apply Hne, Ho, Hy.
Qed.

(** *** No two members with equal values *)

Lemma members_distinct_cons (m : Tree_Member_t) (l : list Tree_Member_t) :
  members_distinct (m :: l)
  ↔ (∀ x, x ∈ l → Tree_Val_eq (s_val m) (s_val x) = Returns false)
    ∧ members_distinct l.
Proof.
  split.
  - intros H. split.
    + intros x Hx. apply list_elem_of_lookup_1 in Hx as [j Hj].
      apply (H 0%nat (S j) m x); [done | done | lia].
    + intros i j mi mj Hi Hj Hij. apply (H (S i) (S j) mi mj); [done | done | lia].
  - intros [Hm Hl] [|i] [|j] mi mj Hi Hj Hij; cbn in Hi, Hj; try lia.
    + injection Hi as <-. apply Hm, (list_elem_of_lookup_2 _ _ _ Hj).
    + apply (Hl i j mi mj Hi Hj). lia.
Qed.

Lemma members_distinct_delete (l : list Tree_Member_t) (b : Z) (flag : bool) :
  members_distinct l → members_distinct (_delete_members_loop l b flag).
Proof.
  revert flag. induction l as [|m l IH]; intros flag Hd; [exact Hd|].
  apply members_distinct_cons in Hd as [Hm Hl].
  assert (Hkeep : ∀ m' f, s_val m' = s_val m →
            members_distinct (m' :: _delete_members_loop l b f)).
  { intros m' f Hval. apply members_distinct_cons. split; [|apply IH, Hl].
    intros x Hx. apply _delete_members_loop_elem in Hx as (y & Hy & -> & _).
    rewrite Hval. cbn. apply Hm, Hy. }
  cbn [_delete_members_loop].
  destruct (bool_decide (b ∈ set_batchIndex m)).
  - destruct (bool_decide (size (set_batchIndex m ∖ {[b]}) = 0%nat)); [apply IH, Hl|].
    destruct flag; [apply IH, Hl|]. by apply Hkeep.
  - destruct flag; [apply IH, Hl|]. by apply Hkeep.
Qed.

Lemma members_distinct_snoc (l : list Tree_Member_t) (x : Tree_Member_t) :
  members_distinct l →
  (∀ m, m ∈ l → Tree_Val_eq (s_val m) (s_val x) = Returns false) →
  members_distinct (l ++ [x]).
Proof.
  intros Hd Hx i j mi mj Hi Hj Hij.
  apply lookup_snoc_Some in Hj as [[Hjl Hj]|[-> <-]].
  - apply lookup_snoc_Some in Hi as [[_ Hi]|[-> _]]; [|lia].
    exact (Hd i j mi mj Hi Hj Hij).
  - apply lookup_snoc_Some in Hi as [[_ Hi]|[-> _]]; [|lia].
    apply Hx, (list_elem_of_lookup_2 _ _ _ Hi).
Qed.

Lemma members_distinct_alter (l : list Tree_Member_t) (k : nat) (b : Z) :
  members_distinct l → members_distinct (alter (member_insert b) k l).
Proof.
  intros Hd i j mi mj Hi Hj Hij.
  apply lookup_alter_member_insert in Hi as (mi0 & Hi & -> & _).
  apply lookup_alter_member_insert in Hj as (mj0 & Hj & -> & _).
  exact (Hd i j mi0 mj0 Hi Hj Hij).
Qed.

(** *** Parsed values *)

Lemma members_parsed_delete (l : list Tree_Member_t) (b : Z) (flag : bool) :
  members_parsed l → members_parsed (_delete_members_loop l b flag).
Proof.
  intros Hp x Hx. apply _delete_members_loop_elem in Hx as (y & Hy & -> & _).
  cbn. apply Hp, Hy.
Qed.

Lemma run_ops_parsed (root_node : option xml_node) (ret : Z) (t0 : xmlTree)
  (ops : list tree_op) (t : xmlTree) :
  build_tree_fromXmlFile root_node xmlTree_new = Returns (ret, t0) →
  run_ops ops t0 = Returns t →
  each_item members_parsed (s_rootItem t).
Proof.
  intros Hbuild Hrun.
  destruct (build_tree_fresh _ _ _ Hbuild) as [Hno _].
  apply (run_ops_each_item members_parsed) with (ops := ops) (t := t0);
    [ | | | exact Hrun | ].
  - intros l ty text b Hp _ _ m Hm.
    apply elem_of_app in Hm as [Hm|Hm]; [exact (Hp m Hm)|].
    apply list_elem_of_singleton in Hm as ->. cbn. eauto.
  - intros l ty text b k Hp _ _ m Hm.
    apply list_elem_of_lookup_1 in Hm as [i Hi].
    apply lookup_alter_member_insert in Hi as (m0 & Hi & -> & _).
    apply Hp, (list_elem_of_lookup_2 _ _ _ Hi).
  - intros l b. apply members_parsed_delete.
  - apply no_members_each_item; [|exact Hno]. intros m Hm. by apply elem_of_nil in Hm.
Qed.

(** Starting from the tree a schema document builds, after any sequence of
    calls of [add_batch_fromXmlFile] and [delete_oneBatch], successful or
    not, the members of every item hold pairwise disjoint batch-index sets. *)
Theorem reachable_sets_disjoint (root_node : option xml_node) (ret : Z)
  (t0 : xmlTree) (ops : list tree_op) (t : xmlTree) :
  build_tree_fromXmlFile root_node xmlTree_new = Returns (ret, t0) →
  run_ops ops t0 = Returns t →
  each_item members_disjoint (s_rootItem t).
Proof.
  intros Hbuild Hrun.
  destruct (build_tree_fresh _ _ _ Hbuild) as [Hno _].
  apply (run_ops_each_item members_disjoint) with (ops := ops) (t := t0);
    [ | | | exact Hrun | ].
  - intros l ty text b Hd Hfree _. by apply members_disjoint_snoc.
  - intros l ty text b k Hd Hfree _. by apply members_disjoint_alter.
  - intros l b. apply members_disjoint_delete.
  - apply no_members_each_item; [|exact Hno]. intros i j mi mj Hi. discriminate.
Qed.

Lemma reachable_sets_disjoint_witness :
  ∃ t, run_ops demo_ops (mk_xmlTree demo_tree ∅) = Returns t
       ∧ each_item members_disjoint (s_rootItem t).
Proof.
  assert (H1 : build_tree_fromXmlFile (Some demo_schema) xmlTree_new
               = Returns (ERR_None, mk_xmlTree demo_tree ∅))
    by (vm_compute; reflexivity).
  assert (H2 : ∃ t, run_ops demo_ops (mk_xmlTree demo_tree ∅) = Returns t)
    by (eexists; vm_compute; reflexivity).
  destruct H2 as [t H2]. exists t. split; [exact H2|].
  exact (reachable_sets_disjoint _ _ _ _ _ H1 H2).
Defined.

(** In such a tree every member belongs to at least one batch: deletion
    leaves no member behind whose index set became empty. *)
Theorem reachable_members_owned (root_node : option xml_node) (ret : Z)
  (t0 : xmlTree) (ops : list tree_op) (t : xmlTree) :
  build_tree_fromXmlFile root_node xmlTree_new = Returns (ret, t0) →
  run_ops ops t0 = Returns t →
  each_item members_owned (s_rootItem t).
Proof.
  intros Hbuild Hrun.
  destruct (build_tree_fresh _ _ _ Hbuild) as [Hno _].
  apply (run_ops_each_item members_owned) with (ops := ops) (t := t0);
    [ | | | exact Hrun | ].
  - intros l ty text b Ho _ _ m Hm.
    apply elem_of_app in Hm as [Hm|Hm]; [exact (Ho m Hm)|].
    apply list_elem_of_singleton in Hm as ->. cbn. set_solver.
  - intros l ty text b k Ho _ _ m Hm.
    apply list_elem_of_lookup_1 in Hm as [i Hi].
    apply lookup_alter_member_insert in Hi as (m0 & Hi & _ & Hsub).
    pose proof (Ho m0 (list_elem_of_lookup_2 _ _ _ Hi)). set_solver.
  - intros l b. apply members_owned_delete.
  - apply no_members_each_item; [|exact Hno]. intros m Hm. by apply elem_of_nil in Hm.
Qed.

Lemma reachable_members_owned_witness :
  ∃ t, run_ops demo_ops (mk_xmlTree demo_tree ∅) = Returns t
       ∧ each_item members_owned (s_rootItem t).
Proof.
  assert (H1 : build_tree_fromXmlFile (Some demo_schema) xmlTree_new
               = Returns (ERR_None, mk_xmlTree demo_tree ∅))
    by (vm_compute; reflexivity).
  assert (H2 : ∃ t, run_ops demo_ops (mk_xmlTree demo_tree ∅) = Returns t)
    by (eexists; vm_compute; reflexivity).
  destruct H2 as [t H2]. exists t. split; [exact H2|].
  exact (reachable_members_owned _ _ _ _ _ H1 H2).
Defined.

(** In such a tree no member of an item compares equal to a later member of
    the same item: [operator==] returns false on every such pair. *)
Theorem reachable_values_distinct (root_node : option xml_node) (ret : Z)
  (t0 : xmlTree) (ops : list tree_op) (t : xmlTree) :
  build_tree_fromXmlFile root_node xmlTree_new = Returns (ret, t0) →
  run_ops ops t0 = Returns t →
  each_item members_distinct (s_rootItem t).
Proof.
  intros Hbuild Hrun.
  destruct (build_tree_fresh _ _ _ Hbuild) as [Hno _].
  apply (run_ops_each_item members_distinct) with (ops := ops) (t := t0);
    [ | | | exact Hrun | ].
  - intros l ty text b Hd _ Hfind. apply members_distinct_snoc; [exact Hd|].
    cbn. exact (find_if_member_None _ _ _ Hfind).
  - intros l ty text b k Hd _ _. by apply members_distinct_alter.
  - intros l b. apply members_distinct_delete.
  - apply no_members_each_item; [|exact Hno]. intros i j mi mj Hi. discriminate.
Qed.

(** After [demo_values] the item student holds "Bob" before "Amy", and
    comparing the first with the second gives false. *)
Lemma reachable_values_distinct_witness :
  run_ops [op_add_batch demo_values] (mk_xmlTree demo_tree ∅) = Returns demo_loaded
  ∧ Tree_Val_eq (s_val member_bob) (s_val member_amy) = Returns false.
Proof.
  assert (H1 : build_tree_fromXmlFile (Some demo_schema) xmlTree_new
               = Returns (ERR_None, mk_xmlTree demo_tree ∅))
    by (vm_compute; reflexivity).
  assert (H2 : run_ops [op_add_batch demo_values] (mk_xmlTree demo_tree ∅)
               = Returns demo_loaded)
    by (vm_compute; reflexivity).
  split; [exact H2|].
  exact (reachable_values_distinct _ _ _ _ _ H1 H2 [0%nat]
           (demo_student [member_bob; member_amy]) eq_refl
           0%nat 1%nat member_bob member_amy eq_refl eq_refl ltac:(lia)).
Defined.

(** ** The schema stays as built *)

Lemma shape_delete (it : Tree_Item_t) (b : Z) :
  shape (_delete_membersOfBatch it b) = shape it.
Proof.
  induction it as [id nm ms cs IH] using Tree_Item_t_ind. cbn. f_equal.
  rewrite map_map. induction IH as [|c cs Hc _ IHcs]; [reflexivity|].
  cbn. by rewrite Hc, IHcs.
Qed.

Lemma push_step_shape (s : Tree_Item_t) (b : Z) (node : xml_node)
  (root root' : Tree_Item_t) :
  shape root = s → push_step b node root root' → shape root' = s.
Proof. intros <- Hstep. destruct Hstep. apply shape_set_members. Qed.

(** Calls of [add_batch_fromXmlFile] and [delete_oneBatch], successful or
    not, change nothing but member lists: ids, names and children of every
    item stay, and every name resolves to the pointer it resolved to
    before. *)
Theorem run_ops_keeps_schema (ops : list tree_op) (t t' : xmlTree) :
  run_ops ops t = Returns t' →
  shape (s_rootItem t') = shape (s_rootItem t)
  ∧ ∀ nm, fst <$> _search_item_byName (s_rootItem t') nm
          = fst <$> _search_item_byName (s_rootItem t) nm.
Proof.
  intros Hrun.
  assert (Hshape : shape (s_rootItem t') = shape (s_rootItem t)).
  { revert t Hrun. induction ops as [|[doc|b] ops IH]; intros t H; cbn in H.
    - by injection H as <-.
    - destruct (add_batch_loop (node_children doc) t) as [[r t1]| |] eqn:E;
        cbn in H; try discriminate.
      rewrite (IH _ H).
      apply (add_batch_loop_keeps (λ root, shape root = shape (s_rootItem t)) (λ _, True)
               (push_step_shape _) ltac:(done) _ _ _ _ E).
      reflexivity.
    - rewrite (IH _ H). unfold delete_oneBatch.
      destruct (bool_decide (b ∈ tree_batchIndex t)); cbn; [|reflexivity].
      apply shape_delete. }
  split; [exact Hshape|]. intros nm.
  rewrite <- (_search_item_byName_shape (s_rootItem t')), Hshape.
  apply _search_item_byName_shape.
Qed.

Lemma run_ops_keeps_schema_witness :
  ∃ t', run_ops demo_ops (mk_xmlTree demo_tree ∅) = Returns t'
        ∧ shape (s_rootItem t') = shape demo_tree.
Proof.
  assert (H : ∃ t', run_ops demo_ops (mk_xmlTree demo_tree ∅) = Returns t')
    by (eexists; vm_compute; reflexivity).
  destruct H as [t' H]. exists t'. split; [exact H|].
  exact (proj1 (run_ops_keeps_schema _ _ _ H)).
Defined.

(** ** The known-batch set of [add_batch_fromXmlFile] *)

(** A call of [add_batch_fromXmlFile] that returns, returns 0 or 1 and none
    of the error codes; the known-batch set only grows, and only by indices
    of batch-tagged children of the root node of the document; when the call
    returns 0, the index of every batch-tagged child of the root node is
    known afterwards. *)
Theorem add_batch_fromXmlFile_known (doc : xml_node) (t : xmlTree)
  (ret : Z) (t' : xmlTree) :
  add_batch_fromXmlFile (Some doc) t = Returns (ret, t') →
  (ret = 0 ∨ ret = 1)
  ∧ tree_batchIndex t ⊆ tree_batchIndex t'
  ∧ (∀ b, b ∈ tree_batchIndex t' →
          b ∈ tree_batchIndex t
          ∨ ∃ batch, batch ∈ node_children doc ∧ node_name batch = C_strBatchTag
                     ∧ _get_batchIndex batch = b)
  ∧ (ret = 0 → ∀ batch, batch ∈ node_children doc →
                        node_name batch = C_strBatchTag →
                        _get_batchIndex batch ∈ tree_batchIndex t').
Proof.
  unfold add_batch_fromXmlFile. generalize (node_children doc) as siblings.
  intros siblings. revert t.
  induction siblings as [|head rest IH]; intros t H; cbn in H.
  - injection H as <- <-. split; [by left|]. split; [done|]. split; [by left|].
    intros _ batch Hb. by apply elem_of_nil in Hb.
  - destruct (String.eqb_spec (node_name head) C_strBatchTag) as [Htag|Htag];
      cbn [negb] in H.
    + destruct (_push_memberVector _ _ _) as [[pushed root]| |] eqn:Hpush;
        cbn in H; try discriminate.
      destruct (Z.eqb_spec pushed ERR_None) as [->|Hne]; cbn in H.
      * destruct (IH _ H) as (Hret & Hsub & Hnew & Hall). cbn in Hsub, Hnew.
        split; [exact Hret|]. split; [set_solver|]. split.
        -- intros b Hb. destruct (Hnew b Hb) as [Hold|(batch & Hin & Hn & Hi)].
           ++ apply elem_of_union in Hold as [Hb0|Hold]; [|by left].
              apply elem_of_singleton in Hb0 as ->. right. exists head.
              split; [left|]. done.
           ++ right. exists batch. split; [by right | done].
        -- intros Hz batch Hin Hn. apply elem_of_cons in Hin as [->|Hin].
           ++ apply Hsub. set_solver.
           ++ exact (Hall Hz batch Hin Hn).
      * injection H as <- <-. split; [by right|]. split; [done|]. split; [by left|].
        intros Hz. discriminate Hz.
    + destruct (IH _ H) as (Hret & Hsub & Hnew & Hall).
      split; [exact Hret|]. split; [exact Hsub|]. split.
      * intros b Hb. destruct (Hnew b Hb) as [Hold|(batch & Hin & Hn & Hi)]; [by left|].
        right. exists batch. split; [by right | done].
      * intros Hz batch Hin Hn. apply elem_of_cons in Hin as [->|Hin];
          [contradiction | exact (Hall Hz batch Hin Hn)].
Qed.


Lemma add_batch_fromXmlFile_known_witness :
  ∃ t', add_batch_fromXmlFile (Some demo_values) (mk_xmlTree demo_tree ∅)
        = Returns (0, t')
        ∧ 1 ∈ tree_batchIndex t' ∧ 2 ∈ tree_batchIndex t'.
Proof.
  assert (H : add_batch_fromXmlFile (Some demo_values) (mk_xmlTree demo_tree ∅)
              = Returns (0, demo_loaded))
    by (vm_compute; reflexivity).
  exists demo_loaded. split; [exact H|].
  destruct (add_batch_fromXmlFile_known _ _ _ _ H) as (_ & _ & _ & Hall).
  split.
  - apply (Hall eq_refl (xml_batch "1" [xml_member "student" "string" "Amy"]));
      [apply list_elem_of_further, list_elem_of_here | reflexivity].
  - apply (Hall eq_refl (xml_batch "2" [xml_member "student" "string" "Bob"]));
      [apply list_elem_of_here | reflexivity].
Defined.

(** ** What deletion leaves of the batch *)

Lemma _get_memberVal_loop_absent (l : list Tree_Member_t) (b : Z) (out : Tree_Val_t) :
  (∀ m, m ∈ l → b ∉ set_batchIndex m) →
  _get_memberVal_loop l b out = Returns (ERR_UnregisteredIndex, out).
Proof.
  induction l as [|m l IH]; intros H; [reflexivity|]. cbn.
  rewrite bool_decide_eq_false_2 by (apply H; left).
  apply IH. intros x Hx. apply H. by right.
Qed.

(** After [delete_oneBatch] of a known batch no member of any item belongs
    to the batch, and looking the batch up at any item gives
    [ERR_UnregisteredIndex] and leaves the output value as it was. *)
Theorem delete_oneBatch_forgets (n_batchIndex : Z) (t : xmlTree)
  (p : item_ptr) (it : Tree_Item_t) (out : Tree_Val_t) :
  n_batchIndex ∈ tree_batchIndex t →
  item_at (s_rootItem (snd (delete_oneBatch n_batchIndex t))) p = Some it →
  (∀ m, m ∈ l_member it → n_batchIndex ∉ set_batchIndex m)
  ∧ _get_memberVal it n_batchIndex out = Returns (ERR_UnregisteredIndex, out).
Proof.
  intros Hknown Hit. unfold delete_oneBatch in Hit.
  rewrite bool_decide_eq_true_2 in Hit by exact Hknown. cbn in Hit.
  rewrite item_at_delete in Hit.
  destruct (item_at (s_rootItem t) p) as [it0|]; [|discriminate].
  cbn in Hit. injection Hit as <-.
  assert (Hfree : ∀ m, m ∈ l_member (_delete_membersOfBatch it0 n_batchIndex) →
                       n_batchIndex ∉ set_batchIndex m).
  { rewrite l_member_delete. intros m Hm.
    apply _delete_members_loop_elem in Hm as (y & _ & -> & _). cbn. set_solver. }
  split; [exact Hfree|]. by apply _get_memberVal_loop_absent.
Qed.

Lemma delete_oneBatch_forgets_witness :
  ∃ it, item_at (s_rootItem (snd (delete_oneBatch 1 demo_loaded))) [0%nat] = Some it
        ∧ _get_memberVal it 1 Tree_Val_fresh
          = Returns (ERR_UnregisteredIndex, Tree_Val_fresh).
Proof.
  assert (H : ∃ it, item_at (s_rootItem (snd (delete_oneBatch 1 demo_loaded))) [0%nat]
                    = Some it)
    by (eexists; vm_compute; reflexivity).
  destruct H as [it H]. exists it. split; [exact H|].
  refine (proj2 (delete_oneBatch_forgets 1 demo_loaded [0%nat] it Tree_Val_fresh _ H)).
  cbn. set_solver.
Defined.

(** ** Reading values back *)

Lemma _get_memberVal_loop_first (l : list Tree_Member_t) (b : Z) (k : nat)
  (m : Tree_Member_t) :
  members_parsed l → members_disjoint l →
  l !! k = Some m → b ∈ set_batchIndex m →
  _get_memberVal_loop l b Tree_Val_fresh = Returns (ERR_None, s_val m).
Proof.
  revert k. induction l as [|m0 l IH]; intros k Hp Hd Hk Hb; [discriminate|].
  apply members_disjoint_cons in Hd as [Hm0 Hl].
  cbn [_get_memberVal_loop]. destruct k as [|k]; cbn in Hk.
  - injection Hk as ->. rewrite bool_decide_eq_true_2 by exact Hb.
    destruct (Hp m ltac:(left)) as (ty & text & ->).
    by rewrite Tree_Val_assign_parse_value.
  - rewrite bool_decide_eq_false_2.
    + apply (IH k); [|exact Hl | exact Hk | exact Hb].
      intros x Hx. apply Hp. by right.
    + intros Hb0. specialize (Hm0 m (list_elem_of_lookup_2 _ _ _ Hk)). set_solver.
Qed.

Lemma _get_memberVal_loop_stores (l : list Tree_Member_t) (b : Z) (v : Tree_Val_t) :
  members_parsed l → members_disjoint l → stores l b v →
  _get_memberVal_loop l b Tree_Val_fresh = Returns (ERR_None, v).
Proof.
  intros Hp Hd (x & Hx & Hb & <-). apply list_elem_of_lookup_1 in Hx as [k Hk].
  exact (_get_memberVal_loop_first l b k x Hp Hd Hk Hb).
Qed.

Lemma stores_unique (l : list Tree_Member_t) (b : Z) (v v' : Tree_Val_t) :
  members_parsed l → members_disjoint l → stores l b v → stores l b v' → v = v'.
Proof.
  intros Hp Hd H H'.
  pose proof (_get_memberVal_loop_stores l b v Hp Hd H) as E.
  rewrite (_get_memberVal_loop_stores l b v' Hp Hd H') in E. congruence.
Qed.

(** On parsed values the look-up returns: the value of a member of the
    batch, or [ERR_UnregisteredIndex] and the output untouched. *)
Lemma _get_memberVal_loop_total (l : list Tree_Member_t) (b : Z) :
  members_parsed l →
  (∃ v, stores l b v ∧ _get_memberVal_loop l b Tree_Val_fresh = Returns (ERR_None, v))
  ∨ ((∀ m, m ∈ l → b ∉ set_batchIndex m)
     ∧ _get_memberVal_loop l b Tree_Val_fresh
       = Returns (ERR_UnregisteredIndex, Tree_Val_fresh)).
Proof.
  induction l as [|m0 l IH]; intros Hp.
  - right. split; [|reflexivity]. intros m Hm. by apply elem_of_nil in Hm.
  - cbn [_get_memberVal_loop].
    destruct (decide (b ∈ set_batchIndex m0)) as [Hin|Hout].
    + rewrite bool_decide_eq_true_2 by exact Hin. left. exists (s_val m0).
      split; [exists m0; split; [left | done]|].
      destruct (Hp m0 ltac:(left)) as (ty & text & ->).
      by rewrite Tree_Val_assign_parse_value.
    + rewrite bool_decide_eq_false_2 by exact Hout.
      destruct IH as [(v & (x & Hx & Hb & Hv) & Hrun)|[Hfree Hrun]].
      * intros x Hx. apply Hp. by right.
      * left. exists v. split; [|exact Hrun]. exists x. split; [by right | done].
      * right. split; [|exact Hrun]. intros m Hm.
        apply elem_of_cons in Hm as [->|Hm]; [exact Hout | exact (Hfree m Hm)].
Qed.

(** Starting from the tree a schema document builds, let a sequence of calls
    of [add_batch_fromXmlFile] contain, in a call that returned 0, a batch
    node with a member node of name [nm], declared type [ty] and text [text],
    where the type is int or string, or double with a text that does not
    parse to NaN.  Then in the final tree the name resolves to an item at
    which [_get_memberVal] finds the batch and returns a value that compares
    equal to the parsed text. *)
Theorem ingested_value_is_read_back
  (root_node : option xml_node) (ret : Z) (t0 : xmlTree)
  (docs : list xml_node) (rets : list Z) (t : xmlTree)
  (i : nat) (d batch n : xml_node) (nm ty text : string) :
  build_tree_fromXmlFile root_node xmlTree_new = Returns (ret, t0) →
  add_batches docs t0 = Returns (rets, t) →
  docs !! i = Some d → rets !! i = Some ERR_None →
  batch ∈ node_children d → node_name batch = C_strBatchTag →
  n ∈ node_children batch → member_node n nm ty text →
  comparable ty text →
  ∃ ptr it v,
    _search_item_byName (s_rootItem t) nm = Some (ptr, it)
    ∧ _get_memberVal it (_get_batchIndex batch) Tree_Val_fresh = Returns (ERR_None, v)
    ∧ Tree_Val_eq v (parse_value ty text) = Returns true.
Proof.
  intros Hbuild Hrun Hd Hr Hb Htag Hn Hm Hcmp.
  destruct (build_tree_fresh _ _ _ Hbuild) as [Hno Hparsed0].
  set (v := parse_value ty text).
  assert (Hinv0 : holder_inv nm v (s_rootItem t0)).
  { intros ptr it Hs. rewrite (Hno ptr it (_search_item_byName_item_at _ _ _ _ Hs)).
    intros k k' m m' Hk. discriminate. }
  assert (Hpost : holder_post nm v (_get_batchIndex batch) (s_rootItem t)).
  { apply (add_batches_reaches (holder_inv nm v)
             (holder_post nm v (_get_batchIndex batch)) (_get_batchIndex batch) n
             (holder_inv_step nm ty text)
             (holder_post_step nm ty text (_get_batchIndex batch))
             (λ root root', holder_post_intro nm ty text _ n root root' Hm Hcmp)
             docs i d batch t0 rets t Hd Hr Hb Htag eq_refl Hn Hinv0 Hrun). }
  assert (Hdis : tree_disjoint (s_rootItem t)).
  { apply (add_batches_keeps tree_disjoint (λ _, True) push_step_disjoint
             ltac:(done) _ _ _ _ Hrun).
    by apply no_members_disjoint. }
  assert (Hpar : tree_parsed (s_rootItem t)).
  { apply (add_batches_keeps tree_parsed (λ _, True) push_step_parsed
             ltac:(done) _ _ _ _ Hrun), Hparsed0. }
  destruct Hpost as (ptr & it & Hs & k & m & Hk & Hv & Hin).
  pose proof (_search_item_byName_item_at _ _ _ _ Hs) as Hit.
  exists ptr, it, (s_val m). split; [exact Hs|]. split; [|exact Hv].
  apply (_get_memberVal_loop_first _ _ k m); [| | exact Hk | exact Hin].
  - exact (proj2 (Hpar ptr it Hit)).
  - exact (Hdis ptr it Hit).
Qed.

Lemma ingested_value_is_read_back_witness :
  ∃ ptr it v,
    _search_item_byName (s_rootItem demo_loaded) "student" = Some (ptr, it)
    ∧ _get_memberVal it 1 Tree_Val_fresh = Returns (ERR_None, v)
    ∧ Tree_Val_eq v (parse_value "string" "Amy") = Returns true.
Proof.
  assert (H1 : build_tree_fromXmlFile (Some demo_schema) xmlTree_new
               = Returns (ERR_None, mk_xmlTree demo_tree ∅))
    by (vm_compute; reflexivity).
  assert (H2 : add_batches [demo_values] (mk_xmlTree demo_tree ∅)
               = Returns ([ERR_None], demo_loaded))
    by (vm_compute; reflexivity).
  refine (ingested_value_is_read_back (Some demo_schema) ERR_None
            (mk_xmlTree demo_tree ∅) [demo_values] [ERR_None] demo_loaded
            0%nat demo_values
            (xml_batch "1" [xml_member "student" "string" "Amy"])
            (xml_member "student" "string" "Amy")
            "student" "string" "Amy"
            H1 H2 eq_refl eq_refl _ eq_refl _ _ _).
  - apply list_elem_of_further, list_elem_of_here.
  - apply list_elem_of_here.
  - repeat split.
  - right. left. reflexivity.
Defined.

(** ** [get_batchSet] *)

Lemma elem_of_set_begin_to_end (s : gset Z) (x : Z) : x ∈ set_begin_to_end s ↔ x ∈ s.
Proof.
  unfold set_begin_to_end. rewrite merge_sort_Permutation. apply elem_of_elements.
Qed.

Lemma foldl_set_insert (l : list Z) (acc : gset Z) :
  foldl (fun acc x => {[x]} ∪ acc) acc l = list_to_set l ∪ acc.
Proof.
  revert acc. induction l as [|x l IH]; intros acc; cbn; [set_solver|].
  rewrite IH. set_solver.
Qed.

(** [get_batchSet] hands out the set of known batch indices, whatever the
    caller's set held before. *)
Theorem get_batchSet_known (t : xmlTree) (set_batch : gset Z) :
  get_batchSet t set_batch = tree_batchIndex t.
Proof.
  unfold get_batchSet. rewrite foldl_set_insert. apply set_eq. intros x.
  rewrite elem_of_union, elem_of_list_to_set, elem_of_reverse, elem_of_set_begin_to_end.
  set_solver.
Qed.

(** ** [get_oneItemValue] *)

Section item_values.
Variable item_cur : Tree_Item_t.
Hypothesis Hparsed : members_parsed (l_member item_cur).
Hypothesis Hdisjoint : members_disjoint (l_member item_cur).

Lemma _get_membersOfItem_set_reads (batches : list Z) (m0 : gmap Z Tree_Val_t) :
  (∀ b, b ∈ batches → ∃ v, stores (l_member item_cur) b v) →
  (∀ b v, m0 !! b = Some v → stores (l_member item_cur) b v) →
  ∃ m, _get_membersOfItem_set item_cur batches m0 = Returns m
       ∧ (∀ b v, m !! b = Some v → stores (l_member item_cur) b v)
       ∧ (∀ b, is_Some (m0 !! b) → is_Some (m !! b))
       ∧ (∀ b, b ∈ batches → is_Some (m !! b)).
Proof.
  revert m0. induction batches as [|b0 rest IH]; intros m0 Hheld Hinv.
  - exists m0. split; [reflexivity|]. split; [exact Hinv|]. split; [done|].
    intros b Hb. by apply elem_of_nil in Hb.
  - destruct (Hheld b0 ltac:(left)) as [v0 Hv0].
    cbn [_get_membersOfItem_set]. unfold _get_memberVal.
    change (Tree_Val_declared VAL_None) with Tree_Val_fresh.
    rewrite (_get_memberVal_loop_stores _ _ _ Hparsed Hdisjoint Hv0).
    cbn [mbind outcome_bind].
    assert (Hinv1 : ∀ b v, map_insert b0 v0 m0 !! b = Some v →
                           stores (l_member item_cur) b v).
    { intros b v. unfold map_insert. destruct (m0 !! b0) eqn:E0; [apply Hinv|].
      destruct (decide (b = b0)) as [->|Hne].
      - rewrite lookup_insert_eq. intros H. by injection H as <-.
      - rewrite lookup_insert_ne by congruence. apply Hinv. }
    assert (Hmono : ∀ b, is_Some (m0 !! b) → is_Some (map_insert b0 v0 m0 !! b)).
    { intros b Hb. unfold map_insert. destruct (m0 !! b0) eqn:E0; [exact Hb|].
      destruct (decide (b = b0)) as [->|Hne].
      - rewrite lookup_insert_eq. eauto.
      - by rewrite lookup_insert_ne by congruence. }
    assert (Hkey : is_Some (map_insert b0 v0 m0 !! b0)).
    { unfold map_insert. destruct (m0 !! b0) eqn:E0; [rewrite E0; eauto|].
      rewrite lookup_insert_eq. eauto. }
    destruct (IH (map_insert b0 v0 m0)) as (m & Hrun & Hm & Hsub & Hall);
      [intros b Hb; apply Hheld; by right | exact Hinv1 |].
    exists m. split; [exact Hrun|]. split; [exact Hm|]. split.
    + intros b Hb. apply Hsub, Hmono, Hb.
    + intros b Hb. apply elem_of_cons in Hb as [->|Hb]; [apply Hsub, Hkey | apply Hall, Hb].
Qed.

Lemma _get_membersOfItem_loop_reads (members : list Tree_Member_t)
  (m0 : gmap Z Tree_Val_t) :
  (∀ x, x ∈ members → x ∈ l_member item_cur) →
  (∀ b v, m0 !! b = Some v → stores (l_member item_cur) b v) →
  ∃ m, _get_membersOfItem_loop item_cur members m0 = Returns m
       ∧ (∀ b v, m !! b = Some v → stores (l_member item_cur) b v)
       ∧ (∀ b, is_Some (m0 !! b) → is_Some (m !! b))
       ∧ (∀ x b, x ∈ members → b ∈ set_batchIndex x → is_Some (m !! b)).
Proof.
  revert m0. induction members as [|x0 rest IH]; intros m0 Hsub Hinv.
  - exists m0. split; [reflexivity|]. split; [exact Hinv|]. split; [done|].
    intros x b Hx. by apply elem_of_nil in Hx.
  - cbn [_get_membersOfItem_loop].
    destruct (_get_membersOfItem_set_reads (set_begin_to_end (set_batchIndex x0)) m0)
      as (m1 & Hrun1 & Hinv1 & Hmono1 & Hall1); [|exact Hinv|].
    { intros b Hb. apply elem_of_set_begin_to_end in Hb.
      exists (s_val x0), x0. split; [apply Hsub; left | done]. }
    rewrite Hrun1. cbn [mbind outcome_bind].
    destruct (IH m1) as (m & Hrun & Hm & Hmono & Hall);
      [intros x Hx; apply Hsub; by right | exact Hinv1 |].
    exists m. split; [exact Hrun|]. split; [exact Hm|]. split.
    + intros b Hb. apply Hmono, Hmono1, Hb.
    + intros x b Hx Hb. apply elem_of_cons in Hx as [->|Hx].
      * apply Hmono, Hall1, elem_of_set_begin_to_end, Hb.
      * exact (Hall x b Hx Hb).
Qed.

Lemma _get_membersOfItem_reads :
  ∃ m, _get_membersOfItem item_cur ∅ = Returns m
       ∧ ∀ b v, m !! b = Some v ↔ stores (l_member item_cur) b v.
Proof.
  destruct (_get_membersOfItem_loop_reads (l_member item_cur) ∅)
    as (m & Hrun & Hm & _ & Hall); [done | intros b v H; by rewrite lookup_empty in H|].
  exists m. split; [exact Hrun|]. intros b v. split; [apply Hm|].
  intros Hv. destruct Hv as (x & Hx & Hb & Hval).
  destruct (Hall x b Hx Hb) as [v' Hv']. rewrite Hv'. f_equal.
  apply (stores_unique (l_member item_cur) b); [exact Hparsed | exact Hdisjoint | |].
  - exact (Hm b v' Hv').
  - exists x. done.
Qed.
End item_values.

(** In a tree reached from a built schema by calls of [add_batch_fromXmlFile]
    and [delete_oneBatch], [get_oneItemValue] on a name that resolves to an
    item returns [ERR_None] and, into an empty map, exactly the pairs of a
    batch index and the value that a member of the item stores for it. *)
Theorem get_oneItemValue_reads (root_node : option xml_node) (ret : Z)
  (t0 : xmlTree) (ops : list tree_op) (t : xmlTree)
  (str_itemName : string) (ptr : item_ptr) (item : Tree_Item_t) :
  build_tree_fromXmlFile root_node xmlTree_new = Returns (ret, t0) →
  run_ops ops t0 = Returns t →
  _search_item_byName (s_rootItem t) str_itemName = Some (ptr, item) →
  ∃ m, get_oneItemValue t str_itemName ∅ = Returns (ERR_None, m)
       ∧ ∀ b v, m !! b = Some v ↔ stores (l_member item) b v.
Proof.
  intros Hbuild Hrun Hs.
  pose proof (_search_item_byName_item_at _ _ _ _ Hs) as Hit.
  pose proof (run_ops_parsed _ _ _ _ _ Hbuild Hrun ptr item Hit) as Hp.
  assert (Hd : members_disjoint (l_member item)).
  { destruct (build_tree_fresh _ _ _ Hbuild) as [Hno _].
    refine (run_ops_each_item members_disjoint _ _ _ ops t0 t Hrun _ ptr item Hit).
    - intros l ty text b Hd Hfree _. by apply members_disjoint_snoc.
    - intros l ty text b k Hd Hfree _. by apply members_disjoint_alter.
    - intros l b. apply members_disjoint_delete.
    - apply no_members_each_item; [|exact Hno]. intros i j mi mj Hi. discriminate. }
  destruct (_get_membersOfItem_reads item Hp Hd) as (m & Hm & Hspec).
  exists m. split; [|exact Hspec].
  unfold get_oneItemValue. rewrite Hs, Hm. reflexivity.
Qed.

Lemma get_oneItemValue_reads_witness :
  ∃ t m, run_ops demo_ops (mk_xmlTree demo_tree ∅) = Returns t
         ∧ get_oneItemValue t "student" ∅ = Returns (ERR_None, m)
         ∧ m !! 1 = Some (text_value "Ann").
Proof.
  assert (H1 : build_tree_fromXmlFile (Some demo_schema) xmlTree_new
               = Returns (ERR_None, mk_xmlTree demo_tree ∅))
    by (vm_compute; reflexivity).
  assert (H2 : ∃ t, run_ops demo_ops (mk_xmlTree demo_tree ∅) = Returns t)
    by (eexists; vm_compute; reflexivity).
  destruct H2 as [t H2].
  assert (H3 : ∃ it, _search_item_byName (s_rootItem t) "student" = Some ([0%nat], it)
                     ∧ mk_Tree_Member_t (text_value "Ann") {[1; 2]} ∈ l_member it).
  { revert H2. vm_compute. intros H2. injection H2 as <-. eexists. split; [reflexivity|].
    apply list_elem_of_here. }
  destruct H3 as (it & H3 & Hin).
  destruct (get_oneItemValue_reads _ _ _ _ _ _ _ _ H1 H2 H3) as (m & Hm & Hspec).
  exists t, m. split; [exact H2|]. split; [exact Hm|].
  apply Hspec. exists (mk_Tree_Member_t (text_value "Ann") {[1; 2]}).
  split; [exact Hin|]. split; [|reflexivity].
  cbn. set_solver.
Defined.

(** ** [get_oneBatchValue] *)

Lemma lookup_map_insert {V : Type} (k k' : string) (v : V) (m : gmap string V) :
  map_insert k v m !! k'
  = match m !! k' with
    | Some w => Some w
    | None => if decide (k' = k) then Some v else None
    end.
Proof.
  unfold map_insert. destruct (m !! k) as [w|] eqn:E.
  - destruct (m !! k') as [w'|] eqn:E'; [reflexivity|].
    destruct (decide (k' = k)) as [->|_]; [congruence | reflexivity].
  - destruct (decide (k' = k)) as [->|Hne].
    + by rewrite lookup_insert_eq, E.
    + rewrite lookup_insert_ne by congruence. by destruct (m !! k').
Qed.

Section batch_values.
Variable b : Z.

Lemma _get_membersOfBatch_loop_reads (childs : list Tree_Item_t) :
  Forall (λ c, each_item members_parsed c →
               ∀ m0, ∃ m, _get_membersOfBatch c b m0 = Returns m
                 ∧ (∀ nm, is_Some (m !! nm) ↔ is_Some (m0 !! nm) ∨ named_in c nm)
                 ∧ (∀ nm v, m !! nm = Some v → m0 !! nm = Some v ∨ read_in c b nm v))
         childs →
  (∀ k c, childs !! k = Some c → each_item members_parsed c) →
  ∀ m0, ∃ m, _get_membersOfBatch_loop _get_membersOfBatch b childs m0 = Returns m
    ∧ (∀ nm, is_Some (m !! nm)
             ↔ is_Some (m0 !! nm) ∨ ∃ k c, childs !! k = Some c ∧ named_in c nm)
    ∧ (∀ nm v, m !! nm = Some v →
               m0 !! nm = Some v ∨ ∃ k c, childs !! k = Some c ∧ read_in c b nm v).
Proof.
  induction 1 as [|c cs Hc _ IH]; intros Hp m0.
  - exists m0. split; [reflexivity|]. split.
    + intros nm. split; [by left|]. intros [H|(k & c & Hk & _)]; [exact H | discriminate].
    + intros nm v H. by left.
  - cbn [_get_membersOfBatch_loop].
    destruct (Hc (Hp 0%nat c eq_refl) m0) as (m1 & Hrun1 & Hkeys1 & Hvals1).
    rewrite Hrun1. cbn [mbind outcome_bind].
    destruct (IH (λ k c', Hp (S k) c') m1) as (m & Hrun & Hkeys & Hvals).
    exists m. split; [exact Hrun|]. split.
    + intros nm. rewrite Hkeys, Hkeys1. split.
      * intros [[H|H]|(k & c' & Hk & H)]; [by left | |].
        -- right. exists 0%nat, c. done.
        -- right. exists (S k), c'. done.
      * intros [H|(k & c' & Hk & H)]; [by left; left|].
        destruct k as [|k]; cbn in Hk.
        -- injection Hk as <-. by left; right.
        -- right. exists k, c'. done.
    + intros nm v H. destruct (Hvals nm v H) as [H1|(k & c' & Hk & H1)].
      * destruct (Hvals1 nm v H1) as [H0|H0]; [by left|].
        right. exists 0%nat, c. done.
      * right. exists (S k), c'. done.
Qed.

Lemma _get_membersOfBatch_reads (it : Tree_Item_t) :
  each_item members_parsed it →
  ∀ m0, ∃ m, _get_membersOfBatch it b m0 = Returns m
    ∧ (∀ nm, is_Some (m !! nm) ↔ is_Some (m0 !! nm) ∨ named_in it nm)
    ∧ (∀ nm v, m !! nm = Some v → m0 !! nm = Some v ∨ read_in it b nm v).
Proof.
  induction it as [id name ms cs IH] using Tree_Item_t_ind. intros Hp m0.
  assert (Hms : members_parsed ms) by exact (Hp [] _ eq_refl).
  assert (Hcs : ∀ k c, cs !! k = Some c → each_item members_parsed c).
  { intros k c Hk q x Hx. apply (Hp (k :: q)). cbn. by rewrite Hk. }
  assert (Hself : ∃ code v0, _get_memberVal_loop ms b Tree_Val_fresh = Returns (code, v0)).
  { destruct (_get_memberVal_loop_total ms b Hms) as [(v & _ & H)|[_ H]]; eauto. }
  destruct Hself as (code & v0 & Hself).
  cbn [_get_membersOfBatch].
  change (Tree_Val_declared VAL_None) with Tree_Val_fresh.
  rewrite Hself. cbn [mbind outcome_bind].
  destruct (_get_membersOfBatch_loop_reads cs IH Hcs (map_insert name v0 m0))
    as (m & Hrun & Hkeys & Hvals).
  exists m. split; [exact Hrun|]. split.
  - intros nm. rewrite Hkeys, lookup_map_insert. split.
    + intros [H|(k & c & Hk & q & x & Hx & Hn)].
      * destruct (m0 !! nm) as [w|]; [left; eauto|].
        destruct (decide (nm = name)) as [->|_]; [|by destruct H].
        right. exists [], (mk_Tree_Item_t id name ms cs). done.
      * right. exists (k :: q), x. cbn. by rewrite Hk.
    + intros [H|(p & x & Hx & Hn)].
      * left. destruct (m0 !! nm) as [w|]; [eauto | by destruct H].
      * destruct p as [|k q]; cbn in Hx.
        -- injection Hx as <-. cbn in Hn. subst nm. left.
           destruct (m0 !! name); [eauto|]. rewrite decide_True by reflexivity. eauto.
        -- destruct (cs !! k) as [c|] eqn:Hk; [|discriminate].
           right. exists k, c. split; [exact Hk|]. exists q, x. done.
  - intros nm v H. destruct (Hvals nm v H) as [H1|(k & c & Hk & q & x & cd & Hx & Hn & Hv)].
    + rewrite lookup_map_insert in H1. destruct (m0 !! nm) as [w|]; [by left|].
      destruct (decide (nm = name)) as [->|_]; [|discriminate].
      injection H1 as ->. right.
      exists [], (mk_Tree_Item_t id name ms cs), code. done.
    + right. exists (k :: q), x, cd. cbn. by rewrite Hk.
Qed.
End batch_values.

(** In a tree reached from a built schema by calls of [add_batch_fromXmlFile]
    and [delete_oneBatch], [get_oneBatchValue] on a known batch index returns
    [ERR_None] and, into an empty map, one entry for every name that an item
    of the tree has, the root included, and for no other name; the value of
    an entry is what [_get_memberVal] leaves in a fresh value at an item of
    that name, also when the item holds no value of the batch. *)
Theorem get_oneBatchValue_reads (root_node : option xml_node) (ret : Z)
  (t0 : xmlTree) (ops : list tree_op) (t : xmlTree) (n_batchIndex : Z) :
  build_tree_fromXmlFile root_node xmlTree_new = Returns (ret, t0) →
  run_ops ops t0 = Returns t →
  n_batchIndex ∈ tree_batchIndex t →
  ∃ m, get_oneBatchValue t n_batchIndex ∅ = Returns (ERR_None, m)
       ∧ (∀ nm, is_Some (m !! nm) ↔ named_in (s_rootItem t) nm)
       ∧ (∀ nm v, m !! nm = Some v → read_in (s_rootItem t) n_batchIndex nm v).
Proof.
  intros Hbuild Hrun Hknown.
  pose proof (run_ops_parsed _ _ _ _ _ Hbuild Hrun) as Hp.
  destruct (_get_membersOfBatch_reads n_batchIndex (s_rootItem t) Hp ∅)
    as (m & Hm & Hkeys & Hvals).
  exists m. unfold get_oneBatchValue.
  rewrite bool_decide_eq_true_2 by exact Hknown. rewrite Hm.
  split; [reflexivity|]. split.
  - intros nm. rewrite Hkeys, lookup_empty. split; [|by right].
    intros [H|H]; [by destruct H | exact H].
  - intros nm v H. destruct (Hvals nm v H) as [H0|H0]; [|exact H0].
    by rewrite lookup_empty in H0.
Qed.

Lemma get_oneBatchValue_reads_witness :
  ∃ t m, run_ops demo_ops (mk_xmlTree demo_tree ∅) = Returns t
         ∧ get_oneBatchValue t 1 ∅ = Returns (ERR_None, m)
         ∧ is_Some (m !! "teacher").
Proof.
  assert (H1 : build_tree_fromXmlFile (Some demo_schema) xmlTree_new
               = Returns (ERR_None, mk_xmlTree demo_tree ∅))
    by (vm_compute; reflexivity).
  assert (H2 : ∃ t, run_ops demo_ops (mk_xmlTree demo_tree ∅) = Returns t)
    by (eexists; vm_compute; reflexivity).
  destruct H2 as [t H2].
  assert (H3 : 1 ∈ tree_batchIndex t
               ∧ ∃ x, item_at (s_rootItem t) [1%nat] = Some x ∧ str_name x = "teacher").
  { revert H2. vm_compute. intros H2. injection H2 as <-.
    split; [|eexists; split; reflexivity].
    apply (bool_decide_unpack _). vm_compute. exact I. }
  destruct H3 as (H3 & x & Hx & Hn).
  destruct (get_oneBatchValue_reads _ _ _ _ _ 1 H1 H2 H3) as (m & Hm & Hkeys & _).
  exists t, m. split; [exact H2|]. split; [exact Hm|].
  apply Hkeys. exists [1%nat], x. done.
Defined.

(** ** Copies and unparsable numbers *)

Lemma memcmp_bytes_take (a : list ascii) (n : nat) :
  (n ≤ length a)%nat → memcmp_bytes (take n a) a n = 0.
Proof.
  revert a. induction n as [|n IH]; intros a Hn; [reflexivity|].
  destruct a as [|x a]; cbn in Hn; [lia|]. cbn.
  rewrite Ascii.eqb_refl. apply IH. lia.
Qed.

Lemma memcmp_take (a : list ascii) (n : nat) :
  (n ≤ length a)%nat → memcmp (take n a) a n = Returns 0.
Proof.
  intros Hn. unfold memcmp. rewrite length_take.
  destruct (Nat.leb_spec n (n `min` length a)) as [_|]; [|lia].
  destruct (Nat.leb_spec n (length a)) as [_|]; [|lia].
  cbn. by rewrite memcmp_bytes_take.
Qed.

(** A value that [operator=] copied compares equal to its source, when the
    source is an int, a string, or a double other than NaN. *)
Theorem Tree_Val_assign_then_eq (this val copy : Tree_Val_t) :
  Tree_Val_assign this val = Returns copy →
  e_type val = VAL_Int ∨ e_type val = VAL_String
  ∨ (e_type val = VAL_Double ∧ u_val val ≠ val_double S754_nan) →
  Tree_Val_eq copy val = Returns true.
Proof.
  destruct val as [ty u len]. unfold Tree_Val_assign, Tree_Val_eq. cbn [e_type u_val n_memLen].
  intros H [Hty|[Hty|[Hty Hnan]]]; subst ty.
  - destruct u as [|z|d|buf]; try discriminate. injection H as <-.
    cbn [e_type u_val]. rewrite decide_True by reflexivity. by rewrite Z.eqb_refl.
  - destruct len as [n|]; [|discriminate].
    destruct u as [|z|d|buf]; try discriminate.
    unfold memcpy in H.
    destruct (Z.leb_spec 0 n) as [H0|]; [|discriminate].
    destruct (Z.leb_spec n (Z.of_nat (length buf))) as [Hn|]; [|discriminate].
    cbn in H. injection H as <-. cbn [e_type u_val].
    rewrite decide_True by reflexivity.
    destruct (Z.leb_spec 0 n) as [_|]; [|lia].
    rewrite memcmp_take by lia. reflexivity.
  - destruct u as [|z|d|buf]; try discriminate. injection H as <-.
    cbn [e_type u_val]. rewrite decide_True by reflexivity.
    rewrite SFeqb_refl; [reflexivity|]. intros ->. by apply Hnan.
Qed.

Lemma Tree_Val_assign_then_eq_witness :
  ∃ copy, Tree_Val_assign Tree_Val_fresh (text_value "Bob") = Returns copy
          ∧ Tree_Val_eq copy (text_value "Bob") = Returns true.
Proof.
  assert (H : ∃ copy, Tree_Val_assign Tree_Val_fresh (text_value "Bob") = Returns copy)
    by (eexists; vm_compute; reflexivity).
  destruct H as [copy H]. exists copy. split; [exact H|].
  apply (Tree_Val_assign_then_eq Tree_Val_fresh (text_value "Bob") copy H).
  right. left. reflexivity.
Defined.

(** A text that holds no number where [strtol] looks for one, declared int,
    is stored as the int 0 without any error. *)
Theorem _set_memberVal_int_no_number (str_val : string) :
  no_number str_val = true →
  _set_memberVal str_val (Tree_Val_declared VAL_Int)
  = mk_Tree_Val_t VAL_Int (val_int 0) None.
Proof.
  intros H. unfold _set_memberVal, Tree_Val_declared. cbn [e_type n_memLen].
  by rewrite (strtol_no_number _ H).
Qed.

Lemma _set_memberVal_int_no_number_witness :
  _set_memberVal "twelve" (Tree_Val_declared VAL_Int)
  = mk_Tree_Val_t VAL_Int (val_int 0) None.
Proof. apply _set_memberVal_int_no_number. reflexivity. Defined.
